(** * EushlatorV2: the dialogue-box reconstruction engine

    A shallow embedding of the box detector ([extract_dialogue.py]), the chunk
    collapser ([extract_dialogue_refine.py]), the text layout engine
    ([text_box_utils.py]), the label scout and code generator
    ([code_utils.py]) and the script splicer ([reinsert.py]) with the scene
    loop that drives it, followed by the properties the specification states
    about them and by further properties of the same code.

    Python values are embedded as follows: an [int] is a [Z], a [str] is the
    list of its code points, a list is a [list], a [dict] is a [gmap] (or,
    with a fixed set of keys, a record of them), and a function that can
    raise returns in the monad [res]. *)

From Stdlib Require Import ZArith NArith Lia.
From stdpp Require Import base list gmap strings.

Open Scope Z_scope.

(** ** Python primitives *)
Module Py.

(** A code point, as [ord] returns it. *)
Abbreviation char := N (only parsing).
(** A Python [str]: the list of its code points. *)
Abbreviation pystr := (list N) (only parsing).

(** A string literal of the source (all of them are ASCII). *)
Definition py (s : string) : pystr :=
  map Ascii.N_of_ascii (String.list_ascii_of_string s).

Definition SPACE : char := 32%N.
Definition NEWLINE : char := 10%N.
Definition QUOTE : char := 34%N.
Definition APOSTROPHE : char := 39%N.
Definition BACKSLASH : char := 92%N.

(** The exceptions the embedded functions raise. *)
Inductive exn := IndexError | ValueError | KeyError.

Inductive res (A : Type) : Type :=
  | Ok (a : A)
  | Raise (e : exn).
Arguments Ok {A} a.
Arguments Raise {A} e.

#[global] Instance res_ret : MRet res := fun A a => Ok a.
#[global] Instance res_fmap : FMap res := fun A B f m =>
  match m with
  | Ok a => Ok (f a)
  | Raise e => Raise e
  end.
#[global] Instance res_bind : MBind res := fun A B f m =>
  match m with
  | Ok a => f a
  | Raise e => Raise e
  end.

(** [len(l)] *)
Definition len {A} (l : list A) : Z := Z.of_nat (length l).

(** [l[i]], negative indices counting from the end. *)
Definition getitem {A} (l : list A) (i : Z) : res A :=
  let j := if i <? 0 then len l + i else i in
  if (j <? 0) || (len l <=? j) then Raise IndexError
  else match l !! Z.to_nat j with
       | Some x => Ok x
       | None => Raise IndexError
       end.

(** The position a slice bound designates: negative bounds count from the
    end, and every bound is clamped to [0, len]. *)
Definition slice_bound {A} (l : list A) (i : Z) : nat :=
  if i <? 0 then Z.to_nat (Z.max 0 (len l + i)) else Z.to_nat (Z.min i (len l)).

(** [l[:stop]] *)
Definition slice_to {A} (l : list A) (stop : Z) : list A :=
  take (slice_bound l stop) l.
(** [l[start:]] *)
Definition slice_from {A} (l : list A) (start : Z) : list A :=
  drop (slice_bound l start) l.
(** [l[start:stop]] *)
Definition slice {A} (l : list A) (start stop : Z) : list A :=
  drop (slice_bound l start) (take (slice_bound l stop) l).

(** [c.isspace()] *)
Definition isspace (c : char) : bool :=
  ((9 <=? c) && (c <=? 13) || (28 <=? c) && (c <=? 32)
   || (c =? 0x85) || (c =? 0xA0) || (c =? 0x1680)
   || (0x2000 <=? c) && (c <=? 0x200A)
   || (c =? 0x2028) || (c =? 0x2029) || (c =? 0x202F)
   || (c =? 0x205F) || (c =? 0x3000))%N.

Fixpoint lstrip (s : pystr) : pystr :=
  match s with
  | c :: r => if isspace c then lstrip r else s
  | [] => []
  end.
Definition rstrip (s : pystr) : pystr := reverse (lstrip (reverse s)).
Definition strip (s : pystr) : pystr := rstrip (lstrip s).

(** [s.startswith(p)] *)
Fixpoint startswith (s p : pystr) : bool :=
  match p, s with
  | [], _ => true
  | a :: p', b :: s' => (a =? b)%N && startswith s' p'
  | _ :: _, [] => false
  end.

(** [p in s] for strings *)
Fixpoint contains (s p : pystr) : bool :=
  startswith s p ||
  match s with
  | [] => false
  | _ :: r => contains r p
  end.

(** [s.split(c)] for a separator of one character. *)
Fixpoint split_on (c : char) (s : pystr) : list pystr :=
  match s with
  | [] => [[]]
  | x :: r =>
      if (x =? c)%N then [] :: split_on c r
      else match split_on c r with
           | w :: ws => (x :: w) :: ws
           | [] => [[x]]
           end
  end.

(** [sep.join(l)] *)
Fixpoint join (sep : pystr) (l : list pystr) : pystr :=
  match l with
  | [] => []
  | [x] => x
  | x :: r => x ++ sep ++ join sep r
  end.

(** [s.count(c)] for one character. *)
Definition count (c : char) (s : pystr) : Z :=
  len (filter (fun x => x = c) s).

(** [s.replace(old, new)]: the occurrences of [old] are taken from the left
    and do not overlap; an empty [old] matches before every character and
    at the end. [skip] counts the characters of a match still to pass. *)
Fixpoint replace_from (old new : pystr) (skip : nat) (s : pystr) : pystr :=
  match s with
  | [] => []
  | c :: r =>
      match skip with
      | S k => replace_from old new k r
      | O => if startswith s old
             then new ++ replace_from old new (length old - 1) r
             else c :: replace_from old new 0 r
      end
  end.
Definition replace (old new s : pystr) : pystr :=
  match old with
  | [] => new ++ flat_map (fun c => c :: new) s
  | _ :: _ => replace_from old new 0 s
  end.

End Py.
Export Py.

(** ** The text layout engine ([eushlator/utils/text_box_utils.py]) *)
Module TextBoxUtils.

(** [is_wide_char], on the code point [ord(ch)]. *)
Definition is_wide_char (code : char) : bool :=
  ((0xE000 <=? code) && (code <=? 0xF8FF)
   || (0xF0000 <=? code) && (code <=? 0xFFFFD)
   || (0x100000 <=? code) && (code <=? 0x10FFFD)
   || (0x3000 <=? code) && (code <=? 0x303F)
   || (0x3040 <=? code) && (code <=? 0x309F)
   || (0x30A0 <=? code) && (code <=? 0x30FF)
   || (0x4E00 <=? code) && (code <=? 0x9FFF)
   || (0xF900 <=? code) && (code <=? 0xFAFF)
   || (0xFF01 <=? code) && (code <=? 0xFF60)
   || (0xFFE0 <=? code) && (code <=? 0xFFE6)
   || (code =? 0x2014) || (code =? 0x2015) || (code =? 0x301C))%N.

Fixpoint measure_text_width (s : pystr) : Z :=
  match s with
  | [] => 0
  | ch :: r => (if is_wide_char ch then 2 else 1) + measure_text_width r
  end.

(** The state of the wrapping loop of [correct_en_box]: the sub-boxes
    flushed so far and the lines of the sub-box under construction. *)
Definition wrap_state : Type := list pystr * list pystr.

(** The inner function [_flush]. *)
Definition _flush (st : wrap_state) : wrap_state :=
  let '(boxes, lines) := st in
  (match lines with
   | [] => boxes
   | _ :: _ => boxes ++ [join [NEWLINE] lines]
   end, []).

(** One iteration of [for word in words]. *)
Definition wrap_word (max_lines max_chars_per_line : Z)
    (st : wrap_state) (word : pystr) : wrap_state :=
  let '(boxes, lines) := st in
  match last lines with
  | None => (boxes, [word])
  | Some cur =>
      let candidate := cur ++ [SPACE] ++ word in
      if measure_text_width candidate <=? max_chars_per_line
      then (boxes, <[pred (length lines) := candidate]> lines)
      else if len lines <? max_lines
           then (boxes, lines ++ [word])
           else (fst (_flush st), [word])
  end.

Definition correct_en_box (en_box : pystr) (max_lines max_chars_per_line : Z)
    : list pystr :=
  let words := split_on SPACE en_box in
  fst (_flush (fold_left (wrap_word max_lines max_chars_per_line) words ([], []))).

(** [[last.pop(-1)] for _ in range(need)]: the popped items, each in a list
    of its own and in popping order, and what is left of [last]. *)
Fixpoint pop_each (need : nat) (last_c : list pystr)
    : res (list (list pystr) * list pystr) :=
  match need with
  | O => Ok ([], last_c)
  | S n =>
      match last last_c with
      | None => Raise IndexError
      | Some x =>
          '(new, rest) ← pop_each n (take (pred (length last_c)) last_c);
          Ok ([x] :: new, rest)
      end
  end.

(** The loop [for i in range(jp_len)] of the flattening branch, from index
    [i] on, [n] iterations being left. *)
Fixpoint rechunk (flat : list pystr) (div rem : Z) (n : nat) (i idx : Z)
    : list (list pystr) :=
  match n with
  | O => []
  | S n' =>
      let size := if i <? rem then div + 1 else div in
      slice flat idx (idx + size) :: rechunk flat div rem n' (i + 1) (idx + size)
  end.

(** [if not nc]: the empty string is appended to [nc]. *)
Definition pad_empty (nc : list pystr) : list pystr :=
  match nc with
  | [] => [[]]
  | _ :: _ => nc
  end.

(** [en_containers[-1].extend(container)] *)
Definition extend_last (en_containers : list (list pystr))
    (container : list pystr) : res (list (list pystr)) :=
  match last en_containers with
  | None => Raise IndexError
  | Some l => Ok (<[pred (length en_containers) := l ++ container]> en_containers)
  end.

Fixpoint extend_last_all (en_containers : list (list pystr))
    (extras : list (list pystr)) : res (list (list pystr)) :=
  match extras with
  | [] => Ok en_containers
  | container :: rest =>
      en_containers' ← extend_last en_containers container;
      extend_last_all en_containers' rest
  end.

(** [reconcile], for containers that are distinct list objects, as
    [create_english_box] builds them (one new list per line, from
    [correct_en_box]): mutating the last one in place then changes that entry
    of the outer list only, and lists stand for the objects. Containers
    that share one list object are outside of this definition. *)
Definition reconcile (jp_boxes : list pystr)
    (en_containers : list (list pystr)) : res (list (list pystr)) :=
  let jp_len := len jp_boxes in
  let cont_len := len en_containers in
  if cont_len <? jp_len then
    let need := jp_len - cont_len in
    last_c ← getitem en_containers (-1);
    if need <? len last_c then
      '(new, last_c') ← pop_each (Z.to_nat need) last_c;
      Ok (<[pred (length en_containers) := last_c']> en_containers
          ++ reverse new)
    else
      let flat := concat en_containers in
      let total := len flat in
      let div := total `div` jp_len in
      let rem := total `mod` jp_len in
      Ok (map pad_empty (rechunk flat div rem (length jp_boxes) 0 0))
  else if jp_len <? cont_len then
    let extras := slice_from en_containers jp_len in
    extend_last_all (slice_to en_containers jp_len) extras
  else Ok en_containers.

(** [create_english_box]; the warning it prints is not modelled. *)
Definition create_english_box (jp_text en_text : pystr)
    (text_lines line_width : Z) : res (list (list pystr)) :=
  let jp_boxes := split_on NEWLINE jp_text in
  let en_boxes := split_on NEWLINE en_text in
  let en_containers :=
    map (fun en_box => correct_en_box en_box text_lines line_width) en_boxes in
  reconcile jp_boxes en_containers.

End TextBoxUtils.

(** ** Manual replacements ([eushlator/utils/manual_replacements.py]) *)
Module ManualReplacements.

(** [replace_str], the process-wide [rep_dict] being given as the list of its
    items in iteration order. *)
Definition replace_str (rep_dict : list (pystr * pystr)) (txt : pystr) : pystr :=
  fold_left (fun txt '(old, new) => replace old new txt) rep_dict txt.

End ManualReplacements.

(** ** The label scout and the code generator ([eushlator/utils/code_utils.py]) *)
Module CodeUtils.

Definition new_char_text_box_label_template : list pystr :=
  [py "add (local-int 0) 2 (global-int 6625)"].

Definition new_narr_text_box_label_template : list pystr :=
  [py "u004160D0"; py "mov (global-int 6622) 1"].

Definition shitter : pystr := [QUOTE].
Definition safe_shitter : pystr := [APOSTROPHE].

(** [range(n)] *)
Definition range (n : Z) : list Z := map Z.of_nat (seq 0 (Z.to_nat n)).

(** [enumerate(l)] *)
Definition enumerate {A} (l : list A) : list (Z * A) := zip (range (len l)) l.

Definition find_label_before (code label_template : list pystr) : res pystr :=
  let seq_len := len label_template in
  let matches :=
    filter (fun i => slice code i (i + seq_len) = label_template)
           (range (len code - seq_len + 1)) in
  if len matches =? 1 then
    m ← getitem matches 0;
    getitem code (m - 1)
  else Ok [].

(** The module-level labels [init_labels] sets. *)
Record labels := Labels {
  current_char_label : pystr;
  current_narr_label : pystr
}.

Definition init_labels (full_code : list pystr) : res labels :=
  c ← find_label_before full_code new_char_text_box_label_template;
  n ← find_label_before full_code new_narr_text_box_label_template;
  Ok (Labels c n).

(** The f-string of a [show-text 0] instruction, [text] between quotes. *)
Definition show_text (text : pystr) : pystr :=
  py "show-text 0 " ++ [QUOTE] ++ text ++ [QUOTE].

(** The f-string of a [concat] instruction into [(global-string bbb)],
    [text] between quotes. *)
Definition concat_bbb (text : pystr) : pystr :=
  py "concat (global-string bbb) (global-string bbb) " ++ [QUOTE] ++ text ++ [QUOTE].

(** The bridging sequence of [create_text_box_code] between two sub-boxes. *)
Definition bridge (lb : labels) (speaker : pystr) : list pystr :=
  [py "comment " ++ [QUOTE] ++ py "Extra Textbox " ++ speaker ++ [QUOTE];
   py "u004213E0 0"; py "u0041A7B0 2"; py "u0041A7B0 1"]
  ++ (if bool_decide (speaker = py "Narrator") then
        (match current_narr_label lb with
         | [] => []
         | _ :: _ => [py "call " ++ rstrip (current_narr_label lb)]
         end) ++ [py "u004160D0"]
      else
        [py "u004160D0"] ++
        (match current_char_label lb with
         | [] => []
         | _ :: _ => [py "call " ++ rstrip (current_char_label lb)]
         end))
  ++ [py "308 1"; py "u004213E0 1"; py "u00416120"].

(** One iteration of the loop over the sub-boxes in [create_text_box_code]. *)
Definition text_box_step (lb : labels) (speaker : pystr) (n_boxes : Z)
    (final_code : list pystr) (bbox : Z * pystr) : list pystr :=
  let '(b, box) := bbox in
  let lines := split_on NEWLINE box in
  let final_code := final_code ++ [[]] in
  let final_code :=
    fold_left (fun fc l =>
                 fc ++ [show_text (replace shitter safe_shitter l);
                        py "end-text-line 0"])
              lines final_code in
  let final_code := slice_to final_code (-1) in
  let final_code :=
    final_code ++ [py "wait-for-input 0"; py "end-text-line 0"; []] in
  if negb (b =? n_boxes - 1) then final_code ++ bridge lb speaker
  else final_code.

Definition create_text_box_code (lb : labels) (en_box : list pystr)
    (speaker : pystr) : list pystr :=
  fold_left (text_box_step lb speaker (len en_box)) (enumerate en_box) [].

(** One iteration of the loop over the sub-boxes in
    [create_text_box_code_concat]. *)
Definition concat_step (n_boxes : Z) (final_code : list pystr)
    (bbox : Z * pystr) : list pystr :=
  let '(b, box) := bbox in
  let lines := split_on NEWLINE box in
  let final_code := final_code ++ [[]] in
  let final_code :=
    fold_left (fun fc l =>
                 fc ++ [show_text l;
                        concat_bbb (replace shitter safe_shitter l);
                        py "end-text-line 0"])
              lines final_code in
  let final_code := slice_to final_code (-1) in
  let final_code := final_code ++ [[]] in
  if negb (b =? n_boxes - 1) then
    slice_to final_code (-1) ++ [py "end-text-line 0"]
  else final_code.

Definition create_text_box_code_concat (en_box : list pystr) : list pystr :=
  fold_left (concat_step (len en_box)) (enumerate en_box) [].

(** [create_text_box_code_SG]: the loop breaks after the first sub-box. *)
Definition create_text_box_code_SG (en_box : list pystr) : list pystr :=
  match en_box with
  | [] => []
  | box :: _ =>
      let lines := split_on NEWLINE box in
      fold_left (fun fc l =>
                   fc ++ [show_text (replace shitter safe_shitter l);
                          py "end-text-line 0"])
                lines [[]]
      ++ [[]]
  end.

End CodeUtils.

(** ** The box detector ([eushlator/process/extract_dialogue.py]) *)
Module ExtractDialogue.

Definition TEXT_CMDS : list pystr :=
  [py "show-text 0"; py "display-furigana 0"; py "wait-for-input 0";
   py "end-text-line 0"; py "concat"].

(** [any(st.startswith(cmd) for cmd in TEXT_CMDS)] *)
Definition is_text_cmd (st : pystr) : bool := existsb (startswith st) TEXT_CMDS.

(** A literal of a pattern, matched at the head of [s]; what follows it. *)
Definition lit (p : pystr) (s : pystr) : option pystr :=
  if startswith s p then Some (drop (length p) s) else None.

(** [\s+] at the head of [s]: every pattern below continues with a character
    that is no white space, so the greedy match is the only one. *)
Definition spaces (s : pystr) : option pystr :=
  match s with
  | c :: r => if isspace c then Some (lstrip r) else None
  | [] => None
  end.

(** The pieces of a pattern one after the other, from the head of [s]. *)
Definition pieces (ps : list (pystr → option pystr)) (s : pystr)
    : option pystr :=
  fold_left (fun o p => o ≫= p) ps (Some s).

(** [LOOKUP_6623.match(st)] *)
Definition LOOKUP_6623 (st : pystr) : bool :=
  match pieces [lit (py "lookup-array"); spaces; lit (py "(local-ptr 0)");
                spaces; lit (py "(global-int 6623")] st with
  | Some _ => true
  | None => false
  end.

(** The value of a character of [[0-9a-fA-F]]. *)
Definition hex_digit (c : char) : option Z :=
  if ((48 <=? c) && (c <=? 57))%N then Some (Z.of_N c - 48)
  else if ((97 <=? c) && (c <=? 102))%N then Some (Z.of_N c - 87)
  else if ((65 <=? c) && (c <=? 70))%N then Some (Z.of_N c - 55)
  else None.

(** The longest run of hexadecimal digits at the head of [s], as [int(_, 16)]
    reads it from the accumulated value [acc], and its length. *)
Fixpoint hex_run (acc : Z) (s : pystr) : Z * nat :=
  match s with
  | c :: r =>
      match hex_digit c with
      | Some d => let '(v, n) := hex_run (16 * acc + d) r in (v, S n)
      | None => (acc, O)
      end
  | [] => (acc, O)
  end.

(** [MOV_LOCAL_PTR.match(st)] and [int(mv.group(1), 16)] *)
Definition MOV_LOCAL_PTR (st : pystr) : option Z :=
  r ← pieces [lit (py "mov"); spaces; lit (py "(local-ptr 0)"); spaces] st;
  match hex_run 0 r with
  | (_, O) => None
  | (v, S _) => Some v
  end.

(** [pattern.search(s)]: the match at the leftmost position that has one. *)
Fixpoint search {A} (m : pystr → option A) (s : pystr) : option A :=
  match m s with
  | Some x => Some x
  | None => match s with
            | [] => None
            | _ :: r => search m r
            end
  end.

(** The longest prefix of [s] whose characters all satisfy [f]. *)
Fixpoint span_of (f : char → bool) (s : pystr) : pystr :=
  match s with
  | c :: r => if f c then c :: span_of f r else []
  | [] => []
  end.

(** What precedes the first quote of [r]. *)
Fixpoint before_quote (r : pystr) : option pystr :=
  match r with
  | [] => None
  | c :: r' => if (c =? QUOTE)%N then Some [] else cons c <$> before_quote r'
  end.

(** What follows the first quote of [r]. *)
Fixpoint after_quote (r : pystr) : option pystr :=
  match r with
  | [] => None
  | c :: r' => if (c =? QUOTE)%N then Some r' else after_quote r'
  end.

(** The group of the greedy dot-star, closed by a quote, at the head of [s]:
    the dot matches everything but a newline, so the group ends at the last
    quote before the first newline. *)
Definition dot_star_quote (s : pystr) : option pystr :=
  let run := span_of (fun c => negb (c =? NEWLINE)%N) s in
  reverse <$> after_quote (reverse run).

(** [SHOW_RE] at the head of [s]; the group. *)
Definition SHOW_RE (s : pystr) : option pystr :=
  pieces [lit (py "show-text 0"); spaces; lit [QUOTE]; dot_star_quote] s.

(** The group of one or more characters other than a quote, closed by a
    quote, at the head of [s], and what follows that quote. *)
Definition not_quote_group (s : pystr) : option (pystr * pystr) :=
  g ← before_quote s;
  r ← after_quote s;
  match g with
  | [] => None
  | _ :: _ => Some (g, r)
  end.

(** [FURI_RE] at the head of [s]; the two groups. *)
Definition FURI_RE (s : pystr) : option (pystr * pystr) :=
  r ← pieces [lit (py "display-furigana 0"); spaces; lit [QUOTE]] s;
  '(kanji, r) ← not_quote_group r;
  r ← pieces [spaces; lit [QUOTE]] r;
  '(furi, _) ← not_quote_group r;
  Some (kanji, furi).

(** [unesc]: the two replacements of [ESC], in the order of the dict. *)
Definition unesc (s : pystr) : pystr :=
  replace [BACKSLASH; BACKSLASH] [BACKSLASH]
    (replace [BACKSLASH; QUOTE] [QUOTE] s).

Definition join_text (lines : list pystr) : pystr :=
  concat (flat_map (fun ln =>
    if startswith (lstrip ln) (py "show-text 0") then
      match search SHOW_RE ln with
      | Some g => [unesc g]
      | None => []
      end
    else if startswith (lstrip ln) (py "display-furigana 0") then
      match search FURI_RE ln with
      | Some (kanji, furi) => [kanji ++ py "(" ++ furi ++ py ")"]
      | None => []
      end
    else []) lines).

Definition is_box_start (line file_name : pystr) : bool :=
  bool_decide (line = py "u00416120")
  || bool_decide (line = py "304")
  || (contains file_name (py "SG")
      && bool_decide (line = py "call label_00004c70")).

Record TextBox := mkTextBox {
  idx : Z;
  speaker : pystr;
  offset : Z;
  jp_text : pystr;
  raw : list pystr
}.

(** The variables of [extract_boxes] that its loop and [close] update.
    [spans] is a ghost field, written and never read: for every box emitted,
    the [start_idx] it was closed with and the [end_before] [close] was
    given, the positions of its first and last line. *)
Record scan := mkScan {
  boxes : list TextBox;
  pending_speaker : option Z;
  waiting_mov : bool;
  in_box : bool;
  after_u : bool;
  buf : list pystr;
  start_idx : Z;
  last_end : Z;
  spans : list (Z * Z)
}.

Definition scan_init : scan :=
  mkScan [] None false false false [] (-1) 0 [].

Section extract.
Variable lines : list pystr.
Variable file_name : pystr.
Variable name_map : gmap Z pystr.

(** [name_map.get(pending_speaker, Narrator)] *)
Definition speaker_name (pending : option Z) : pystr :=
  default (py "Narrator") (pending ≫= fun k => name_map !! k).

(** The inner function [close]. *)
Definition close (s : scan) (end_before : Z) : scan :=
  let emit :=
    in_box s && match buf s with [] => false | _ :: _ => true end in
  let offset :=
    if 0 <=? last_end s then start_idx s - last_end s else 0 in
  let box :=
    mkTextBox (len (boxes s) + 1) (speaker_name (pending_speaker s)) offset
              (join_text (slice_from (buf s) 1)) (buf s) in
  mkScan (if emit then boxes s ++ [box] else boxes s)
         None (waiting_mov s) false false [] (-1)
         (if emit then end_before else last_end s)
         (if emit then spans s ++ [(start_idx s, end_before)] else spans s).

(** The speaker tracking at the head of the loop body. *)
Definition track_speaker (s : scan) (st : pystr) : scan :=
  if LOOKUP_6623 st then
    mkScan (boxes s) (pending_speaker s) true (in_box s) (after_u s)
           (buf s) (start_idx s) (last_end s) (spans s)
  else if waiting_mov s then
    mkScan (boxes s)
           (match MOV_LOCAL_PTR st with
            | Some v => Some v
            | None => pending_speaker s
            end)
           false (in_box s) (after_u s) (buf s) (start_idx s) (last_end s)
           (spans s)
  else s.

(** The test both branches make on a start marker at [idx]: the next line
    is read, and the marker opens a buffer when that line starts with
    [show-text]; otherwise the loop continues with [s] as it is. *)
Definition try_start (s : scan) (idx : Z) (ln : pystr) : res scan :=
  nxt ← getitem lines (idx + 1);
  if negb (startswith nxt (py "show-text")) then Ok s
  else Ok (mkScan (boxes s) (pending_speaker s) (waiting_mov s) (in_box s)
                  true [ln] idx (last_end s) (spans s)).

(** The body of [for idx, ln in enumerate(lines)]. *)
Definition step (s : scan) (idx : Z) (ln : pystr) : res scan :=
  let st := strip ln in
  let s := track_speaker s st in
  if negb (in_box s) then
    if is_box_start st file_name then try_start s idx ln
    else if after_u s then
      if is_text_cmd st then
        Ok (mkScan (boxes s) (pending_speaker s) (waiting_mov s) true
                   (after_u s) (buf s ++ [ln]) (start_idx s) (last_end s)
                   (spans s))
      else
        Ok (mkScan (boxes s) (pending_speaker s) (waiting_mov s) (in_box s)
                   false [] (start_idx s) (last_end s) (spans s))
    else Ok s
  else
    if is_text_cmd st then
      Ok (mkScan (boxes s) (pending_speaker s) (waiting_mov s) (in_box s)
                 (after_u s) (buf s ++ [ln]) (start_idx s) (last_end s)
                 (spans s))
    else
      let s := close s (idx - 1) in
      if is_box_start st file_name then try_start s idx ln
      else Ok s.

(** The loop from index [idx] on, [rest] being [lines[idx:]]. *)
Fixpoint run (s : scan) (idx : Z) (rest : list pystr) : res scan :=
  match rest with
  | [] => Ok s
  | ln :: rest' => s' ← step s idx ln; run s' (idx + 1) rest'
  end.

(** The loop and the closing of a box still open at the end of the input. *)
Definition extract_scan : res scan :=
  s ← run scan_init 0 lines;
  Ok (close s (len lines - 1)).

(** [extract_boxes], on the lines read from the file. *)
Definition extract_boxes : res (list TextBox) :=
  boxes <$> extract_scan.

End extract.

End ExtractDialogue.

(** ** The chunk collapser ([eushlator/process/extract_dialogue_refine.py]) *)
Module Refine.

(** A box as the scene file holds it. *)
Record box := mkBox {
  box_text : pystr;
  box_speaker : pystr;
  box_offset : Z
}.

(** A chunk: the keys [speaker], [text] and [id] of the dict. *)
Record chunk := mkChunk {
  chunk_speaker : pystr;
  chunk_text : pystr;
  chunk_id : Z
}.

(** The variables of the loop: [chunks], [cur_speaker], [cur_lines], [i]. *)
Definition collapse_state : Type := list chunk * pystr * list pystr * Z.

(** The body of [for box in boxes[1:]]. *)
Definition collapse_step (st : collapse_state) (b : box) : collapse_state :=
  let '(chunks, cur_speaker, cur_lines, i) := st in
  if bool_decide (box_speaker b = cur_speaker) then
    (chunks, cur_speaker, cur_lines ++ [box_text b], i)
  else
    (chunks ++ [mkChunk cur_speaker (join [NEWLINE] cur_lines) i],
     box_speaker b, [box_text b], i + 1).

Definition _collapse_boxes (boxes : list box) : list chunk :=
  match boxes with
  | [] => []
  | b0 :: rest =>
      let '(chunks, cur_speaker, cur_lines, i) :=
        fold_left collapse_step rest ([], box_speaker b0, [box_text b0], 1) in
      chunks ++ [mkChunk cur_speaker (join [NEWLINE] cur_lines) i]
  end.

End Refine.

(** ** The script splicer ([eushlator/process/reinsert.py]) *)
Module Reinsert.
Import TextBoxUtils CodeUtils ManualReplacements.

Definition TEXT_CMDS : list pystr :=
  [py "show-text 0"; py "display-furigana 0"; py "wait-for-input 0";
   py "end-text-line 0"; py "concat"].

(** [any(line.strip().startswith(cmd) for cmd in TEXT_CMDS)] *)
Definition is_text_cmd (line : pystr) : bool :=
  existsb (startswith (strip line)) TEXT_CMDS.

(** The keys [text], [speaker] and [offset] of a box dict. *)
Record jp_box := mkJpBox {
  text : pystr;
  speaker : pystr;
  offset : Z
}.

(** The [while True] loop, entered with [lookat] already incremented: it
    returns the first [lookat] whose line is no text command and raises when
    it reads past the end of the script. [n] counts down the lines left from
    [lookat] to the end, which bounds the iterations. *)
Fixpoint text_box_end_from (final_en_script : list pystr) (n : nat)
    (lookat : Z) : res Z :=
  ln ← getitem final_en_script lookat;
  if is_text_cmd ln then
    match n with
    | O => Raise IndexError
    | S n' => text_box_end_from final_en_script n' (lookat + 1)
    end
  else Ok lookat.

Definition find_text_box_end (final_en_script : list pystr)
    (text_box_start : Z) : res Z :=
  let lookat := text_box_start + 1 in
  text_box_end_from final_en_script
    (Z.to_nat (len final_en_script - lookat)) lookat.

(** [d[key]], which raises when [d] does not hold [key]. *)
Definition subscript `{Countable K} {A} (d : gmap K A) (key : K) : res A :=
  match d !! key with
  | Some value => Ok value
  | None => Raise KeyError
  end.

(** The body of the second loop of [craft_into_script], for box [i] of
    offset [offset]: the loop looks for the end of the box first, and reads
    [code_map[i]] after it. *)
Definition splice_box (code_map : gmap Z (list pystr)) (position : Z)
    (final_en_script : list pystr) (i : Z) (offset : Z)
    : res (Z * list pystr) :=
  let lookat := position + offset in
  let text_box_start := lookat in
  text_box_end ← find_text_box_end final_en_script text_box_start;
  en_lines ← subscript code_map i;
  let final_en_script :=
    slice_to final_en_script (text_box_start + 1) ++ en_lines
    ++ slice_from final_en_script text_box_end in
  let position := len en_lines + text_box_start in
  Ok (position, final_en_script).

(** The second loop: [for i, jp_dict in enumerate(jp_box_dicts)]. *)
Fixpoint splice_boxes (code_map : gmap Z (list pystr)) (position : Z)
    (final_en_script : list pystr) (todo : list (Z * jp_box))
    : res (Z * list pystr) :=
  match todo with
  | [] => Ok (position, final_en_script)
  | (i, jp_dict) :: todo' =>
      '(position, final_en_script) ←
        splice_box code_map position final_en_script i (offset jp_dict);
      splice_boxes code_map position final_en_script todo'
  end.

(** The variables of the first loop: [code_map], [concat_offset] and
    [concat_container]. *)
Definition codegen_state : Type := gmap Z (list pystr) * Z * bool.

(** The body of the first loop, which picks the variant of the generated
    code of each box. *)
Definition codegen_step (lb : labels) (final_en_script : list pystr)
    (scene_id : pystr) (st : codegen_state)
    (item : Z * (jp_box * list pystr)) : res codegen_state :=
  let '(code_map, concat_offset, concat_container) := st in
  let '(bid, (jp_box, en_container)) := item in
  let concat_offset := concat_offset + offset jp_box + 2 in
  if contains scene_id (py "SG") then
    Ok (<[bid := create_text_box_code_SG en_container]> code_map,
        concat_offset, concat_container)
  else
    is_concat ←
      (if concat_container then Ok true
       else ln ← getitem final_en_script concat_offset;
            Ok (startswith ln (py "concat")) : res bool);
    if (is_concat : bool) then
      Ok (<[bid := create_text_box_code_concat en_container]> code_map,
          concat_offset, true)
    else
      Ok (<[bid := create_text_box_code lb en_container (speaker jp_box)]>
            code_map,
          concat_offset, concat_container).

Fixpoint codegen (lb : labels) (final_en_script : list pystr)
    (scene_id : pystr) (st : codegen_state)
    (items : list (Z * (jp_box * list pystr))) : res codegen_state :=
  match items with
  | [] => Ok st
  | item :: items' =>
      st' ← codegen_step lb final_en_script scene_id st item;
      codegen lb final_en_script scene_id st' items'
  end.

(** [craft_into_script] on dicts that hold their keys: [text_lines] and
    [line_length] are the two entries of [config], and each box dict is the
    record of its [text], its [speaker] and its [offset], so that no
    subscript of [config] or of a box dict raises here;
    [ReinsertDicts.craft_into_script] below is the function on dicts whose
    keys may be missing. [lb] holds the labels [init_labels] found. *)
Definition craft_into_script (lb : labels) (en_boxes : pystr)
    (jp_box_dicts : list jp_box) (final_en_script : list pystr)
    (text_lines line_length : Z) (starting_offset : Z) (scene_id : pystr)
    : res (Z * list pystr) :=
  let jp_boxes := join [NEWLINE] (map text jp_box_dicts) in
  final_en_containers ←
    create_english_box jp_boxes en_boxes text_lines line_length;
  '(code_map, _, _) ←
    codegen lb final_en_script scene_id (∅, starting_offset, false)
            (enumerate (zip jp_box_dicts final_en_containers));
  splice_boxes code_map starting_offset final_en_script
               (enumerate jp_box_dicts).

(** The line swapped in for a differing [set-string] line: when the stripped
    line has more than one quote, the stripped line with its last quoted
    payload passed through [replace_str]; the edited line as it is
    otherwise. *)
Definition swapped_line (rep_dict : list (pystr * pystr))
    (edited_line : pystr) : res pystr :=
  if 1 <? count QUOTE (strip edited_line) then
    let edited_line_split := split_on QUOTE (strip edited_line) in
    payload ← getitem edited_line_split (-2);
    Ok (join [QUOTE]
          (<[Z.to_nat (len edited_line_split - 2) :=
               replace_str rep_dict payload]> edited_line_split))
  else Ok edited_line.

(** The body of [for orig_line, edited_line in zip(...)]. *)
Definition overlay_line (rep_dict : list (pystr * pystr))
    (orig_line edited_line : pystr) : res pystr :=
  if negb (bool_decide (orig_line = edited_line))
     && startswith (strip edited_line) (py "set-string")
  then swapped_line rep_dict edited_line
  else Ok orig_line.

Fixpoint overlay (rep_dict : list (pystr * pystr))
    (pairs : list (pystr * pystr)) : res (list pystr) :=
  match pairs with
  | [] => Ok []
  | (orig_line, edited_line) :: pairs' =>
      l ← overlay_line rep_dict orig_line edited_line;
      updated ← overlay rep_dict pairs';
      Ok (l :: updated)
  end.

Definition replace_manual_strings (rep_dict : list (pystr * pystr))
    (final_en_script edited_script : list pystr) : res (list pystr) :=
  if negb (len final_en_script =? len edited_script) then Raise ValueError
  else overlay rep_dict (zip final_en_script edited_script).

End Reinsert.

(** ** The script splicer over dicts ([eushlator/process/reinsert.py])

    [craft_into_script] once more, with [config] and the box dicts as the
    dicts they are: a subscript raises [KeyError] when its key is missing,
    at the place where the code makes it. *)
Module ReinsertDicts.
Import TextBoxUtils CodeUtils Reinsert.

(** A box dict: each of the keys [text], [speaker] and [offset] holds a value
    of its type, or is missing. *)
Record box_dict := mkBoxDict {
  text : option pystr;
  speaker : option pystr;
  offset : option Z
}.

(** [b[key]] for a key of a box dict. *)
Definition field {A} (value : option A) : res A :=
  match value with
  | Some v => Ok v
  | None => Raise KeyError
  end.

(** [[b["text"] for b in jp_box_dicts]] *)
Fixpoint texts (jp_box_dicts : list box_dict) : res (list pystr) :=
  match jp_box_dicts with
  | [] => Ok []
  | b :: rest =>
      t ← field (text b);
      ts ← texts rest;
      Ok (t :: ts)
  end.

(** The body of the first loop: [jp_box["offset"]] is read first, and
    [jp_box["speaker"]] in the last branch only. *)
Definition codegen_step (lb : labels) (final_en_script : list pystr)
    (scene_id : pystr) (st : codegen_state)
    (item : Z * (box_dict * list pystr)) : res codegen_state :=
  let '(code_map, concat_offset, concat_container) := st in
  let '(bid, (jp_box, en_container)) := item in
  jp_box_offset ← field (offset jp_box);
  let concat_offset := concat_offset + jp_box_offset + 2 in
  if contains scene_id (py "SG") then
    Ok (<[bid := create_text_box_code_SG en_container]> code_map,
        concat_offset, concat_container)
  else
    is_concat ←
      (if concat_container then Ok true
       else ln ← getitem final_en_script concat_offset;
            Ok (startswith ln (py "concat")) : res bool);
    if (is_concat : bool) then
      Ok (<[bid := create_text_box_code_concat en_container]> code_map,
          concat_offset, true)
    else
      jp_box_speaker ← field (speaker jp_box);
      Ok (<[bid := create_text_box_code lb en_container jp_box_speaker]>
            code_map,
          concat_offset, concat_container).

Fixpoint codegen (lb : labels) (final_en_script : list pystr)
    (scene_id : pystr) (st : codegen_state)
    (items : list (Z * (box_dict * list pystr))) : res codegen_state :=
  match items with
  | [] => Ok st
  | item :: items' =>
      st' ← codegen_step lb final_en_script scene_id st item;
      codegen lb final_en_script scene_id st' items'
  end.

(** The second loop: [offset = jp_dict["offset"]], then the body
    [Reinsert.splice_box]. *)
Fixpoint splice_boxes (code_map : gmap Z (list pystr)) (position : Z)
    (final_en_script : list pystr) (todo : list (Z * box_dict))
    : res (Z * list pystr) :=
  match todo with
  | [] => Ok (position, final_en_script)
  | (i, jp_dict) :: todo' =>
      jp_dict_offset ← field (offset jp_dict);
      '(position, final_en_script) ←
        splice_box code_map position final_en_script i jp_dict_offset;
      splice_boxes code_map position final_en_script todo'
  end.

(** [craft_into_script]: the texts of all the boxes are read first, then
    [config["text_lines"]] and [config["line_length"]], the arguments of the
    call of [create_english_box]. *)
Definition craft_into_script (lb : labels) (en_boxes : pystr)
    (jp_box_dicts : list box_dict) (final_en_script : list pystr)
    (config : gmap string Z) (starting_offset : Z) (scene_id : pystr)
    : res (Z * list pystr) :=
  jp_texts ← texts jp_box_dicts;
  let jp_boxes := join [NEWLINE] jp_texts in
  text_lines ← subscript config "text_lines";
  line_length ← subscript config "line_length";
  final_en_containers ←
    create_english_box jp_boxes en_boxes text_lines line_length;
  '(code_map, _, _) ←
    codegen lb final_en_script scene_id (∅, starting_offset, false)
            (enumerate (zip jp_box_dicts final_en_containers));
  splice_boxes code_map starting_offset final_en_script
               (enumerate jp_box_dicts).

End ReinsertDicts.

(** ** The clean-up of a translation ([refine_llm_output] in
    [eushlator/utils/text_box_utils.py]) *)
Module LlmOutput.
Import ManualReplacements.

(** [s.endswith(p)] *)
Definition endswith (s p : pystr) : bool := startswith (reverse s) (reverse p).

(** The pairs of [quot], as the source file holds them: in the third pair
    both strings have three characters. *)
Definition quot : list (pystr * pystr) :=
  [([QUOTE], [QUOTE]); (py "[", py "]");
   ([0x201E; 0xC4; 0xE5]%N, [0x201E; 0xC4; 0xE7]%N)].

(** The inner [for ... else] over [quot]: what a stripped line adds to
    [without_quotation], the newline apart. *)
Definition unquoted (clean_line : pystr) : pystr :=
  match List.find (λ '(lq, rq), startswith clean_line lq
                                && endswith clean_line rq) quot with
  | Some _ => slice clean_line 1 (-1)
  | None => clean_line
  end.

(** [refine_llm_output]; the two warnings it prints are left out, and with
    them the test [contains_japanese], which decides nothing else. *)
Definition refine_llm_output (rep_dict : list (pystr * pystr))
    (llm_text : pystr) : pystr :=
  let result_text :=
    if contains llm_text [NEWLINE; NEWLINE]
    then replace [NEWLINE; NEWLINE] [NEWLINE] llm_text
    else llm_text in
  let with_quotation := split_on NEWLINE result_text in
  let without_quotation :=
    fold_left (λ without_quotation l,
                 (without_quotation ++ unquoted (strip l)) ++ [NEWLINE])
              with_quotation [] in
  replace_str rep_dict (strip without_quotation).

End LlmOutput.

(** ** The scene loop ([reinsert_translations] in
    [eushlator/process/reinsert.py]) *)
Module ReinsertTranslations.
Import TextBoxUtils CodeUtils ManualReplacements Refine Reinsert LlmOutput.

(** What stops a scene: an exception of the code it calls, the
    [RuntimeError] of an exhausted iterator, or a failed [assert]. *)
Inductive error :=
  | Inner (e : exn)
  | RuntimeError
  | AssertionError.

Inductive outcome (A : Type) :=
  | Done (a : A)
  | Fail (e : error).
Arguments Done {A} a.
Arguments Fail {A} e.

#[global] Instance outcome_ret : MRet outcome := fun A a => Done a.
#[global] Instance outcome_bind : MBind outcome := fun A B f m =>
  match m with
  | Done a => f a
  | Fail e => Fail e
  end.

Definition lift {A} (r : res A) : outcome A :=
  match r with
  | Ok a => Done a
  | Raise e => Fail (Inner e)
  end.

(** An entry of the translations of a scene: the keys [input], [text] and
    [id]. *)
Record translation := mkTranslation {
  tr_input : pystr;
  tr_text : pystr;
  tr_id : Z
}.

(** The variables of the loop over the boxes of a scene; the two iterators
    are the entries they have not yielded yet. *)
Record scene := mkScene {
  jp_texts_acc : list pystr;
  jp_boxes_acc : list jp_box;
  current_speaker : option pystr;
  starting_offset : Z;
  final_en_script : list pystr;
  last_pass : bool;
  full_iter : list chunk;
  en_iter : list translation
}.

Section scene.
Variable rep_dict : list (pystr * pystr).
Variables text_lines line_length : Z.
Variable scene_name : pystr.
Variable lb : labels.

(** The flush of the run accumulated: the next full box and the next
    translation are drawn, checked against the run, and the run is crafted
    into the script. In the loop the joined text is stripped once more
    before it is compared; after the loop it is not. The prompt rebuilt for
    a comparison that is commented out is left out. *)
Definition flush (in_loop : bool) (st : scene) : outcome scene :=
  let full_box := strip (join [NEWLINE] (jp_texts_acc st)) in
  match full_iter st, en_iter st with
  | jp_full :: full_iter', en_full :: en_iter' =>
      if negb (bool_decide (Some (chunk_speaker jp_full) = current_speaker st))
      then Fail AssertionError
      else if negb (bool_decide
                      (strip (chunk_text jp_full)
                       = if in_loop then strip full_box else full_box))
      then Fail AssertionError
      else
        let en_input := refine_llm_output rep_dict (tr_text en_full) in
        '(starting_offset', final_en_script') ←
          lift (craft_into_script lb en_input (jp_boxes_acc st)
                  (final_en_script st) text_lines line_length
                  (starting_offset st) scene_name);
        Done (mkScene (jp_texts_acc st) (jp_boxes_acc st) (current_speaker st)
                      starting_offset' final_en_script' (last_pass st)
                      full_iter' en_iter')
  | _, _ => Fail RuntimeError
  end.

(** The end of the loop body: the accumulators start again with [box]. *)
Definition restart (st : scene) (box : jp_box) : scene :=
  mkScene [text box] [box] (Some (speaker box)) (starting_offset st)
          (final_en_script st) (last_pass st) (full_iter st) (en_iter st).

(** The body of [for b, box in enumerate(jp_iter)], [n_boxes] being
    [len(jp_boxes)]. *)
Definition scene_step (n_boxes : Z) (st : scene) (item : Z * jp_box)
    : outcome scene :=
  let '(b, box) := item in
  let current := default (speaker box) (current_speaker st) in
  if bool_decide (speaker box = current) then
    let st :=
      mkScene (jp_texts_acc st ++ [text box]) (jp_boxes_acc st ++ [box])
              (Some current) (starting_offset st) (final_en_script st)
              (last_pass st) (full_iter st) (en_iter st) in
    if negb (b =? n_boxes - 1) then Done st
    else st' ← flush true st; Done (restart st' box)
  else
    let st :=
      mkScene (jp_texts_acc st) (jp_boxes_acc st) (Some current)
              (starting_offset st) (final_en_script st)
              (if b =? n_boxes - 1 then true else last_pass st)
              (full_iter st) (en_iter st) in
    st' ← flush true st; Done (restart st' box).

Fixpoint scene_loop (n_boxes : Z) (st : scene) (items : list (Z * jp_box))
    : outcome scene :=
  match items with
  | [] => Done st
  | item :: items' =>
      st' ← scene_step n_boxes st item; scene_loop n_boxes st' items'
  end.

End scene.

(** One scene of [reinsert_translations], on what it has read: the boxes of
    the scene, its full boxes, its translations, the lines of its script
    and, when the file exists, the lines of the edited script. It returns
    the lines it writes. *)
Definition reinsert_scene (rep_dict : list (pystr * pystr))
    (text_lines line_length : Z) (scene_name : pystr)
    (jp_boxes : list jp_box) (jp_full_boxes : list chunk)
    (translations : list translation) (jp_script : list pystr)
    (edited_script : option (list pystr)) : outcome (list pystr) :=
  lb ← lift (init_labels jp_script);
  script ←
    match edited_script with
    | Some (l :: ls) => lift (replace_manual_strings rep_dict jp_script (l :: ls))
    | _ => Done jp_script
    end;
  st ← scene_loop rep_dict text_lines line_length scene_name lb
         (len jp_boxes)
         (mkScene [] [] None 0 script false jp_full_boxes translations)
         (enumerate jp_boxes);
  st ← (if last_pass st
        then flush rep_dict text_lines line_length scene_name lb false st
        else Done st);
  Done (final_en_script st).

End ReinsertTranslations.

(** * Properties *)

(** ** Python primitives *)
Section py_facts.
Context {A : Type}.
Implicit Types (l : list A) (i : Z).

Lemma len_nonneg l : 0 ≤ len l.
Proof. unfold len. lia. Qed.

Lemma len_app l1 l2 : len (l1 ++ l2) = len l1 + len l2.
Proof. unfold len. rewrite length_app. lia. Qed.

Lemma getitem_nonneg l i :
  0 ≤ i → getitem l i = match l !! Z.to_nat i with
                         | Some x => Ok x
                         | None => Raise IndexError
                         end.
Proof.
  intros Hi. unfold getitem.
  destruct (Z.ltb_spec i 0); [lia|]. simpl.
  destruct (Z.ltb_spec i 0); [lia|]. simpl.
  destruct (Z.leb_spec (len l) i) as [Hge|Hlt]; [|done].
  rewrite lookup_ge_None_2; [done|]. unfold len in Hge. lia.
Qed.

Lemma getitem_Ok_nonneg l i x :
  0 ≤ i → getitem l i = Ok x ↔ l !! Z.to_nat i = Some x.
Proof.
  intros Hi. rewrite getitem_nonneg by done.
  destruct (l !! Z.to_nat i); split; congruence.
Qed.

Lemma getitem_past_end l i : len l ≤ i → getitem l i = Raise IndexError.
Proof.
  intros Hi. pose proof (len_nonneg l).
  rewrite getitem_nonneg by lia.
  rewrite lookup_ge_None_2; [done|]. unfold len in Hi. lia.
Qed.

Lemma getitem_last l : getitem l (-1) = match last l with
                                        | Some x => Ok x
                                        | None => Raise IndexError
                                        end.
Proof.
  unfold getitem. simpl.
  destruct l as [|a l' _] using rev_ind; [done|].
  rewrite last_snoc. unfold len. rewrite length_app. simpl.
  destruct (Z.ltb_spec (Z.of_nat (length l' + 1) + -1) 0); [lia|].
  destruct (Z.leb_spec (Z.of_nat (length l' + 1))
              (Z.of_nat (length l' + 1) + -1)); [lia|].
  simpl.
  replace (Z.to_nat (Z.of_nat (length l' + 1) + -1)) with (length l' + 0)%nat
    by lia.
  by rewrite lookup_app_r, Nat.add_comm, Nat.add_sub by lia.
Qed.

Lemma slice_to_nonneg l i : 0 ≤ i → slice_to l i = take (Z.to_nat i) l.
Proof.
  intros Hi. unfold slice_to, slice_bound.
  destruct (Z.ltb_spec i 0); [lia|].
  destruct (Z.le_ge_cases i (len l)).
  - by rewrite Z.min_l.
  - rewrite Z.min_r by done. unfold len in *.
    rewrite !take_ge; [done| |]; lia.
Qed.

Lemma slice_from_nonneg l i : 0 ≤ i → slice_from l i = drop (Z.to_nat i) l.
Proof.
  intros Hi. unfold slice_from, slice_bound.
  destruct (Z.ltb_spec i 0); [lia|].
  destruct (Z.le_ge_cases i (len l)).
  - by rewrite Z.min_l.
  - rewrite Z.min_r by done. unfold len in *.
    rewrite !drop_ge; [done| |]; lia.
Qed.

Lemma slice_nonneg l i j :
  0 ≤ i → 0 ≤ j → slice l i j = drop (Z.to_nat i) (take (Z.to_nat j) l).
Proof.
  intros Hi Hj. unfold slice.
  change (take (slice_bound l j) l) with (slice_to l j).
  rewrite slice_to_nonneg by done.
  unfold slice_bound. destruct (Z.ltb_spec i 0); [lia|].
  destruct (Z.le_ge_cases i (len l)).
  - by rewrite Z.min_l.
  - rewrite Z.min_r by done. unfold len in *.
    rewrite !drop_ge; [done| |]; rewrite length_take; lia.
Qed.

Lemma slice_to_minus_one l x : slice_to (l ++ [x]) (-1) = l.
Proof.
  unfold slice_to, slice_bound. simpl. unfold len. rewrite length_app. simpl.
  replace (Z.to_nat (Z.max 0 (Z.of_nat (length l + 1) + -1))) with (length l)
    by lia.
  by rewrite take_app_length.
Qed.

End py_facts.

(** ** The text layout engine *)
Section text_box_utils.
Import TextBoxUtils.

Lemma pop_each_spec (need : nat) (last_c : list pystr) :
  (need ≤ length last_c)%nat →
  ∃ new rest, pop_each need last_c = Ok (new, rest)
    ∧ length new = need
    ∧ Forall (λ c, c ≠ []) new
    ∧ length rest = (length last_c - need)%nat.
Proof.
  revert last_c. induction need as [|n IH]; intros last_c Hn; simpl.
  - exists [], last_c. repeat split; [constructor | lia].
  - destruct last_c as [|x l' _] using rev_ind; [simpl in Hn; lia|].
    rewrite last_snoc. rewrite length_app in *. simpl in *.
    replace (pred (length l' + 1)) with (length l') by lia.
    rewrite take_app_length.
    destruct (IH l') as (new & rest & -> & Hlen & Hne & Hrest); [lia|].
    simpl. exists ([x] :: new), rest. repeat split; simpl.
    + lia.
    + by constructor.
    + lia.
Qed.

Lemma rechunk_length flat div rem n i idx :
  length (rechunk flat div rem n i idx) = n.
Proof. revert i idx. induction n; intros; simpl; [done|]. by rewrite IHn. Qed.

Lemma pad_empty_nonempty nc : pad_empty nc ≠ [].
Proof. by destruct nc. Qed.

Lemma extend_last_all_spec (extras en_containers : list (list pystr)) :
  en_containers ≠ [] →
  ∃ r, extend_last_all en_containers extras = Ok r
    ∧ length r = length en_containers
    ∧ (Forall (λ c, c ≠ []) en_containers → Forall (λ c, c ≠ []) r).
Proof.
  revert en_containers.
  induction extras as [|c extras IH]; intros cs Hcs; simpl.
  - by exists cs.
  - unfold extend_last.
    destruct (last cs) as [l|] eqn:Hl; [|by apply last_None in Hl].
    simpl.
    destruct (IH (<[pred (length cs) := l ++ c]> cs)) as (r & -> & Hlen & Hne).
    { intros Heq. apply (f_equal length) in Heq.
      rewrite length_insert in Heq. by destruct cs. }
    exists r. rewrite length_insert in Hlen. repeat split; [done|].
    intros Hall. apply Hne. apply Forall_insert; [done|].
    apply last_Some in Hl as [l' ->].
    rewrite Forall_app, Forall_singleton in Hall. destruct Hall as [_ Hall].
    destruct l; [congruence | discriminate].
Qed.

(** *** Splitting and joining *)

Lemma split_on_nonempty c s : split_on c s ≠ [].
Proof.
  destruct s as [|x r]; simpl; [discriminate|].
  destruct (x =? c)%N; [discriminate|]. destruct (split_on c r); discriminate.
Qed.

Lemma split_on_no_sep c s : c ∉ s → split_on c s = [s].
Proof.
  induction s as [|x r IH]; intros Hc; simpl; [done|].
  apply not_elem_of_cons in Hc as [Hx Hr].
  destruct (N.eqb_spec x c); [congruence|]. by rewrite IH.
Qed.

Lemma split_on_app_sep c l r :
  c ∉ l → split_on c (l ++ c :: r) = l :: split_on c r.
Proof.
  induction l as [|x l IH]; intros Hc; simpl.
  - by rewrite N.eqb_refl.
  - apply not_elem_of_cons in Hc as [Hx Hl].
    destruct (N.eqb_spec x c); [congruence|]. by rewrite IH.
Qed.

Lemma split_on_join c lines :
  lines ≠ [] → Forall (λ l, c ∉ l) lines →
  split_on c (join [c] lines) = lines.
Proof.
  induction lines as [|l [|l' lines] IH]; intros Hne Hall; [done| |].
  - simpl. apply split_on_no_sep. by rewrite Forall_singleton in Hall.
  - apply Forall_cons_1 in Hall as [Hl Hall].
    change (join [c] (l :: l' :: lines)) with (l ++ c :: join [c] (l' :: lines)).
    rewrite split_on_app_sep by done. by rewrite IH.
Qed.

Lemma split_on_app_sep_any c a b :
  split_on c (a ++ c :: b) = split_on c a ++ split_on c b.
Proof.
  induction a as [|x a IH]; cbn [app split_on].
  - by rewrite N.eqb_refl.
  - rewrite IH. destruct (x =? c)%N; [done|].
    destruct (split_on c a) as [|w ws] eqn:Hs; [|done].
    by apply split_on_nonempty in Hs.
Qed.

Lemma split_on_pieces c s : Forall (λ w, c ∉ w) (split_on c s).
Proof.
  induction s as [|x r IH]; cbn [split_on].
  - apply Forall_singleton, not_elem_of_nil.
  - destruct (N.eqb_spec x c) as [->|Hne].
    + apply Forall_cons. split; [apply not_elem_of_nil | done].
    + destruct (split_on c r) as [|w ws].
      * apply Forall_singleton, not_elem_of_cons. split; [done|].
        apply not_elem_of_nil.
      * apply Forall_cons_1 in IH as [Hw Hws]. apply Forall_cons.
        split; [|done]. apply not_elem_of_cons. by split.
Qed.

Lemma join_split_on c s : join [c] (split_on c s) = s.
Proof.
  induction s as [|x r IH]; [done|]. cbn [split_on].
  pose proof (split_on_nonempty c r) as Hne.
  destruct (N.eqb_spec x c) as [->|Hx].
  - destruct (split_on c r) as [|w ws]; [done|].
    change (join [c] ([] :: w :: ws)) with ([] ++ [c] ++ join [c] (w :: ws)).
    by rewrite IH.
  - destruct (split_on c r) as [|w [|w' ws]]; [done| |].
    + cbn [join] in *. by rewrite IH.
    + change (join [c] ((x :: w) :: w' :: ws))
        with (x :: (w ++ [c] ++ join [c] (w' :: ws))).
      by rewrite <- IH.
Qed.

Lemma join_snoc sep (l : list pystr) x :
  l ≠ [] → join sep (l ++ [x]) = join sep l ++ sep ++ x.
Proof.
  induction l as [|a [|b l] IH]; intros Hne; [done|done|].
  change (join sep ((a :: b :: l) ++ [x]))
    with (a ++ sep ++ join sep ((b :: l) ++ [x])).
  rewrite IH by done.
  change (join sep (a :: b :: l)) with (a ++ sep ++ join sep (b :: l)).
  by rewrite <- !app_assoc.
Qed.

Lemma split_on_avoids c d s :
  d ∉ s → Forall (λ w, d ∉ w) (split_on c s).
Proof.
  induction s as [|x r IH]; intros Hd; simpl.
  - apply Forall_singleton. apply not_elem_of_nil.
  - apply not_elem_of_cons in Hd as [Hx Hr]. specialize (IH Hr).
    destruct (x =? c)%N.
    + apply Forall_cons. split; [apply not_elem_of_nil | done].
    + destruct (split_on c r) as [|w ws].
      * apply Forall_singleton. apply not_elem_of_cons. split; [done|].
        apply not_elem_of_nil.
      * apply Forall_cons_1 in IH as [Hw Hws]. apply Forall_cons. split; [|done].
        by apply not_elem_of_cons.
Qed.

Lemma measure_text_width_app s1 s2 :
  measure_text_width (s1 ++ s2) = measure_text_width s1 + measure_text_width s2.
Proof. induction s1 as [|c s1 IH]; simpl; [done|]. rewrite IH. lia. Qed.

Lemma measure_text_width_nonneg s : 0 ≤ measure_text_width s.
Proof.
  induction s as [|ch s IH]; cbn [measure_text_width]; [done|].
  destruct (is_wide_char ch); lia.
Qed.

(** *** The wrapping loop *)

Lemma split_on_narrower c l :
  Forall (λ piece, measure_text_width piece ≤ measure_text_width l)
         (split_on c l).
Proof.
  induction l as [|x r IH]; cbn [split_on].
  - by apply Forall_singleton.
  - pose proof (measure_text_width_nonneg r) as Hr.
    assert (measure_text_width r ≤ measure_text_width (x :: r)) as Hxr.
    { cbn [measure_text_width]. destruct (is_wide_char x); lia. }
    assert (Forall (λ piece, measure_text_width piece
                             ≤ measure_text_width (x :: r)) (split_on c r))
      as IH'.
    { eapply Forall_impl; [exact IH|]. cbn beta. intros piece Hp. lia. }
    destruct (x =? c)%N.
    + apply Forall_cons. split; [|done]. cbn [measure_text_width] in Hxr |- *.
      lia.
    + destruct (split_on c r) as [|w ws] eqn:Hs;
        [by apply split_on_nonempty in Hs|].
      apply Forall_cons_1 in IH as [Hw _]. apply Forall_cons_1 in IH' as [_ Hws].
      apply Forall_cons. split; [|done].
      cbn [measure_text_width]. destruct (is_wide_char x); lia.
Qed.

Section wrap.
Variables (max_lines max_chars_per_line : Z).

(** **** The widths: no hypothesis on [max_lines] or on the input *)

Definition fits (l : pystr) : Prop :=
  measure_text_width l ≤ max_chars_per_line.

Definition lines_fit (sub : pystr) : Prop :=
  Forall fits (split_on NEWLINE sub).

Definition width_inv (st : wrap_state) : Prop :=
  Forall lines_fit st.1 ∧ Forall fits st.2.

(** A line of the loop that fits is cut by its own newlines, if it has any,
    into pieces that fit. *)
Lemma lines_fit_line l : fits l → lines_fit l.
Proof.
  intros Hl. eapply Forall_impl; [apply (split_on_narrower NEWLINE l)|].
  cbn beta. unfold fits in *. intros piece Hp. lia.
Qed.

Lemma lines_fit_join lines :
  lines ≠ [] → Forall fits lines → lines_fit (join [NEWLINE] lines).
Proof.
  induction lines as [|l [|l' lines] IH]; intros Hne Hall; [done| |].
  - apply lines_fit_line. by rewrite Forall_singleton in Hall.
  - apply Forall_cons_1 in Hall as [Hl Hall].
    change (join [NEWLINE] (l :: l' :: lines))
      with (l ++ NEWLINE :: join [NEWLINE] (l' :: lines)).
    unfold lines_fit. rewrite split_on_app_sep_any. apply Forall_app.
    split; [by apply lines_fit_line | by apply IH].
Qed.

Lemma flush_width st : width_inv st → width_inv (_flush st).
Proof.
  destruct st as [boxes lines]. intros [Hb Hl]. unfold width_inv, _flush.
  destruct lines as [|l lines]; [done|]. cbn [fst snd] in *.
  split; [|constructor]. apply Forall_app. split; [done|].
  apply Forall_singleton. by apply lines_fit_join.
Qed.

Lemma wrap_word_width st word :
  width_inv st → fits word →
  width_inv (wrap_word max_lines max_chars_per_line st word).
Proof.
  intros Hinv Hw. pose proof (flush_width st Hinv) as Hflush.
  destruct st as [boxes lines]. destruct Hinv as [Hb Hl].
  unfold wrap_word, width_inv in *. cbn [fst snd] in Hb, Hl.
  destruct (last lines) as [cur|] eqn:Hlast.
  - destruct (Z.leb_spec (measure_text_width (cur ++ [SPACE] ++ word))
                max_chars_per_line) as [Hfits|_]; cbn [fst snd].
    + split; [done|]. by apply Forall_insert.
    + destruct (len lines <? max_lines); cbn [fst snd].
      * split; [done|]. apply Forall_app. split; [done|].
        by apply Forall_singleton.
      * split; [apply Hflush | by apply Forall_singleton].
  - cbn [fst snd]. split; [done | by apply Forall_singleton].
Qed.

Lemma wrap_words_width words st :
  width_inv st → Forall fits words →
  width_inv (fold_left (wrap_word max_lines max_chars_per_line) words st).
Proof.
  revert st. induction words as [|w words IH]; intros st Hinv Hall; [done|].
  apply Forall_cons_1 in Hall as [Hw Hall]. cbn [fold_left].
  apply IH; [by apply wrap_word_width | done].
Qed.

(** **** The number of lines: [max_lines] at least 1, no newline in a word *)

Hypothesis max_lines_pos : 1 ≤ max_lines.

Definition sub_box_ok (sub : pystr) : Prop :=
  len (split_on NEWLINE sub) ≤ max_lines.

Definition line_ok (l : pystr) : Prop := NEWLINE ∉ l.

Definition wrap_inv (st : wrap_state) : Prop :=
  Forall sub_box_ok st.1 ∧ Forall line_ok st.2 ∧ len st.2 ≤ max_lines.

Lemma flush_inv st : wrap_inv st → wrap_inv (_flush st).
Proof.
  destruct st as [boxes lines]. intros (Hb & Hl & Hn). unfold wrap_inv.
  simpl in *. split_and!; [|constructor | unfold len; simpl; lia].
  destruct lines as [|l lines]; [done|].
  apply Forall_app. split; [done|]. apply Forall_singleton.
  unfold sub_box_ok. by rewrite split_on_join.
Qed.

Lemma wrap_word_inv st word :
  wrap_inv st → line_ok word →
  wrap_inv (wrap_word max_lines max_chars_per_line st word).
Proof.
  intros Hinv Hw. pose proof (flush_inv st Hinv) as Hflush.
  destruct st as [boxes lines]. destruct Hinv as (Hb & Hl & Hn).
  unfold wrap_word, wrap_inv in *. simpl in Hb, Hl, Hn.
  destruct (last lines) as [cur|] eqn:Hlast.
  - destruct (measure_text_width (cur ++ [SPACE] ++ word)
              <=? max_chars_per_line); simpl.
    + split; [done|]. split; [|unfold len in *; by rewrite length_insert].
      apply Forall_insert; [done|].
      apply last_Some in Hlast as [l' ->].
      rewrite Forall_app, Forall_singleton in Hl.
      destruct Hl as [_ Hcur]. unfold line_ok in *.
      rewrite !not_elem_of_app, not_elem_of_cons.
      by split_and!.
    + destruct (Z.ltb_spec (len lines) max_lines) as [Hroom|_]; simpl.
      * split; [done|]. split.
        -- apply Forall_app. split; [done|]. by apply Forall_singleton.
        -- rewrite len_app. unfold len at 2. simpl. lia.
      * split; [apply Hflush|]. split; [by apply Forall_singleton|].
        unfold len. simpl. lia.
  - simpl. split; [done|]. split; [by apply Forall_singleton|].
    unfold len. simpl. lia.
Qed.

Lemma wrap_words_inv words st :
  wrap_inv st → Forall line_ok words →
  wrap_inv (fold_left (wrap_word max_lines max_chars_per_line) words st).
Proof.
  revert st. induction words as [|w words IH]; intros st Hinv Hall; [done|].
  apply Forall_cons_1 in Hall as [Hw Hall]. simpl.
  apply IH; [by apply wrap_word_inv | done].
Qed.

End wrap.

(** What the specification says of [correct_en_box] at one input. *)
Definition wrap_claim (en_box : pystr) (max_lines max_chars_per_line : Z)
    : Prop :=
  1 ≤ max_lines → 1 ≤ max_chars_per_line →
  Forall (λ sub,
            len (split_on NEWLINE sub) ≤ max_lines
            ∧ Forall (λ l, measure_text_width l ≤ max_chars_per_line)
                     (split_on NEWLINE sub))
         (correct_en_box en_box max_lines max_chars_per_line).

(** C3, as stated, fails twice over: a word wider than the budget is never
    split, and the line it makes is as wide as the word; and a newline inside
    a word adds a line to its sub-box that the loop does not count. *)
Lemma correct_en_box_long_word :
  ¬ wrap_claim (py "A supercalifragilistic day") 2 10
  ∧ ¬ wrap_claim (py "a" ++ [NEWLINE] ++ py "b") 1 10.
Proof.
  split; intros H; specialize (H ltac:(lia) ltac:(lia)).
  - assert (correct_en_box (py "A supercalifragilistic day") 2 10
            = [py "A" ++ [NEWLINE] ++ py "supercalifragilistic"; py "day"])
      as Hboxes by (by vm_compute).
    rewrite Hboxes in H. apply Forall_cons_1 in H as [[_ H] _].
    assert (split_on NEWLINE (py "A" ++ [NEWLINE] ++ py "supercalifragilistic")
            = [py "A"; py "supercalifragilistic"]) as Hlines by (by vm_compute).
    rewrite Hlines in H.
    apply Forall_cons_1 in H as [_ H]. apply Forall_cons_1 in H as [H _].
    vm_compute in H. by apply H.
  - assert (correct_en_box (py "a" ++ [NEWLINE] ++ py "b") 1 10
            = [py "a" ++ [NEWLINE] ++ py "b"]) as Hboxes by (by vm_compute).
    rewrite Hboxes in H. apply Forall_cons_1 in H as [[H _] _].
    vm_compute in H. by apply H.
Qed.

(** C3, amended. Whatever [max_lines] and the input are: when every word of
    the input (its pieces between spaces) is within [max_chars_per_line], so
    is every line of every sub-box of [correct_en_box]. And for [max_lines]
    at least 1 and an input without a newline, every sub-box has at most
    [max_lines] lines. The width of a line is [measure_text_width]: 2 for a
    wide character, 1 for any other. *)
Theorem correct_en_box_fits (en_box : pystr) (max_lines max_chars_per_line : Z) :
  (Forall (λ w, measure_text_width w ≤ max_chars_per_line)
          (split_on SPACE en_box)
   → Forall (λ sub, Forall (λ l, measure_text_width l ≤ max_chars_per_line)
                           (split_on NEWLINE sub))
            (correct_en_box en_box max_lines max_chars_per_line))
  ∧ (1 ≤ max_lines → NEWLINE ∉ en_box
     → Forall (λ sub, len (split_on NEWLINE sub) ≤ max_lines)
              (correct_en_box en_box max_lines max_chars_per_line)).
Proof.
  unfold correct_en_box. split.
  - intros Hwords.
    assert (width_inv max_chars_per_line
              (_flush (fold_left (wrap_word max_lines max_chars_per_line)
                                 (split_on SPACE en_box) ([], [])))) as [H _].
    { apply flush_width, wrap_words_width; [|done]. by split. }
    exact H.
  - intros Hml Hnl.
    assert (wrap_inv max_lines
              (_flush (fold_left (wrap_word max_lines max_chars_per_line)
                                 (split_on SPACE en_box) ([], [])))) as (H & _).
    { apply flush_inv, wrap_words_inv; [done|done| |].
      - split_and!; [constructor | constructor | unfold len; simpl; lia].
      - by apply split_on_avoids. }
    exact H.
Qed.

Lemma correct_en_box_fits_witness :
  Forall (λ sub, Forall (λ l, measure_text_width l ≤ 10)
                        (split_on NEWLINE sub))
         (correct_en_box (py "Hello my baby, hello my honey.") 2 10)
  ∧ Forall (λ sub, len (split_on NEWLINE sub) ≤ 2)
           (correct_en_box (py "Hello my baby, hello my honey.") 2 10).
Proof.
  destruct (correct_en_box_fits (py "Hello my baby, hello my honey.") 2 10)
    as [Hwidth Hcount].
  split.
  - apply Hwidth.
    assert (split_on SPACE (py "Hello my baby, hello my honey.")
            = [py "Hello"; py "my"; py "baby,"; py "hello"; py "my";
               py "honey."]) as -> by (by vm_compute).
    repeat (apply Forall_cons; split; [by vm_compute|]). constructor.
  - apply Hcount; [lia|]. vm_compute. intros H.
    repeat (inversion H as [|? ? ? H']; clear H; rename H' into H; subst).
Defined.

(** The tests of [text_box_utils.py] itself. *)
Example correct_en_box_simple_wrap :
  correct_en_box (py "Hello my baby, hello my honey.") 2 10
  = [py "Hello my" ++ [NEWLINE] ++ py "baby,";
     py "hello my" ++ [NEWLINE] ++ py "honey."].
Proof. by vm_compute. Qed.

Example correct_en_box_pua :
  correct_en_box ([0xE000%N; SPACE; 0xE000%N] ++ py " A B C D E") 2 6
  = [[0xE000%N; SPACE; 0xE000%N] ++ [NEWLINE] ++ py "A B C"; py "D E"].
Proof. by vm_compute. Qed.

Example reconcile_carves_last :
  reconcile [py "A"; py "B"; py "C"] [[py "x1"; py "x2"; py "x3"; py "x4"]]
  = Ok [[py "x1"; py "x2"]; [py "x3"]; [py "x4"]].
Proof. by vm_compute. Qed.

Example reconcile_pads :
  reconcile [py "A"; py "B"; py "C"] [[py "z1"]]
  = Ok [[py "z1"]; [[]]; [[]]].
Proof. by vm_compute. Qed.

Example reconcile_flattens :
  reconcile [py "A"; py "B"; py "C"; py "D"]
    [[py "z1"; py "z2"];
     [py "z3"; py "z4"; py "z5"; py "z6"; py "z7"; py "z8"]; [py "z9"]]
  = Ok [[py "z1"; py "z2"; py "z3"]; [py "z4"; py "z5"];
        [py "z6"; py "z7"]; [py "z8"; py "z9"]].
Proof. by vm_compute. Qed.

Example reconcile_merges_extras :
  reconcile [py "A"; py "B"]
    [[py "a1"]; [py "b1"]; [py "c1"]; [py "d1"; py "d2"]]
  = Ok [[py "a1"]; [py "b1"; py "c1"; py "d1"; py "d2"]].
Proof. by vm_compute. Qed.

(** What the specification says of [reconcile] at the inputs [jp_boxes] and
    [en_containers]. *)
Definition reconcile_claim (jp_boxes : list pystr)
    (en_containers : list (list pystr)) : Prop :=
  ∃ r, reconcile jp_boxes en_containers = Ok r
    ∧ length r = length jp_boxes
    ∧ Forall (λ c, c ≠ []) r.

(** C2, as stated, fails twice over: with one box and one container that is
    empty, the counts match, [reconcile] returns the containers as they are
    and the container of the result is empty; with one box and no container,
    [reconcile] returns no list at all. *)
Lemma reconcile_empty_container_kept :
  ¬ reconcile_claim [py "A"] [[]] ∧ ¬ reconcile_claim [py "A"] [].
Proof.
  split; intros (r & Hr & _ & Hne); vm_compute in Hr; [|discriminate Hr].
  injection Hr as <-. inversion Hne as [|c cs Hc _]. by apply Hc.
Qed.

(** With boxes and no container at all, or containers and no box at all,
    [reconcile] raises on [en_containers[-1]]. *)
Lemma reconcile_no_container_raises :
  reconcile [py "A"] [] = Raise IndexError
  ∧ reconcile [] [[py "a"]] = Raise IndexError.
Proof. by vm_compute. Qed.

(** C2, amended: when the list of containers is empty only if the list of
    boxes is, [reconcile] returns a list that has one container per box;
    and when no container given is empty (as [correct_en_box] builds them),
    no container of the result is empty. *)
Theorem reconcile_cardinality (jp_boxes : list pystr)
    (en_containers : list (list pystr)) :
  (jp_boxes = [] ↔ en_containers = []) →
  ∃ r, reconcile jp_boxes en_containers = Ok r
    ∧ length r = length jp_boxes
    ∧ (Forall (λ c, c ≠ []) en_containers → Forall (λ c, c ≠ []) r).
Proof.
  intros Hiff. unfold reconcile.
  destruct (Z.ltb_spec (len en_containers) (len jp_boxes)) as [Hlt|Hge].
  - (* fewer containers than boxes *)
    assert (en_containers ≠ []) as Hcs.
    { intros Heq. apply Hiff in Heq. subst. unfold len in Hlt. simpl in Hlt. lia. }
    rewrite getitem_last.
    destruct (last en_containers) as [last_c|] eqn:Hl;
      [|by apply last_None in Hl].
    simpl.
    destruct (Z.ltb_spec (len jp_boxes - len en_containers) (len last_c))
      as [Hpop|Hflat].
    + destruct (pop_each_spec
                  (Z.to_nat (len jp_boxes - len en_containers)) last_c)
        as (new & rest & -> & Hnew & Hne & Hrest).
      { unfold len in *. lia. }
      simpl. eexists. split; [done|]. split.
      * rewrite length_app, length_insert, length_reverse, Hnew.
        unfold len in *. lia.
      * intros Hall. apply Forall_app. split.
        -- apply Forall_insert; [done|]. intros ->. simpl in Hrest.
           unfold len in *. lia.
        -- by apply Forall_reverse.
    + eexists. split; [done|]. split.
      * by rewrite length_map, rechunk_length.
      * intros _. apply Forall_map, Forall_forall. intros c _.
        apply pad_empty_nonempty.
  - destruct (Z.ltb_spec (len jp_boxes) (len en_containers)) as [Hgt|Heq].
    + (* more containers than boxes *)
      pose proof (len_nonneg jp_boxes).
      rewrite slice_to_nonneg, slice_from_nonneg by done.
      unfold len at 1 2. rewrite !Nat2Z.id.
      assert (jp_boxes ≠ []) as Hjp.
      { intros Heq. apply Hiff in Heq. subst. unfold len in Hgt. simpl in Hgt. lia. }
      destruct (extend_last_all_spec (drop (length jp_boxes) en_containers)
                  (take (length jp_boxes) en_containers))
        as (r & -> & Hlen & Hne).
      { intros Heq. apply (f_equal length) in Heq. rewrite length_take in Heq.
        simpl in Heq.
        assert (length jp_boxes ≠ 0)%nat by (by destruct jp_boxes).
        unfold len in *. lia. }
      exists r. split; [done|]. split.
      * rewrite Hlen, length_take. unfold len in Hgt. lia.
      * intros Hall. apply Hne. by apply Forall_take.
    + exists en_containers. split; [done|]. split; [|done].
      unfold len in *. lia.
Qed.

Lemma reconcile_cardinality_witness :
  ∃ r, reconcile [py "A"; py "B"; py "C"]
                 [[py "x1"; py "x2"; py "x3"; py "x4"]] = Ok r
    ∧ length r = 3%nat
    ∧ (Forall (λ c, c ≠ []) [[py "x1"; py "x2"; py "x3"; py "x4"]]
       → Forall (λ c, c ≠ []) r).
Proof.
  apply (reconcile_cardinality [py "A"; py "B"; py "C"]
           [[py "x1"; py "x2"; py "x3"; py "x4"]]).
  split; intros H; discriminate H.
Defined.

End text_box_utils.

(** ** The label scout and the code generator *)
Section code_utils.
Import CodeUtils.

Lemma elem_of_range n i : i ∈ range n ↔ 0 ≤ i < n.
Proof.
  unfold range. rewrite list_elem_of_fmap. split.
  - intros (k & -> & Hk). apply elem_of_seq in Hk. lia.
  - intros Hi. exists (Z.to_nat i). split; [lia|]. apply elem_of_seq. lia.
Qed.

Lemma NoDup_range n : NoDup (range n).
Proof.
  unfold range. apply NoDup_fmap_2; [|apply NoDup_seq].
  intros x y. lia.
Qed.

(** The list [matches] that [find_label_before] builds. *)
Definition matches (code label_template : list pystr) : list Z :=
  filter (λ i, slice code i (i + len label_template) = label_template)
         (range (len code - len label_template + 1)).

(** The template occurs in the script at position [i]. *)
Definition occurs_at (code label_template : list pystr) (i : Z) : Prop :=
  ∃ before after,
    code = before ++ label_template ++ after ∧ len before = i.

Lemma elem_of_matches code t i : i ∈ matches code t ↔ occurs_at code t i.
Proof.
  unfold matches, occurs_at. rewrite list_elem_of_filter, elem_of_range.
  split.
  - intros [Hs [H0 Hi]]. rewrite slice_nonneg in Hs by (pose proof (len_nonneg t); lia).
    exists (take (Z.to_nat i) code), (drop (Z.to_nat (i + len t)) code).
    split; [|unfold len in *; rewrite length_take; lia].
    assert (Z.to_nat i ≤ Z.to_nat (i + len t))%nat as Hle
      by (pose proof (len_nonneg t); lia).
    revert Hs Hle. generalize (Z.to_nat (i + len t)) (Z.to_nat i).
    intros j a Hs Hle. rewrite <- Hs.
    transitivity (take j code ++ drop j code); [by rewrite take_drop|].
    rewrite <- (take_drop a (take j code)) at 1.
    rewrite take_take, (Nat.min_l a j) by lia. by rewrite <- app_assoc.
  - intros (pre & post & -> & <-). pose proof (len_nonneg pre).
    pose proof (len_nonneg t). pose proof (len_nonneg post).
    rewrite !len_app. split; [|lia].
    rewrite slice_nonneg by lia.
    unfold len. rewrite Nat2Z.id, <- Nat2Z.inj_add, Nat2Z.id.
    rewrite app_assoc, take_app_length', drop_app_length; [done|].
    by rewrite length_app.
Qed.

Lemma find_label_before_matches code t :
  find_label_before code t =
    match matches code t with
    | [m] => getitem code (m - 1)
    | _ => Ok []
    end.
Proof.
  unfold find_label_before. fold (matches code t).
  destruct (matches code t) as [|m [|m' ms]]; [done|done|].
  unfold len. cbn [length].
  destruct (Z.eqb_spec (Z.of_nat (S (S (length ms)))) 1); [lia|done].
Qed.

(** No occurrence: the empty string. *)
Lemma find_label_before_absent code t :
  (∀ i, ¬ occurs_at code t i) → find_label_before code t = Ok [].
Proof.
  intros Hno. rewrite find_label_before_matches.
  destruct (matches code t) as [|m ms] eqn:Hm; [done|].
  exfalso. apply (Hno m), elem_of_matches. rewrite Hm. apply list_elem_of_here.
Qed.

(** Two occurrences or more: the empty string. *)
Lemma find_label_before_ambiguous code t i j :
  occurs_at code t i → occurs_at code t j → i ≠ j →
  find_label_before code t = Ok [].
Proof.
  intros Hi Hj Hne. rewrite find_label_before_matches.
  apply elem_of_matches in Hi, Hj.
  destruct (matches code t) as [|m [|m' ms]]; [done| |done].
  apply list_elem_of_singleton in Hi, Hj. congruence.
Qed.

Lemma matches_unique code t i :
  occurs_at code t i → (∀ j, occurs_at code t j → j = i) →
  matches code t = [i].
Proof.
  intros Hi Huniq.
  assert (NoDup (matches code t)) as Hnd by apply NoDup_filter, NoDup_range.
  apply elem_of_matches in Hi.
  assert (∀ j, j ∈ matches code t → j = i) as Hall.
  { intros j Hj. by apply Huniq, elem_of_matches. }
  destruct (matches code t) as [|m [|m' ms]].
  - by apply elem_of_nil in Hi.
  - by rewrite (Hall m) by apply list_elem_of_here.
  - apply NoDup_cons in Hnd as [Hnot _]. exfalso. apply Hnot.
    rewrite (Hall m), (Hall m'); [apply list_elem_of_here| |].
    + apply list_elem_of_further, list_elem_of_here.
    + apply list_elem_of_here.
Qed.

(** One occurrence, not at the head of the script: the line before it. *)
Lemma find_label_before_unique code t before after label :
  code = before ++ [label] ++ t ++ after →
  (∀ j, occurs_at code t j → j = len before + 1) →
  find_label_before code t = Ok label.
Proof.
  intros -> Huniq. rewrite find_label_before_matches.
  rewrite (matches_unique _ t (len before + 1)); [|  |done].
  - pose proof (len_nonneg before).
    rewrite getitem_nonneg by lia.
    replace (Z.to_nat (len before + 1 - 1)) with (length before)
      by (unfold len; lia).
    by rewrite lookup_app_r, Nat.sub_diag.
  - exists (before ++ [label]), after. split.
    + by rewrite <- app_assoc.
    + rewrite len_app. unfold len. simpl. lia.
Qed.

(** One occurrence, at the head of the script: [code[-1]], the last line. *)
Lemma find_label_before_at_head code t :
  occurs_at code t 0 → (∀ j, occurs_at code t j → j = 0) →
  find_label_before code t = getitem code (-1).
Proof.
  intros H0 Huniq. rewrite find_label_before_matches.
  by rewrite (matches_unique _ t 0).
Qed.

(** C4: the template of the character label, alone on the first line of a
    script of two lines, occurs exactly once and no line precedes it;
    [find_label_before] returns the last line of the script, the line after
    the occurrence, where the claim has the line before the occurrence and
    where nothing but the empty string is left to return. *)
Theorem find_label_before_first_line :
  find_label_before
    [py "add (local-int 0) 2 (global-int 6625)"; py "mov (local-int 0) 1"]
    new_char_text_box_label_template
  = Ok (py "mov (local-int 0) 1").
Proof. by vm_compute. Qed.

(** *** The concat-continuation variant *)

(** [l.replace(shitter, safe_shitter)] *)
Definition sanitized (l : pystr) : pystr := replace shitter safe_shitter l.

Lemma sanitized_map l :
  sanitized l = map (λ c, if (QUOTE =? c)%N then APOSTROPHE else c) l.
Proof.
  unfold sanitized, replace, shitter, safe_shitter.
  induction l as [|c l IH]; [done|].
  cbn [map]. rewrite <- IH. cbn [replace_from startswith].
  by destruct (QUOTE =? c)%N, l.
Qed.

Lemma sanitized_no_quote l : QUOTE ∉ sanitized l.
Proof.
  rewrite sanitized_map. induction l as [|c l IH]; cbn [map].
  - apply not_elem_of_nil.
  - apply not_elem_of_cons. split; [|done].
    destruct (N.eqb_spec QUOTE c); [discriminate | done].
Qed.

Lemma sanitized_id l : QUOTE ∉ l → sanitized l = l.
Proof.
  rewrite sanitized_map. induction l as [|c l IH]; intros Hq; cbn [map]; [done|].
  apply not_elem_of_cons in Hq as [Hc Hl].
  destruct (N.eqb_spec QUOTE c); [done|]. by rewrite IH.
Qed.

(** The three instructions the inner loop emits for the line [l]. *)
Definition concat_line_code (l : pystr) : list pystr :=
  [show_text l; concat_bbb (sanitized l); py "end-text-line 0"].

Lemma concat_lines_fold lines fc :
  fold_left (λ fc l, fc ++ [show_text l;
                            concat_bbb (replace shitter safe_shitter l);
                            py "end-text-line 0"]) lines fc
  = fc ++ flat_map concat_line_code lines.
Proof.
  revert fc. induction lines as [|l lines IH]; intros fc; simpl.
  - by rewrite app_nil_r.
  - rewrite IH. by rewrite <- app_assoc.
Qed.

Lemma concat_lines_last lines :
  lines ≠ [] →
  ∃ body, flat_map concat_line_code lines = body ++ [py "end-text-line 0"].
Proof.
  intros Hne. destruct lines as [|l lines _] using rev_ind; [done|].
  exists (flat_map concat_line_code lines
          ++ [show_text l; concat_bbb (sanitized l)]).
  rewrite flat_map_app. cbn [flat_map]. unfold concat_line_code.
  by rewrite <- app_assoc.
Qed.

Lemma concat_lines_adjacent lines l :
  l ∈ lines →
  ∃ k, flat_map concat_line_code lines !! k = Some (show_text l)
     ∧ flat_map concat_line_code lines !! S k = Some (concat_bbb (sanitized l))
     ∧ flat_map concat_line_code lines !! S (S k) = Some (py "end-text-line 0").
Proof.
  induction lines as [|l' lines IH]; intros Hl; [by apply elem_of_nil in Hl|].
  apply elem_of_cons in Hl as [->|Hl].
  - by exists 0%nat.
  - destruct (IH Hl) as (k & H1 & H2 & H3). by exists (S (S (S k))).
Qed.

(** What one iteration appends to [final_code]: a blank line, the code of
    the lines but for its last [end-text-line 0], and one more line. *)
Lemma concat_step_shape n fc b box :
  ∃ body x,
    flat_map concat_line_code (split_on NEWLINE box)
      = body ++ [py "end-text-line 0"]
    ∧ concat_step n fc (b, box) = fc ++ [[]] ++ body ++ [x].
Proof.
  destruct (concat_lines_last (split_on NEWLINE box)) as [body Hbody];
    [apply split_on_nonempty|].
  exists body. unfold concat_step. rewrite concat_lines_fold, Hbody.
  replace ((fc ++ [[]]) ++ body ++ [py "end-text-line 0"])
    with ((fc ++ [[]] ++ body) ++ [py "end-text-line 0"])
    by (by rewrite <- !app_assoc).
  destruct (negb (b =? n - 1)); rewrite !slice_to_minus_one.
  - exists (py "end-text-line 0"). split; [done|]. by rewrite <- !app_assoc.
  - exists []. split; [done|]. by rewrite <- !app_assoc.
Qed.

Lemma concat_step_extends n fc item : fc `prefix_of` concat_step n fc item.
Proof.
  destruct item as [b box].
  destruct (concat_step_shape n fc b box) as (body & x & _ & ->).
  by apply prefix_app_r.
Qed.

Lemma concat_fold_extends n items fc :
  fc `prefix_of` fold_left (concat_step n) items fc.
Proof.
  revert fc. induction items as [|item items IH]; intros fc; simpl; [done|].
  etrans; [apply concat_step_extends | apply IH].
Qed.

Lemma concat_step_emits n fc b box l :
  l ∈ split_on NEWLINE box →
  ∃ k, concat_step n fc (b, box) !! k = Some (show_text l)
     ∧ concat_step n fc (b, box) !! S k = Some (concat_bbb (sanitized l)).
Proof.
  intros Hl. destruct (concat_step_shape n fc b box) as (body & x & Hbody & ->).
  destruct (concat_lines_adjacent _ l Hl) as (k & H1 & H2 & H3).
  rewrite Hbody in H1, H2, H3.
  assert (S (S k) < length (body ++ [py "end-text-line 0"]))%nat as Hlt
    by (by apply lookup_lt_Some in H3).
  rewrite length_app in Hlt. simpl in Hlt.
  rewrite lookup_app_l in H1, H2 by lia.
  exists (length fc + S k)%nat. split.
  - rewrite lookup_app_r by lia.
    replace (length fc + S k - length fc)%nat with (S k) by lia.
    simpl. by rewrite lookup_app_l by lia.
  - rewrite lookup_app_r by lia.
    replace (S (length fc + S k) - length fc)%nat with (S (S k)) by lia.
    simpl. by rewrite lookup_app_l by lia.
Qed.

Lemma concat_fold_emits n items fc b box l :
  (b, box) ∈ items → l ∈ split_on NEWLINE box →
  ∃ k, fold_left (concat_step n) items fc !! k = Some (show_text l)
     ∧ fold_left (concat_step n) items fc !! S k
         = Some (concat_bbb (sanitized l)).
Proof.
  revert fc. induction items as [|item items IH]; intros fc Hin Hl;
    [by apply elem_of_nil in Hin|].
  apply elem_of_cons in Hin as [<-|Hin]; simpl; [|by apply IH].
  destruct (concat_step_emits n fc b box l Hl) as (k & H1 & H2).
  exists k.
  split; (eapply prefix_lookup_Some; [|apply concat_fold_extends]); done.
Qed.

Lemma elem_of_enumerate {A} (l : list A) x :
  x ∈ l → ∃ b, (b, x) ∈ enumerate l.
Proof.
  intros Hx. apply list_elem_of_lookup in Hx as [i Hi].
  exists (Z.of_nat i). apply list_elem_of_lookup. exists i.
  unfold enumerate. apply lookup_zip_with_Some. exists (Z.of_nat i), x.
  split; [done|]. split; [|done].
  unfold range. rewrite list_lookup_fmap, lookup_seq_lt; [done|].
  apply lookup_lt_Some in Hi. unfold len. lia.
Qed.

(** What the specification says of [create_text_box_code_concat] at one
    input: for every line, the show-text instruction and the concat
    instruction with the sanitized line are both emitted. *)
Definition concat_claim (en_box : list pystr) : Prop :=
  ∀ box l, box ∈ en_box → l ∈ split_on NEWLINE box →
    show_text (sanitized l) ∈ create_text_box_code_concat en_box
    ∧ concat_bbb (sanitized l) ∈ create_text_box_code_concat en_box.

(** C5, as stated, fails: for a line with double quotes, no show-text
    instruction with the sanitized line is emitted. *)
Lemma concat_show_text_keeps_quotes :
  ¬ concat_claim [py "Say " ++ [QUOTE] ++ py "hi" ++ [QUOTE]].
Proof.
  intros H.
  destruct (H (py "Say " ++ [QUOTE] ++ py "hi" ++ [QUOTE])
              (py "Say " ++ [QUOTE] ++ py "hi" ++ [QUOTE])) as [Hshow _].
  - apply list_elem_of_here.
  - vm_compute. apply list_elem_of_here.
  - vm_compute in Hshow.
    repeat (apply elem_of_cons in Hshow as [Hshow|Hshow]; [discriminate Hshow|]).
    by apply elem_of_nil in Hshow.
Qed.

(** C5, amended: for every line of every sub-box,
    [create_text_box_code_concat] emits a show-text instruction that carries
    the line as it is, and right after it a concat instruction that carries
    the line with every double quote replaced by the substitute; the
    sanitized text has no double quote, and it is the line itself when the
    line has none. *)
Theorem concat_code_lines (en_box : list pystr) (box l : pystr) :
  box ∈ en_box → l ∈ split_on NEWLINE box →
  (∃ k, create_text_box_code_concat en_box !! k = Some (show_text l)
      ∧ create_text_box_code_concat en_box !! S k
          = Some (concat_bbb (replace shitter safe_shitter l)))
  ∧ (QUOTE ∉ replace shitter safe_shitter l)
  ∧ (QUOTE ∉ l → replace shitter safe_shitter l = l).
Proof.
  intros Hbox Hl. split; [|split].
  - destruct (elem_of_enumerate en_box box Hbox) as [b Hb].
    by apply (concat_fold_emits _ _ _ b box).
  - apply sanitized_no_quote.
  - apply sanitized_id.
Qed.

Lemma concat_code_lines_witness :
  (∃ k, create_text_box_code_concat [py "Hello" ++ [NEWLINE] ++ py "there"] !! k
          = Some (show_text (py "there"))
      ∧ create_text_box_code_concat [py "Hello" ++ [NEWLINE] ++ py "there"] !! S k
          = Some (concat_bbb (replace shitter safe_shitter (py "there"))))
  ∧ (QUOTE ∉ replace shitter safe_shitter (py "there"))
  ∧ (QUOTE ∉ py "there" → replace shitter safe_shitter (py "there") = py "there").
Proof.
  apply (concat_code_lines [py "Hello" ++ [NEWLINE] ++ py "there"]
           (py "Hello" ++ [NEWLINE] ++ py "there") (py "there")).
  - apply list_elem_of_here.
  - vm_compute. apply list_elem_of_further, list_elem_of_here.
Defined.

End code_utils.

(** ** The chunk collapser *)
Section refine.
Import Refine.

(** The speaker of a run of boxes: the speaker of its first box. *)
Definition run_speaker (g : list box) : pystr :=
  default [] (box_speaker <$> head g).

(** A run: one box or more, all of one speaker. *)
Definition is_run (g : list box) : Prop :=
  g ≠ [] ∧ ∀ b, b ∈ g → box_speaker b = run_speaker g.

(** Two runs that follow each other have different speakers. *)
Fixpoint runs_maximal (groups : list (list box)) : Prop :=
  match groups with
  | g :: ((g' :: _) as rest) =>
      run_speaker g ≠ run_speaker g' ∧ runs_maximal rest
  | _ => True
  end.

(** The chunk of a run: its speaker, its texts joined by newlines, and the
    given id. *)
Definition chunk_of (g : list box) (i : Z) : chunk :=
  mkChunk (run_speaker g) (join [NEWLINE] (map box_text g)) i.

Fixpoint chunks_from (i : Z) (groups : list (list box)) : list chunk :=
  match groups with
  | [] => []
  | g :: rest => chunk_of g i :: chunks_from (i + 1) rest
  end.

Lemma collapse_loop rest :
  ∀ chunks cur i,
    is_run cur →
    ∃ groups g0,
      concat (g0 :: groups) = cur ++ rest
      ∧ Forall is_run (g0 :: groups)
      ∧ runs_maximal (g0 :: groups)
      ∧ run_speaker g0 = run_speaker cur
      ∧ (let '(chunks', cur_speaker, cur_lines, i') :=
           fold_left collapse_step rest
             (chunks, run_speaker cur, map box_text cur, i) in
         chunks' ++ [mkChunk cur_speaker (join [NEWLINE] cur_lines) i'])
        = chunks ++ chunks_from i (g0 :: groups).
Proof.
  induction rest as [|b rest IH]; intros chunks cur i Hrun.
  - exists [], cur. simpl. rewrite !app_nil_r.
    split_and!; [done | by apply Forall_singleton | done | done | done].
  - simpl. destruct (bool_decide_reflect (box_speaker b = run_speaker cur))
      as [Hsame|Hdiff].
    + assert (run_speaker (cur ++ [b]) = run_speaker cur) as Hsp.
      { destruct Hrun as [Hne _]. by destruct cur. }
      assert (is_run (cur ++ [b])) as Hrun'.
      { destruct Hrun as [Hne Hall]. split; [by destruct cur|].
        intros b' Hb'. rewrite Hsp. apply elem_of_app in Hb' as [Hb'|Hb'].
        - by apply Hall.
        - apply list_elem_of_singleton in Hb'. by subst. }
      destruct (IH chunks (cur ++ [b]) i Hrun')
        as (groups & g0 & Hcat & Hruns & Hmax & Hg0 & Heq).
      exists groups, g0. rewrite Hsp, map_app in Heq. simpl in Heq.
      split_and!; [|done|done|congruence|done].
      rewrite <- app_assoc in Hcat. exact Hcat.
    + assert (is_run [b]) as Hrun'.
      { split; [done|]. intros b' Hb'.
        apply list_elem_of_singleton in Hb'. by subst. }
      destruct (IH (chunks ++ [chunk_of cur i]) [b] (i + 1) Hrun')
        as (groups & g0 & Hcat & Hruns & Hmax & Hg0 & Heq).
      exists (g0 :: groups), cur. split_and!.
      * change (concat (cur :: g0 :: groups))
          with (cur ++ concat (g0 :: groups)).
        by rewrite Hcat.
      * by apply Forall_cons.
      * rewrite Hg0. change (run_speaker [b]) with (box_speaker b).
        congruence.
      * done.
      * done.
      * etrans; [exact Heq|]. by rewrite <- app_assoc.
Qed.

(** C8: the boxes fall into the maximal runs of consecutive boxes of one
    speaker, the chunks of [_collapse_boxes] are those runs in order, and the
    text of every chunk is the texts of the boxes of its run joined by
    newlines (its speaker is the speaker of the run, and the ids count from
    1). *)
Theorem collapse_boxes_round_trip (boxes : list box) :
  ∃ groups : list (list box),
    concat groups = boxes
    ∧ Forall is_run groups
    ∧ runs_maximal groups
    ∧ _collapse_boxes boxes = chunks_from 1 groups
    ∧ Forall2 (λ c g, chunk_text c = join [NEWLINE] (map box_text g))
              (_collapse_boxes boxes) groups.
Proof.
  assert (∀ i groups,
            Forall2 (λ c g, chunk_text c = join [NEWLINE] (map box_text g))
                    (chunks_from i groups) groups) as Htexts.
  { intros i groups. revert i.
    induction groups as [|g groups IH]; intros i; simpl; by constructor. }
  destruct boxes as [|b0 rest].
  - exists []. split_and!; [done | constructor | done | done | constructor].
  - assert (is_run [b0]) as Hrun.
    { split; [done|]. intros b' Hb'.
      apply list_elem_of_singleton in Hb'. by subst. }
    destruct (collapse_loop rest [] [b0] 1 Hrun)
      as (groups & g0 & Hcat & Hruns & Hmax & _ & Heq).
    exists (g0 :: groups).
    assert (_collapse_boxes (b0 :: rest) = chunks_from 1 (g0 :: groups))
      as Hchunks.
    { unfold _collapse_boxes. simpl in Heq.
      change (run_speaker [b0]) with (box_speaker b0) in Heq.
      destruct (fold_left collapse_step rest
                  ([], box_speaker b0, [box_text b0], 1))
        as [[[chunks' cs] cl] i']. exact Heq. }
    split_and!; [done | done | done | done |].
    rewrite Hchunks. apply Htexts.
Qed.

End refine.

(** ** The script splicer *)
Section reinsert.
Import ManualReplacements Reinsert.

(** *** The end of a box *)

(** The [while True] loop of the splicer as a function of [lookat] alone. *)
Definition text_box_end_loop (script : list pystr) (lookat : Z) : res Z :=
  text_box_end_from script (Z.to_nat (len script - lookat)) lookat.

Lemma getitem_Ok_lt {A} (l : list A) i x : getitem l i = Ok x → i < len l.
Proof.
  unfold getitem. destruct (Z.ltb_spec i 0) as [Hneg|Hpos].
  - intros _. pose proof (len_nonneg l). lia.
  - destruct (Z.ltb_spec i 0); [lia|].
    destruct (Z.leb_spec (len l) i); [done|]. intros _. lia.
Qed.

(** The counter of [text_box_end_from] never runs out before the script. *)
Lemma text_box_end_from_enough script n m lookat :
  (Z.to_nat (len script - lookat) ≤ n)%nat → (n ≤ m)%nat →
  text_box_end_from script m lookat = text_box_end_from script n lookat.
Proof.
  revert m lookat. induction n as [|n IH]; intros m lookat Hn Hm.
  - destruct m as [|m]; [done|]. simpl.
    destruct (getitem script lookat) as [ln|e] eqn:Hg; [|done].
    apply getitem_Ok_lt in Hg. lia.
  - destruct m as [|m]; [lia|]. simpl.
    destruct (getitem script lookat) as [ln|e] eqn:Hg; [|done]. simpl.
    destruct (is_text_cmd ln); [|done]. apply IH; lia.
Qed.

(** The equation of the loop: read the line at [lookat]; go on with
    [lookat + 1] when it is a text command, stop at [lookat] otherwise. *)
Lemma text_box_end_loop_unfold script lookat :
  text_box_end_loop script lookat =
    ln ← getitem script lookat;
    if is_text_cmd ln then text_box_end_loop script (lookat + 1)
    else Ok lookat.
Proof.
  unfold text_box_end_loop.
  destruct (getitem script lookat) as [ln|e] eqn:Hg.
  - pose proof (getitem_Ok_lt _ _ _ Hg) as Hlt.
    destruct (Z.to_nat (len script - lookat)) as [|n] eqn:Hn; [lia|].
    simpl. rewrite Hg. simpl. destruct (is_text_cmd ln); [|done].
    apply text_box_end_from_enough; lia.
  - destruct (Z.to_nat (len script - lookat)); simpl; by rewrite Hg.
Qed.

Lemma find_text_box_end_loop script text_box_start :
  find_text_box_end script text_box_start
  = text_box_end_loop script (text_box_start + 1).
Proof. done. Qed.

(** The loop stops at the first line from [lookat] on that is no text
    command. *)
Lemma text_box_end_loop_first (k : nat) script lookat :
  0 ≤ lookat →
  (∀ i ln, lookat ≤ i < lookat + Z.of_nat k → getitem script i = Ok ln →
           is_text_cmd ln = true) →
  (∃ ln, getitem script (lookat + Z.of_nat k) = Ok ln ∧ is_text_cmd ln = false) →
  text_box_end_loop script lookat = Ok (lookat + Z.of_nat k).
Proof.
  revert lookat. induction k as [|k IH]; intros lookat H0 Hbody Hend.
  - destruct Hend as (ln & Hg & Hln). rewrite Z.add_0_r in *.
    rewrite text_box_end_loop_unfold, Hg. simpl. by rewrite Hln.
  - rewrite text_box_end_loop_unfold.
    destruct (getitem script lookat) as [ln|e] eqn:Hg.
    + simpl. rewrite (Hbody lookat ln) by (done || lia).
      rewrite IH; [f_equal; lia | lia | |].
      * intros i ln' Hi. apply Hbody. lia.
      * by replace (lookat + 1 + Z.of_nat k) with (lookat + Z.of_nat (S k)) by lia.
    + destruct Hend as (ln & Hend & _). apply getitem_Ok_lt in Hend.
      rewrite getitem_nonneg in Hg by done.
      destruct (script !! Z.to_nat lookat) eqn:Hl; [done|].
      apply lookup_ge_None in Hl. unfold len in Hend. lia.
Qed.

(** Some line from [lookat] on is no text command: there is a first one. *)
Lemma first_non_text_cmd (k : nat) script lookat :
  0 ≤ lookat →
  (∃ ln, getitem script (lookat + Z.of_nat k) = Ok ln ∧ is_text_cmd ln = false) →
  ∃ k' : nat, (k' ≤ k)%nat
    ∧ (∀ i ln, lookat ≤ i < lookat + Z.of_nat k' → getitem script i = Ok ln →
               is_text_cmd ln = true)
    ∧ (∃ ln, getitem script (lookat + Z.of_nat k') = Ok ln ∧ is_text_cmd ln = false).
Proof.
  revert lookat. induction k as [|k IH]; intros lookat H0 Hend.
  - exists 0%nat. split; [done|]. split; [|done]. intros i ln Hi. lia.
  - destruct (getitem script lookat) as [ln|e] eqn:Hg.
    + destruct (is_text_cmd ln) eqn:Hln.
      * destruct (IH (lookat + 1)) as (k' & Hk' & Hbody & Hstop); [lia| |].
        { by replace (lookat + 1 + Z.of_nat k) with (lookat + Z.of_nat (S k)) by lia. }
        exists (S k'). split; [lia|]. split.
        -- intros i ln' Hi Hgi.
           destruct (decide (i = lookat)) as [->|Hne]; [congruence|].
           apply (Hbody i); [lia | done].
        -- by replace (lookat + Z.of_nat (S k')) with (lookat + 1 + Z.of_nat k') by lia.
      * exists 0%nat. split; [lia|]. split; [intros i ? Hi; lia|].
        exists ln. by rewrite Z.add_0_r.
    + destruct Hend as (ln & Hend & _). apply getitem_Ok_lt in Hend.
      rewrite getitem_nonneg in Hg by done.
      destruct (script !! Z.to_nat lookat) eqn:Hl; [done|].
      apply lookup_ge_None in Hl. unfold len in Hend. lia.
Qed.

(** The second loop threads the cursor and the script through [splice_box],
    one box after the other. *)
Lemma splice_boxes_cons code_map p script i jp_dict todo :
  splice_boxes code_map p script ((i, jp_dict) :: todo)
  = '(p', script') ← splice_box code_map p script i (offset jp_dict);
    splice_boxes code_map p' script' todo.
Proof. done. Qed.

(** C1, as stated, fails in two ways, for nothing in the loop checks a sign.
    With a negative offset the box start [p + d] is before the cursor [p]:
    here the cursor is 3 and the offset -3, line 3 after the start is no
    text command, and the box is spliced at line 0. And with a negative
    start the lines are counted from the end of the script: here the cursor
    is -2 and the offset 0, and the line at the start -2 is not the same
    after the splice. *)
Lemma splice_box_negative_offset :
  let script := [py "u00416120"; py "show-text 0 x"; py "end-text-line 0";
                 py "mov 1"] in
  let code_map : gmap Z (list pystr) := {[ 0 := [py "show-text 0 y"] ]} in
  ((∃ j ln, 3 + -3 < j ∧ getitem script j = Ok ln ∧ is_text_cmd ln = false)
   ∧ splice_box code_map 3 script 0 (-3)
     = Ok (1, [py "u00416120"; py "show-text 0 y"; py "mov 1"])
   ∧ 3 + -3 < 3)
  ∧ ((∃ j ln, -2 + 0 < j ∧ getitem script j = Ok ln ∧ is_text_cmd ln = false)
     ∧ splice_box code_map (-2) script 0 0
       = Ok (-1, [py "u00416120"; py "show-text 0 x"; py "end-text-line 0";
                  py "show-text 0 y"; py "mov 1"])
     ∧ getitem script (-2) = Ok (py "end-text-line 0")
     ∧ getitem [py "u00416120"; py "show-text 0 x"; py "end-text-line 0";
                py "show-text 0 y"; py "mov 1"] (-2)
       = Ok (py "show-text 0 y")).
Proof.
  split.
  - split; [|split; [by vm_compute | lia]].
    exists 3, (py "mov 1"). split; [lia|]. split; by vm_compute.
  - split; [|split_and!; by vm_compute].
    exists 3, (py "mov 1"). split; [lia|]. split; by vm_compute.
Qed.

(** C1, amended: one box [i] of the second loop of [craft_into_script],
    whose generated block [code_map[i]] is [g], with an offset [d] that is
    not negative and a box start [p + d] that is a position of the script
    (not negative either), when some line after the start is no text
    command. The start is not before the cursor [p]; the loop finds the first
    line [e] after the start that is no text command; the script returned is
    the lines up to the start included, then the generated block [g], then
    the lines from [e] on; the lines up to the start included are unchanged;
    and the cursor returned is the start plus the length of [g]. *)
Theorem splice_box_spec (code_map : gmap Z (list pystr))
    (script : list pystr) (i p d : Z) (g : list pystr) :
  code_map !! i = Some g →
  0 ≤ d → 0 ≤ p + d →
  (∃ j ln, p + d < j ∧ getitem script j = Ok ln ∧ is_text_cmd ln = false) →
  let s := p + d in
  ∃ e script',
    splice_box code_map p script i d = Ok (s + len g, script')
    ∧ p ≤ s
    ∧ s < e < len script
    ∧ (∀ i ln, s < i < e → getitem script i = Ok ln → is_text_cmd ln = true)
    ∧ (∃ ln, getitem script e = Ok ln ∧ is_text_cmd ln = false)
    ∧ script' = slice_to script (s + 1) ++ g ++ slice_from script e
    ∧ (∀ i, 0 ≤ i ≤ s → getitem script' i = getitem script i).
Proof.
  intros Hcode Hd Hs (j & ln & Hj & Hg & Hln) s.
  destruct (first_non_text_cmd (Z.to_nat (j - (s + 1))) script (s + 1))
    as (k & Hk & Hbody & Hstop); [lia| |].
  { exists ln. by replace (s + 1 + Z.of_nat (Z.to_nat (j - (s + 1)))) with j by lia. }
  pose proof (text_box_end_loop_first k script (s + 1) ltac:(lia) Hbody Hstop)
    as Hend.
  exists (s + 1 + Z.of_nat k), (slice_to script (s + 1) ++ g
                        ++ slice_from script (s + 1 + Z.of_nat k)).
  assert (s + 1 + Z.of_nat k < len script) as Hlt.
  { destruct Hstop as (ln' & Hstop & _). by apply getitem_Ok_lt in Hstop. }
  split_and!; [|lia|lia|lia| |done|done|].
  - unfold splice_box, subscript. fold s.
    rewrite find_text_box_end_loop, Hend, Hcode. simpl.
    do 2 f_equal. lia.
  - intros i' ln' Hi. apply Hbody. lia.
  - intros i' Hi. rewrite !getitem_nonneg by lia.
    rewrite slice_to_nonneg by lia.
    rewrite lookup_app_l by (rewrite length_take; unfold len in Hlt; lia).
    by rewrite lookup_take_lt by lia.
Qed.

Lemma splice_box_spec_witness :
  let script := [py "u00416120"; py "show-text 0 x"; py "end-text-line 0";
                 py "mov 1"] in
  let code_map : gmap Z (list pystr) := {[ 0 := [py "show-text 0 y"] ]} in
  ∃ e script',
    splice_box code_map 0 script 0 0 = Ok (0 + 0 + 1, script')
    ∧ 0 ≤ 0 + 0
    ∧ 0 + 0 < e < len script
    ∧ (∀ i ln, 0 + 0 < i < e → getitem script i = Ok ln →
               is_text_cmd ln = true)
    ∧ (∃ ln, getitem script e = Ok ln ∧ is_text_cmd ln = false)
    ∧ script' = slice_to script (0 + 0 + 1) ++ [py "show-text 0 y"]
                ++ slice_from script e
    ∧ (∀ i, 0 ≤ i ≤ 0 + 0 → getitem script' i = getitem script i).
Proof.
  apply (splice_box_spec
           {[ 0 := [py "show-text 0 y"] ]}
           [py "u00416120"; py "show-text 0 x"; py "end-text-line 0";
            py "mov 1"] 0 0 0 [py "show-text 0 y"]); [done | lia | lia |].
  exists 3, (py "mov 1"). split; [lia|]. split; by vm_compute.
Defined.

(** *** The overlay of manual edits *)

Lemma split_on_count c s : len (split_on c s) = count c s + 1.
Proof.
  unfold count, len. induction s as [|x r IH]; [done|].
  cbn [split_on]. destruct (N.eqb_spec x c) as [->|Hne].
  - rewrite filter_cons_True by done. cbn [length]. lia.
  - rewrite filter_cons_False by done.
    destruct (split_on c r) as [|w ws] eqn:Hs.
    + by apply split_on_nonempty in Hs.
    + cbn [length] in *. lia.
Qed.

(** A list of three items or more ends with two items after a first part
    that is not empty. *)
Lemma last_two {A} (l : list A) :
  (3 ≤ length l)%nat → ∃ init y z, l = init ++ [y; z] ∧ init ≠ [].
Proof.
  intros Hlen.
  destruct l as [|z l _] using rev_ind; [cbn in Hlen; lia|].
  destruct l as [|y init _] using rev_ind;
    [cbn in Hlen; lia|].
  exists init, y, z. split; [by rewrite <- app_assoc|].
  intros ->. cbn in Hlen. lia.
Qed.

(** The line swapped in for a line with more than one quote: the stripped
    line is cut at its last two quotes, and what is between them goes through
    [replace_str]. *)
Lemma swapped_line_quoted rep_dict edited_line :
  1 < count QUOTE (strip edited_line) →
  ∃ before payload after,
    strip edited_line = before ++ [QUOTE] ++ payload ++ [QUOTE] ++ after
    ∧ (QUOTE ∉ payload) ∧ (QUOTE ∉ after)
    ∧ swapped_line rep_dict edited_line
      = Ok (before ++ [QUOTE] ++ replace_str rep_dict payload
            ++ [QUOTE] ++ after).
Proof.
  intros Hq. unfold swapped_line.
  destruct (Z.ltb_spec 1 (count QUOTE (strip edited_line))) as [_|]; [|lia].
  pose proof (split_on_count QUOTE (strip edited_line)) as Hlen.
  pose proof (split_on_pieces QUOTE (strip edited_line)) as Hpieces.
  pose proof (join_split_on QUOTE (strip edited_line)) as Hjoin.
  destruct (last_two (split_on QUOTE (strip edited_line)))
    as (init & payload & after & Hparts & Hne); [unfold len in Hlen; lia|].
  rewrite Hparts in *.
  rewrite Forall_app, !Forall_cons in Hpieces.
  destruct Hpieces as (_ & Hpayload & Hafter & _).
  assert (∀ x, join [QUOTE] (init ++ [x; after])
               = join [QUOTE] init ++ [QUOTE] ++ x ++ [QUOTE] ++ after)
    as Hcut.
  { intros x. change [x; after] with ([x] ++ [after]).
    rewrite app_assoc, !join_snoc; [by rewrite <- !app_assoc | done |].
    by destruct init. }
  exists (join [QUOTE] init), payload, after.
  split; [by rewrite <- Hjoin, Hcut|]. split; [done|]. split; [done|].
  assert (len (init ++ [payload; after]) - 2 = len init) as Hpos.
  { unfold len. rewrite length_app. cbn [length]. lia. }
  assert (getitem (init ++ [payload; after]) (-2) = Ok payload) as ->.
  { unfold getitem. cbn [Z.ltb Z.compare].
    replace (len (init ++ [payload; after]) + -2) with (len init) by lia.
    pose proof (len_nonneg init).
    destruct (Z.ltb_spec (len init) 0); [lia|].
    destruct (Z.leb_spec (len (init ++ [payload; after])) (len init)); [lia|].
    cbn [orb]. unfold len. rewrite Nat2Z.id.
    by rewrite lookup_app_r, Nat.sub_diag by done. }
  cbn [mbind res_bind]. rewrite Hpos. unfold len. rewrite Nat2Z.id.
  rewrite insert_app_r_alt, Nat.sub_diag by done.
  cbn [insert list_insert]. by rewrite Hcut.
Qed.

(** The line swapped in is always defined: [edited_line_split[-2]] exists
    when the line has more than one quote. *)
Lemma swapped_line_total rep_dict edited_line :
  ∃ variant, swapped_line rep_dict edited_line = Ok variant.
Proof.
  unfold swapped_line.
  destruct (Z.ltb_spec 1 (count QUOTE (strip edited_line))) as [Hq|_];
    [|by eexists].
  pose proof (split_on_count QUOTE (strip edited_line)) as Hlen.
  set (parts := split_on QUOTE (strip edited_line)) in *.
  unfold getitem. simpl.
  destruct (Z.ltb_spec (len parts + -2) 0); [lia|].
  destruct (Z.leb_spec (len parts) (len parts + -2)); [lia|]. simpl.
  destruct (parts !! Z.to_nat (len parts + -2)) eqn:Hl; [by eexists|].
  apply lookup_ge_None in Hl. unfold len in *. lia.
Qed.

Lemma overlay_spec rep_dict pairs :
  ∃ updated, overlay rep_dict pairs = Ok updated
    ∧ length updated = length pairs
    ∧ ∀ (i : nat) orig_line edited_line,
        pairs !! i = Some (orig_line, edited_line) →
        ∃ l, overlay_line rep_dict orig_line edited_line = Ok l
           ∧ updated !! i = Some l.
Proof.
  induction pairs as [|[o e] pairs (updated & IH & Hlen & Hall)].
  - exists []. split_and!; [done|done|]. intros i ? ? Hi.
    by rewrite lookup_nil in Hi.
  - assert (∃ l, overlay_line rep_dict o e = Ok l) as [l Hl].
    { unfold overlay_line. destruct (_ && _); [|by eexists].
      apply swapped_line_total. }
    exists (l :: updated). simpl. rewrite Hl, IH. simpl.
    split_and!; [done | by rewrite Hlen |].
    intros [|i] o' e' Hi; simpl in Hi.
    + injection Hi as <- <-. by exists l.
    + by apply Hall.
Qed.

(** What the specification says of the lines [replace_manual_strings]
    keeps, at two scripts of the same length. *)
Definition keeps_claim (rep_dict : list (pystr * pystr))
    (final_en_script edited_script : list pystr) : Prop :=
  ∃ updated,
    replace_manual_strings rep_dict final_en_script edited_script = Ok updated
    ∧ ∀ (i : nat) orig_line edited_line,
        final_en_script !! i = Some orig_line →
        edited_script !! i = Some edited_line →
        orig_line = edited_line
        ∨ startswith edited_line (py "set-string") = false →
        updated !! i = Some orig_line.

(** C9, as stated, fails for an indented edit: the test for [set-string] is
    made on the stripped line, so that an edit which does not start with
    [set-string] is swapped in all the same. What is swapped in is then not
    the edit itself either, but its stripped form. *)
Lemma replace_manual_strings_indented :
  startswith (py "  set-string 3 " ++ [QUOTE] ++ py "x" ++ [QUOTE])
             (py "set-string") = false
  ∧ replace_manual_strings [] [py "mov 1"]
      [py "  set-string 3 " ++ [QUOTE] ++ py "x" ++ [QUOTE]]
    = Ok [py "set-string 3 " ++ [QUOTE] ++ py "x" ++ [QUOTE]]
  ∧ ¬ keeps_claim [] [py "mov 1"]
        [py "  set-string 3 " ++ [QUOTE] ++ py "x" ++ [QUOTE]].
Proof.
  assert (replace_manual_strings [] [py "mov 1"]
            [py "  set-string 3 " ++ [QUOTE] ++ py "x" ++ [QUOTE]]
          = Ok [py "set-string 3 " ++ [QUOTE] ++ py "x" ++ [QUOTE]])
    as Hindented by (by vm_compute).
  split_and!; [by vm_compute | done |].
  intros (updated & Hrun & Hlines).
  rewrite Hindented in Hrun. injection Hrun as <-.
  by specialize (Hlines 0%nat _ _ eq_refl eq_refl (or_intror eq_refl)).
Qed.

(** C9, amended: [replace_manual_strings] raises (a [ValueError]) exactly
    when the two scripts differ in their number of lines, and then nothing
    else happens; when they have the same number of lines it returns a script
    of that length. In it a position keeps the original line when the edited
    line is equal to it or does not start with [set-string] once stripped.
    Otherwise the position holds the edited line itself when its stripped
    form has at most one quote; and when it has more, the stripped form of
    the edited line in which the text between the last two quotes has gone
    through [replace_str]. *)
Theorem replace_manual_strings_spec (rep_dict : list (pystr * pystr))
    (final_en_script edited_script : list pystr) :
  (length final_en_script ≠ length edited_script →
   replace_manual_strings rep_dict final_en_script edited_script
   = Raise ValueError)
  ∧ (length final_en_script = length edited_script →
     ∃ updated,
       replace_manual_strings rep_dict final_en_script edited_script
       = Ok updated
       ∧ length updated = length final_en_script
       ∧ ∀ (i : nat) orig_line edited_line,
           final_en_script !! i = Some orig_line →
           edited_script !! i = Some edited_line →
           (orig_line = edited_line
            ∨ startswith (strip edited_line) (py "set-string") = false →
            updated !! i = Some orig_line)
           ∧ (orig_line ≠ edited_line →
              startswith (strip edited_line) (py "set-string") = true →
              (count QUOTE (strip edited_line) ≤ 1 →
               updated !! i = Some edited_line)
              ∧ (1 < count QUOTE (strip edited_line) →
                 ∃ before payload after,
                   strip edited_line
                   = before ++ [QUOTE] ++ payload ++ [QUOTE] ++ after
                   ∧ (QUOTE ∉ payload) ∧ (QUOTE ∉ after)
                   ∧ updated !! i
                     = Some (before ++ [QUOTE] ++ replace_str rep_dict payload
                             ++ [QUOTE] ++ after)))).
Proof.
  unfold replace_manual_strings, len. split.
  - intros Hne.
    by destruct (Z.eqb_spec (Z.of_nat (length final_en_script))
                            (Z.of_nat (length edited_script))); [lia|].
  - intros Heq. rewrite Heq, Z.eqb_refl. simpl.
    destruct (overlay_spec rep_dict (zip final_en_script edited_script))
      as (updated & -> & Hlen & Hall).
    exists updated. split; [done|]. split.
    { rewrite Hlen, length_zip_with. lia. }
    intros i o e Ho He.
    destruct (Hall i o e) as (l & Hl & Hi).
    { apply lookup_zip_with_Some. by exists o, e. }
    clear Hall. rename Hl into Hall. rewrite Hi.
    unfold overlay_line in Hall. split.
    + intros Hkeep.
      destruct (bool_decide_reflect (o = e)) as [Hoe|Hoe]; simpl in Hall;
        [congruence|].
      destruct Hkeep as [?|Hset]; [done|]. rewrite Hset in Hall. congruence.
    + intros Hoe Hset. rewrite bool_decide_eq_false_2, Hset in Hall by done.
      cbn [negb andb] in Hall. split.
      * intros Hq. unfold swapped_line in Hall.
        destruct (Z.ltb_spec 1 (count QUOTE (strip e))); [lia|]. congruence.
      * intros Hq.
        destruct (swapped_line_quoted rep_dict e Hq)
          as (before & payload & after & Hcut & Hp & Ha & Hswap).
        exists before, payload, after. rewrite Hswap in Hall.
        injection Hall as <-. by split_and!.
Qed.

Lemma replace_manual_strings_spec_witness :
  replace_manual_strings [] [py "mov 1"; py "set-string 3 old"] [py "mov 1"]
  = Raise ValueError
  ∧ ∃ updated,
      replace_manual_strings [] [py "mov 1"; py "set-string 3 old"]
                                [py "mov 1"; py "set-string 3 new"]
      = Ok updated
      ∧ length updated = 2%nat
      ∧ ∀ (i : nat) orig_line edited_line,
          [py "mov 1"; py "set-string 3 old"] !! i = Some orig_line →
          [py "mov 1"; py "set-string 3 new"] !! i = Some edited_line →
          (orig_line = edited_line
           ∨ startswith (strip edited_line) (py "set-string") = false →
           updated !! i = Some orig_line)
          ∧ (orig_line ≠ edited_line →
             startswith (strip edited_line) (py "set-string") = true →
             (count QUOTE (strip edited_line) ≤ 1 →
              updated !! i = Some edited_line)
             ∧ (1 < count QUOTE (strip edited_line) →
                ∃ before payload after,
                  strip edited_line
                  = before ++ [QUOTE] ++ payload ++ [QUOTE] ++ after
                  ∧ (QUOTE ∉ payload) ∧ (QUOTE ∉ after)
                  ∧ updated !! i
                    = Some (before ++ [QUOTE] ++ replace_str [] payload
                            ++ [QUOTE] ++ after))).
Proof.
  split.
  - apply (proj1 (replace_manual_strings_spec []
                    [py "mov 1"; py "set-string 3 old"] [py "mov 1"])).
    simpl. lia.
  - apply (proj2 (replace_manual_strings_spec []
                    [py "mov 1"; py "set-string 3 old"]
                    [py "mov 1"; py "set-string 3 new"])).
    reflexivity.
Defined.

End reinsert.

(** ** The box detector *)
Section extract_dialogue.
Import ExtractDialogue.

(** *** Markers and text commands *)

Lemma lstrip_snoc_nonspace l c :
  isspace c = false → ∃ l', lstrip (l ++ [c]) = l' ++ [c].
Proof.
  intros Hc. induction l as [|x l [l' IH]]; simpl.
  - rewrite Hc. by exists [].
  - destruct (isspace x); [by exists l'|]. by exists (x :: l).
Qed.

Lemma strip_cons_nonspace c r :
  isspace c = false → ∃ r', strip (c :: r) = c :: r'.
Proof.
  intros Hc. unfold strip, rstrip. simpl. rewrite Hc.
  rewrite reverse_cons.
  destruct (lstrip_snoc_nonspace (reverse r) c Hc) as [l' ->].
  exists (reverse l'). by rewrite reverse_app.
Qed.

(** A line that starts with [show-text] is no start marker. *)
Lemma show_text_not_box_start ln file_name :
  startswith ln (py "show-text") = true →
  is_box_start (strip ln) file_name = false.
Proof.
  intros Hs. destruct ln as [|c r]; [done|].
  change (py "show-text") with (115%N :: py "how-text") in Hs.
  cbn [startswith] in Hs. apply andb_prop in Hs as [Hc _].
  apply N.eqb_eq in Hc. subst c.
  destruct (strip_cons_nonspace 115%N r) as [r' ->]; [done|].
  unfold is_box_start.
  rewrite !bool_decide_eq_false_2 by discriminate.
  by rewrite andb_false_r.
Qed.

(** A start marker is no text command. *)
Lemma box_start_not_text_cmd st file_name :
  is_box_start st file_name = true → is_text_cmd st = false.
Proof.
  unfold is_box_start. intros H.
  apply orb_prop in H as [H|H]; [apply orb_prop in H as [H|H]|].
  - apply bool_decide_eq_true in H. by subst.
  - apply bool_decide_eq_true in H. by subst.
  - apply andb_prop in H as [_ H]. apply bool_decide_eq_true in H. by subst.
Qed.

(** *** Slices of the script *)

Lemma slice_snoc {A} (l : list A) (a n : Z) (x : A) :
  0 ≤ a ≤ n → l !! Z.to_nat n = Some x →
  slice l a (n + 1) = slice l a n ++ [x].
Proof.
  intros Ha Hx. rewrite !slice_nonneg by lia.
  replace (Z.to_nat (n + 1)) with (S (Z.to_nat n)) by lia.
  rewrite (take_S_r _ _ x) by done.
  apply drop_app_le. rewrite length_take.
  apply lookup_lt_Some in Hx. lia.
Qed.

Lemma slice_one {A} (l : list A) (n : Z) (x : A) :
  0 ≤ n → l !! Z.to_nat n = Some x → slice l n (n + 1) = [x].
Proof.
  intros Hn Hx. rewrite (slice_snoc l n n x) by (done || lia).
  rewrite slice_nonneg by lia. rewrite drop_ge; [done|].
  rewrite length_take. lia.
Qed.

Lemma slice_length {A} (l : list A) (a b : Z) :
  0 ≤ a ≤ b → b ≤ len l → len (slice l a b) = b - a.
Proof.
  intros Ha Hb. rewrite slice_nonneg by lia. unfold len in *.
  rewrite length_drop, length_take. lia.
Qed.

Lemma head_slice {A} (l : list A) (a b : Z) :
  0 ≤ a < b → head (slice l a b) = l !! Z.to_nat a.
Proof.
  intros Hab. rewrite slice_nonneg by lia.
  rewrite head_lookup, lookup_drop, Nat.add_0_r.
  apply lookup_take_lt. lia.
Qed.

(** *** The invariant of the scan *)
Section scan_invariant.
Variable lines : list pystr.
Variable file_name : pystr.
Variable name_map : gmap Z pystr.

Abbreviation step := (step lines file_name name_map).
Abbreviation run := (run lines file_name name_map).
Abbreviation close := (close name_map).

(** The line at [i] is a start marker and the line after it starts with
    [show-text]. *)
Definition confirmed_start (i : Z) : Prop :=
  0 ≤ i ∧ ∃ ln nxt,
    lines !! Z.to_nat i = Some ln
    ∧ is_box_start (strip ln) file_name = true
    ∧ lines !! Z.to_nat (i + 1) = Some nxt
    ∧ startswith nxt (py "show-text") = true.

(** What a box emitted with the span [sp] owes to the script, [prev_end]
    being the end of the box before it (0 for the first box). *)
Definition box_ok (prev_end : Z) (b : TextBox) (sp : Z * Z) : Prop :=
  prev_end ≤ sp.1 ∧ sp.1 < sp.2 < len lines
  ∧ offset b = sp.1 - prev_end
  ∧ raw b = slice lines sp.1 (sp.2 + 1)
  ∧ confirmed_start sp.1.

Fixpoint chain (prev_end : Z) (bs : list TextBox) (sps : list (Z * Z))
    : Prop :=
  match bs, sps with
  | [], [] => True
  | b :: bs', sp :: sps' => box_ok prev_end b sp ∧ chain sp.2 bs' sps'
  | _, _ => False
  end.

(** The end of the last span, [prev_end] when there is none. *)
Definition chain_end (prev_end : Z) (sps : list (Z * Z)) : Z :=
  default prev_end (snd <$> last sps).

Lemma chain_end_cons prev_end sp sps :
  chain_end prev_end (sp :: sps) = chain_end sp.2 sps.
Proof.
  unfold chain_end. destruct sps as [|sp' sps]; [done|].
  rewrite last_cons_cons.
  destruct (last (sp' :: sps)) eqn:Hl; [done|]. by apply last_None in Hl.
Qed.

Lemma chain_snoc prev_end bs sps b sp :
  chain prev_end bs sps → box_ok (chain_end prev_end sps) b sp →
  chain prev_end (bs ++ [b]) (sps ++ [sp]).
Proof.
  revert prev_end sps. induction bs as [|b' bs IH]; intros p [|sp' sps];
    simpl; try done.
  intros [Hb Hc] Hnew. split; [done|]. apply IH; [done|].
  by rewrite chain_end_cons in Hnew.
Qed.

Lemma chain_end_snoc prev_end sps sp :
  chain_end prev_end (sps ++ [sp]) = sp.2.
Proof. unfold chain_end. by rewrite last_snoc. Qed.

(** A buffer is open on the lines from [start_idx] up to [n] excluded. *)
Definition open_box (s : scan) (n : Z) : Prop :=
  confirmed_start (start_idx s)
  ∧ buf s = slice lines (start_idx s) n
  ∧ last_end s ≤ start_idx s.

(** The three states of the boundary tracking, [n] lines being read. *)
Inductive mode (s : scan) (n : Z) : Prop :=
  | mode_idle :
      in_box s = false → after_u s = false → mode s n
  | mode_pending :
      in_box s = false → after_u s = true →
      start_idx s + 1 = n → open_box s n → mode s n
  | mode_in_box :
      in_box s = true → start_idx s + 2 ≤ n → open_box s n → mode s n.

Record inv (s : scan) (n : Z) : Prop := mkInv {
  inv_chain : chain 0 (boxes s) (spans s);
  inv_last_end : last_end s = chain_end 0 (spans s);
  inv_bounds : 0 ≤ last_end s ≤ n;
  inv_mode : mode s n
}.

Lemma inv_init : inv scan_init 0.
Proof. split; [done | done | simpl; lia | by apply mode_idle]. Qed.

Lemma track_speaker_inv s st n : inv s n → inv (track_speaker s st) n.
Proof.
  intros [Hc He Hb Hm]. unfold track_speaker.
  destruct (LOOKUP_6623 st); [|destruct (waiting_mov s); [|done]].
  - split; [done|done|done|]. destruct Hm as [?|? ? ? [? []]|? ? [? []]].
    + by apply mode_idle.
    + by apply mode_pending.
    + by apply mode_in_box.
  - split; [done|done|done|]. destruct Hm as [?|? ? ? [? []]|? ? [? []]].
    + by apply mode_idle.
    + by apply mode_pending.
    + by apply mode_in_box.
Qed.

(** [close] emits the open box, if there is one, and leaves the scan idle. *)
Lemma close_inv s n :
  inv s n → n ≤ len lines →
  inv (close s (n - 1)) n
  ∧ in_box (close s (n - 1)) = false ∧ after_u (close s (n - 1)) = false.
Proof.
  intros [Hc He Hb Hm] Hn. split; [|done].
  destruct Hm as [Hin Hau|Hin Hau Hst Hopen|Hin Hst Hopen].
  - unfold close. rewrite Hin. simpl.
    split; [done | done | done | by apply mode_idle].
  - unfold close. rewrite Hin. simpl.
    split; [done | done | done | by apply mode_idle].
  - destruct Hopen as (Hconf & Hbuf & Hle).
    pose proof Hconf as [H0 _].
    assert (len (buf s) = n - start_idx s) as Hlen
      by (rewrite Hbuf; apply slice_length; lia).
    unfold close. rewrite Hin.
    destruct (buf s) as [|l0 b0] eqn:Hb0;
      [unfold len in Hlen; simpl in Hlen; lia|].
    simpl. destruct (Z.leb_spec 0 (last_end s)); [|lia].
    split; simpl.
    + apply chain_snoc; [done|]. rewrite <- He.
      unfold box_ok. simpl. split_and!; try done; try lia.
      by replace (n - 1 + 1) with n by lia.
    + by rewrite chain_end_snoc.
    + lia.
    + by apply mode_idle.
Qed.

(** A confirmed marker opens a buffer; an unconfirmed one changes nothing.
    The scan is idle when the test is made. *)
Lemma try_start_inv s n ln s' :
  inv s n → 0 ≤ n → lines !! Z.to_nat n = Some ln →
  is_box_start (strip ln) file_name = true →
  in_box s = false → after_u s = false →
  try_start lines s n ln = Ok s' → inv s' (n + 1).
Proof.
  intros [Hc He Hb Hm] Hn Hln Hstart Hin Hau. unfold try_start.
  destruct (getitem lines (n + 1)) as [nxt|e] eqn:Hg; [|done]. simpl.
  apply getitem_Ok_nonneg in Hg; [|lia].
  destruct (startswith nxt (py "show-text")) eqn:Hshow; simpl;
    intros [= <-].
  - split; simpl; [done | done | lia |].
    apply mode_pending; simpl; [done | done | done |].
    split_and!; simpl; [|by rewrite (slice_one lines n ln) | lia].
    split; [done|]. by exists ln, nxt.
  - split; [done | done | lia | by apply mode_idle].
Qed.

(** One iteration of the loop keeps the invariant. *)
Lemma step_inv s n ln s' :
  inv s n → 0 ≤ n → lines !! Z.to_nat n = Some ln →
  step s n ln = Ok s' → inv s' (n + 1).
Proof.
  intros Hinv Hn Hln. unfold ExtractDialogue.step.
  apply (track_speaker_inv _ (strip ln)) in Hinv.
  set (s1 := track_speaker s (strip ln)) in *. clearbody s1.
  assert (n < len lines) as Hlt.
  { apply lookup_lt_Some in Hln. unfold len. lia. }
  destruct (in_box s1) eqn:Hin; simpl.
  - (* inside a box *)
    destruct (is_text_cmd (strip ln)) eqn:Htext.
    + intros [= <-]. destruct Hinv as [Hc He Hb Hm].
      split; simpl; [done | done | lia |].
      destruct Hm as [?|? ? ? ?|_ Hst (Hconf & Hbuf & Hle)]; [congruence..|].
      apply mode_in_box; simpl; [done | lia |].
      split_and!; simpl; [done | | done].
      destruct Hconf as [H0 _].
      by rewrite (slice_snoc lines _ n ln), Hbuf by (done || lia).
    + destruct (close_inv s1 n Hinv ltac:(lia)) as (Hinv' & Hin' & Hau').
      destruct (is_box_start (strip ln) file_name) eqn:Hstart.
      * by apply try_start_inv.
      * intros [= <-]. destruct Hinv' as [Hc He Hb Hm].
        split; [done | done | lia | by apply mode_idle].
  - (* outside a box *)
    pose proof Hinv as [Hc He Hb Hm].
    destruct (is_box_start (strip ln) file_name) eqn:Hstart.
    + destruct Hm as [_ Hau|_ _ Hst (Hconf & _)|?]; [|exfalso|congruence].
      * by apply try_start_inv.
      * destruct Hconf as (H0 & ln0 & nxt & _ & _ & Hnxt & Hshow).
        replace (start_idx s1 + 1) with n in Hnxt by lia.
        rewrite Hln in Hnxt. injection Hnxt as <-.
        by rewrite (show_text_not_box_start ln file_name Hshow) in Hstart.
    + destruct Hm as [_ Hau|_ Hau Hst (Hconf & Hbuf & Hle)|?]; [| |congruence].
      * rewrite Hau. intros [= <-].
        split; [done | done | lia | by apply mode_idle].
      * rewrite Hau. destruct (is_text_cmd (strip ln)); intros [= <-].
        -- split; simpl; [done | done | lia |].
           apply mode_in_box; simpl; [done | lia |].
           split_and!; simpl; [done | | done].
           destruct Hconf as [H0 _].
           by rewrite (slice_snoc lines _ n ln), Hbuf by (done || lia).
        -- split; simpl; [done | done | lia | by apply mode_idle].
Qed.

Lemma run_inv rest :
  ∀ pre s s',
    lines = pre ++ rest → inv s (len pre) →
    run s (len pre) rest = Ok s' → inv s' (len lines).
Proof.
  induction rest as [|ln rest IH]; intros pre s s' Hlines Hinv; simpl.
  - intros [= <-]. by rewrite Hlines, app_nil_r.
  - destruct (step s (len pre) ln) as [s1|e] eqn:Hstep; [|done]. simpl.
    replace (len pre + 1) with (len (pre ++ [ln]))
      by (rewrite len_app; done).
    apply IH; [by rewrite <- app_assoc|].
    rewrite len_app. apply (step_inv s _ ln); [done | apply len_nonneg | |done].
    rewrite Hlines. unfold len. rewrite Nat2Z.id.
    by rewrite lookup_app_r, Nat.sub_diag.
Qed.

(** Every box of a finished scan is chained to the one before it. *)
Lemma extract_scan_chain s :
  extract_scan lines file_name name_map = Ok s →
  chain 0 (boxes s) (spans s).
Proof.
  unfold extract_scan.
  destruct (run scan_init 0 lines) as [s1|e] eqn:Hrun; [|done]. simpl.
  intros [= <-].
  assert (inv s1 (len lines)) as Hinv.
  { apply (run_inv lines [] scan_init); [done | apply inv_init | done]. }
  by destruct (close_inv s1 (len lines) Hinv ltac:(lia)) as ([Hc _ _ _] & _).
Qed.

Lemma chain_length prev_end bs sps :
  chain prev_end bs sps → length sps = length bs.
Proof.
  revert prev_end sps. induction bs as [|b bs IH]; intros p [|sp sps];
    simpl; try done.
  intros [_ Hc]. f_equal. by apply (IH sp.2).
Qed.

Lemma chain_first prev_end bs sps b sp :
  chain prev_end bs sps → bs !! 0%nat = Some b → sps !! 0%nat = Some sp →
  box_ok prev_end b sp.
Proof.
  destruct bs as [|b' bs], sps as [|sp' sps]; simpl; try done.
  by intros [Hb _] [= <-] [= <-].
Qed.

Lemma chain_next prev_end bs sps (k : nat) b sp sp' :
  chain prev_end bs sps →
  bs !! S k = Some b → sps !! S k = Some sp → sps !! k = Some sp' →
  box_ok sp'.2 b sp.
Proof.
  revert prev_end bs sps.
  induction k as [|k IH]; intros p [|b0 bs] [|sp0 sps]; simpl; try done.
  - intros [_ Hc] Hb Hsp [= <-]. by apply (chain_first _ bs sps).
  - intros [_ Hc] Hb Hsp Hsp'. by apply (IH sp0.2 bs sps).
Qed.

Lemma chain_lookup prev_end bs sps (k : nat) b sp :
  chain prev_end bs sps → bs !! k = Some b → sps !! k = Some sp →
  ∃ q, prev_end ≤ q ∧ box_ok q b sp.
Proof.
  revert prev_end bs sps.
  induction k as [|k IH]; intros p [|b0 bs] [|sp0 sps]; simpl; try done.
  - intros [Hb _] [= <-] [= <-]. exists p. split; [lia | done].
  - intros [(Hp & Hlt & _) Hc] Hb Hsp.
    destruct (IH sp0.2 bs sps Hc Hb Hsp) as (q & Hq & Hbox).
    exists q. split; [lia | done].
Qed.

End scan_invariant.

(** *** The properties of the detector *)

Lemma extract_boxes_scan lines file_name name_map bs :
  extract_boxes lines file_name name_map = Ok bs →
  ∃ s, extract_scan lines file_name name_map = Ok s ∧ boxes s = bs.
Proof.
  unfold extract_boxes.
  destruct (extract_scan lines file_name name_map) as [s|e]; [|done].
  intros [= <-]. by exists s.
Qed.

(** C7: every box of [extract_boxes] has an offset that is not negative;
    the offset of the first box is the position of its first line, and the
    offset of every later box is the position of its first line minus the
    position of the last line of the box before it. The positions are those
    [close] saw, [start_idx] and [end_before], and the raw lines of a box
    are the lines of the script between them. *)
Theorem extract_boxes_offsets (lines : list pystr) (file_name : pystr)
    (name_map : gmap Z pystr) (bs : list TextBox) :
  extract_boxes lines file_name name_map = Ok bs →
  ∃ s, extract_scan lines file_name name_map = Ok s ∧ boxes s = bs
    ∧ length (spans s) = length bs
    ∧ Forall (λ b, 0 ≤ offset b) bs
    ∧ (∀ b first last,
         bs !! 0%nat = Some b → spans s !! 0%nat = Some (first, last) →
         offset b = first)
    ∧ (∀ (k : nat) b first last prev_first prev_last,
         bs !! S k = Some b → spans s !! S k = Some (first, last) →
         spans s !! k = Some (prev_first, prev_last) →
         offset b = first - prev_last)
    ∧ (∀ (k : nat) b first last,
         bs !! k = Some b → spans s !! k = Some (first, last) →
         0 ≤ first < last ∧ last < len lines
         ∧ raw b = slice lines first (last + 1)).
Proof.
  intros Hbs. destruct (extract_boxes_scan _ _ _ _ Hbs) as (s & Hs & <-).
  pose proof (extract_scan_chain _ _ _ _ Hs) as Hc.
  pose proof (chain_length _ _ _ _ _ Hc) as Hlen.
  exists s. split_and!; [done | done | done | | | |].
  - apply Forall_lookup. intros k b Hb.
    destruct (lookup_lt_is_Some_2 (spans s) k) as [sp Hsp].
    { rewrite Hlen. by apply lookup_lt_Some in Hb. }
    destruct (chain_lookup _ _ _ _ _ k b sp Hc Hb Hsp)
      as (q & Hq & Hq' & _ & Hoff & _).
    lia.
  - intros b first last Hb Hsp.
    destruct (chain_first _ _ _ _ _ b (first, last) Hc Hb Hsp)
      as (_ & _ & Hoff & _).
    simpl in Hoff. lia.
  - intros k b first last pf pl Hb Hsp Hsp'.
    by destruct (chain_next _ _ _ _ _ k b (first, last) (pf, pl) Hc Hb Hsp Hsp')
      as (_ & _ & Hoff & _).
  - intros k b first last Hb Hsp.
    destruct (chain_lookup _ _ _ _ _ k b (first, last) Hc Hb Hsp)
      as (q & Hq & Hq' & Hlt & _ & Hraw & [H0 _]).
    simpl in *. split_and!; [lia | lia | lia | done].
Qed.

(** C6: a start marker whose next line does not start with [show-text] is
    the first line of the raw buffer of no box: every box sits on the lines
    [first..last] of the script, and [first] is never the position of such
    a marker. *)
Theorem unconfirmed_marker_opens_no_box (lines : list pystr)
    (file_name : pystr) (name_map : gmap Z pystr) (bs : list TextBox)
    (i : nat) (ln : pystr) :
  extract_boxes lines file_name name_map = Ok bs →
  lines !! i = Some ln →
  is_box_start (strip ln) file_name = true →
  (∀ nxt, lines !! S i = Some nxt → startswith nxt (py "show-text") = false) →
  ∃ s, extract_scan lines file_name name_map = Ok s ∧ boxes s = bs
    ∧ length (spans s) = length bs
    ∧ ∀ (k : nat) b first last,
        bs !! k = Some b → spans s !! k = Some (first, last) →
        raw b = slice lines first (last + 1)
        ∧ head (raw b) = lines !! Z.to_nat first
        ∧ first ≠ Z.of_nat i.
Proof.
  intros Hbs Hln Hstart Hnext.
  destruct (extract_boxes_scan _ _ _ _ Hbs) as (s & Hs & <-).
  pose proof (extract_scan_chain _ _ _ _ Hs) as Hc.
  exists s. split_and!; [done | done | by apply (chain_length _ _ _ _ _ Hc) |].
  intros k b first last Hb Hsp.
  destruct (chain_lookup _ _ _ _ _ k b (first, last) Hc Hb Hsp)
    as (q & Hq & Hq' & Hlt & _ & Hraw & H0 & l0 & nxt & Hl0 & _ & Hnxt & Hshow).
  simpl in *. split_and!; [done | |].
  - rewrite Hraw. apply head_slice. lia.
  - intros ->. replace (Z.to_nat (Z.of_nat i + 1)) with (S i) in Hnxt by lia.
    rewrite (Hnext nxt Hnxt) in Hshow. done.
Qed.

Lemma getitem_raises {A} (l : list A) i e :
  getitem l i = Raise e → e = IndexError.
Proof.
  unfold getitem. destruct (_ || _); [congruence|].
  destruct (l !! _); congruence.
Qed.

Section raises.
Variable lines : list pystr.
Variable file_name : pystr.
Variable name_map : gmap Z pystr.

Lemma try_start_raises s idx ln e :
  try_start lines s idx ln = Raise e →
  e = IndexError ∧ getitem lines (idx + 1) = Raise IndexError.
Proof.
  unfold try_start. destruct (getitem lines (idx + 1)) as [nxt|e'] eqn:Hg.
  - simpl. by destruct (negb _).
  - simpl. intros [= <-]. by rewrite (getitem_raises _ _ _ Hg) in *.
Qed.

Lemma step_raises s idx ln e :
  step lines file_name name_map s idx ln = Raise e → e = IndexError.
Proof.
  unfold step.
  repeat (match goal with
          | |- context [if ?b then _ else _] => destruct b
          end; simpl); try done;
    intros H; by apply try_start_raises in H as [-> _].
Qed.

Lemma run_raises rest s idx e :
  run lines file_name name_map s idx rest = Raise e → e = IndexError.
Proof.
  revert s idx. induction rest as [|ln rest IH]; intros s idx; simpl; [done|].
  destruct (step lines file_name name_map s idx ln) as [s'|e'] eqn:Hstep.
  - simpl. apply IH.
  - simpl. intros [= <-]. by apply step_raises in Hstep.
Qed.

Lemma run_app l1 l2 s idx :
  run lines file_name name_map s idx (l1 ++ l2)
  = s' ← run lines file_name name_map s idx l1;
    run lines file_name name_map s' (idx + len l1) l2.
Proof.
  revert s idx. induction l1 as [|ln l1 IH]; intros s idx; simpl.
  - unfold len. simpl. by rewrite Z.add_0_r.
  - destruct (step lines file_name name_map s idx ln) as [s'|e]; [|done].
    simpl. rewrite IH. unfold len. simpl length.
    by replace (idx + 1 + Z.of_nat (length l1))
      with (idx + Z.of_nat (S (length l1))) by lia.
Qed.

(** On a start marker, outside a box or at the line that closes one, the
    line after the marker is read before anything else is decided. *)
Lemma step_marker_reads_next s idx ln e :
  is_box_start (strip ln) file_name = true →
  getitem lines (idx + 1) = Raise e →
  step lines file_name name_map s idx ln = Raise e.
Proof.
  intros Hstart Hg. unfold step. rewrite Hstart.
  rewrite (box_start_not_text_cmd _ _ Hstart).
  destruct (negb _); unfold try_start; by rewrite Hg.
Qed.

Lemma step_returns s idx ln :
  0 ≤ idx →
  (is_box_start (strip ln) file_name = true → idx + 1 < len lines) →
  ∃ s', step lines file_name name_map s idx ln = Ok s'.
Proof.
  intros Hidx Hnext.
  assert (∀ s0, is_box_start (strip ln) file_name = true →
                ∃ s', try_start lines s0 idx ln = Ok s') as Htry.
  { intros s0 Hstart. unfold try_start.
    rewrite getitem_nonneg by lia.
    destruct (lines !! Z.to_nat (idx + 1)) as [nxt|] eqn:Hl.
    - simpl. destruct (negb _); by eexists.
    - apply lookup_ge_None in Hl. specialize (Hnext Hstart).
      unfold len in Hnext. lia. }
  unfold step.
  destruct (is_box_start (strip ln) file_name) eqn:Hstart.
  - rewrite (box_start_not_text_cmd _ _ Hstart).
    destruct (negb _); by apply Htry.
  - repeat (match goal with
            | |- context [if ?b then _ else _] => destruct b
            end; simpl); by eexists.
Qed.

Lemma run_returns rest :
  ∀ pre s,
    lines = pre ++ rest →
    (∀ (i : nat) ln, lines !! i = Some ln →
       is_box_start (strip ln) file_name = true → (S i < length lines)%nat) →
    ∃ s', run lines file_name name_map s (len pre) rest = Ok s'.
Proof.
  induction rest as [|ln rest IH]; intros pre s Hlines Hnext; simpl.
  - by eexists.
  - destruct (step_returns s (len pre) ln) as [s1 ->]; [apply len_nonneg| |].
    + intros Hstart. specialize (Hnext (length pre) ln).
      rewrite Hlines in Hnext at 1.
      rewrite lookup_app_r, Nat.sub_diag in Hnext by done.
      specialize (Hnext eq_refl Hstart). unfold len. lia.
    + simpl. replace (len pre + 1) with (len (pre ++ [ln]))
        by (rewrite len_app; done).
      apply IH; [by rewrite <- app_assoc | done].
Qed.

End raises.

(** C10: on a start marker read outside a box, the line after it is read at
    once, so the iteration raises whenever that read does; a script whose
    last line is a start marker makes [extract_boxes] raise [IndexError];
    and a script in which a line follows every start marker makes it return
    a list of boxes. *)
Theorem extract_boxes_marker_at_end (lines : list pystr) (file_name : pystr)
    (name_map : gmap Z pystr) :
  (∀ s idx ln e,
     in_box s = false →
     is_box_start (strip ln) file_name = true →
     getitem lines (idx + 1) = Raise e →
     step lines file_name name_map s idx ln = Raise e)
  ∧ (∀ ln, last lines = Some ln →
       is_box_start (strip ln) file_name = true →
       extract_boxes lines file_name name_map = Raise IndexError)
  ∧ ((∀ (i : nat) ln, lines !! i = Some ln →
        is_box_start (strip ln) file_name = true →
        (S i < length lines)%nat) →
     ∃ bs, extract_boxes lines file_name name_map = Ok bs).
Proof.
  split_and!.
  - intros s idx ln e _. apply step_marker_reads_next.
  - intros ln Hlast Hstart. apply last_Some in Hlast as [pre ->].
    unfold extract_boxes, extract_scan. rewrite run_app.
    destruct (run (pre ++ [ln]) file_name name_map scan_init 0 pre)
      as [s|e] eqn:Hrun.
    + simpl. rewrite (step_marker_reads_next _ _ _ s _ ln IndexError);
        [done | done |].
      apply getitem_past_end. rewrite len_app. unfold len. simpl. lia.
    + by rewrite (run_raises _ _ _ _ _ _ _ Hrun).
  - intros Hnext. unfold extract_boxes, extract_scan.
    destruct (run_returns lines file_name name_map lines [] scan_init)
      as [s Hs]; [done | done |].
    change (len []) with 0 in Hs. rewrite Hs. by eexists.
Qed.

(** A scene of two boxes, the second opening on the line that closes the
    first, and a scene with a marker that no [show-text] line confirms. *)
Definition two_boxes : list pystr :=
  [py "mov (local-int 0) 1"; py "u00416120"; py "show-text 0 a";
   py "end-text-line 0"; py "u00416120"; py "show-text 0 b";
   py "wait-for-input 0"; py "ret"].

Definition stray_marker : list pystr :=
  [py "304"; py "mov (local-int 0) 1"; py "u00416120"; py "show-text 0 a";
   py "ret"].

Lemma extract_boxes_offsets_witness :
  ∃ bs, extract_boxes two_boxes (py "SC0001") ∅ = Ok bs
    ∧ ∃ s, extract_scan two_boxes (py "SC0001") ∅ = Ok s ∧ boxes s = bs
      ∧ length (spans s) = length bs
      ∧ Forall (λ b, 0 ≤ offset b) bs
      ∧ (∀ b first last,
           bs !! 0%nat = Some b → spans s !! 0%nat = Some (first, last) →
           offset b = first)
      ∧ (∀ (k : nat) b first last prev_first prev_last,
           bs !! S k = Some b → spans s !! S k = Some (first, last) →
           spans s !! k = Some (prev_first, prev_last) →
           offset b = first - prev_last)
      ∧ (∀ (k : nat) b first last,
           bs !! k = Some b → spans s !! k = Some (first, last) →
           0 ≤ first < last ∧ last < len two_boxes
           ∧ raw b = slice two_boxes first (last + 1)).
Proof.
  eexists. split; [vm_compute; reflexivity|].
  apply (extract_boxes_offsets two_boxes (py "SC0001") ∅).
  vm_compute. reflexivity.
Defined.

Lemma unconfirmed_marker_opens_no_box_witness :
  ∃ bs, extract_boxes stray_marker (py "SC0001") ∅ = Ok bs
    ∧ ∃ s, extract_scan stray_marker (py "SC0001") ∅ = Ok s ∧ boxes s = bs
      ∧ length (spans s) = length bs
      ∧ ∀ (k : nat) b first last,
          bs !! k = Some b → spans s !! k = Some (first, last) →
          raw b = slice stray_marker first (last + 1)
          ∧ head (raw b) = stray_marker !! Z.to_nat first
          ∧ first ≠ Z.of_nat 0.
Proof.
  eexists. split; [vm_compute; reflexivity|].
  apply (unconfirmed_marker_opens_no_box stray_marker (py "SC0001") ∅ _
           0%nat (py "304")).
  - vm_compute. reflexivity.
  - reflexivity.
  - vm_compute. reflexivity.
  - intros nxt [= <-]. vm_compute. reflexivity.
Defined.

Lemma extract_boxes_marker_at_end_witness :
  step (stray_marker ++ [py "304"]) (py "SC0001") ∅ scan_init 5 (py "304")
  = Raise IndexError
  ∧ extract_boxes (stray_marker ++ [py "304"]) (py "SC0001") ∅
    = Raise IndexError
  ∧ ∃ bs, extract_boxes stray_marker (py "SC0001") ∅ = Ok bs.
Proof.
  split_and!.
  - apply (proj1 (extract_boxes_marker_at_end (stray_marker ++ [py "304"])
                    (py "SC0001") ∅)).
    + reflexivity.
    + vm_compute. reflexivity.
    + vm_compute. reflexivity.
  - apply (proj1 (proj2 (extract_boxes_marker_at_end
                           (stray_marker ++ [py "304"]) (py "SC0001") ∅))
             (py "304")).
    + vm_compute. reflexivity.
    + vm_compute. reflexivity.
  - apply (proj2 (proj2 (extract_boxes_marker_at_end stray_marker
                           (py "SC0001") ∅))).
    intros [|[|[|[|[|i]]]]] ln Hl Hm; simpl in Hl |- *; try lia;
      try discriminate Hl.
    injection Hl as <-. vm_compute in Hm. discriminate Hm.
Defined.

End extract_dialogue.

(** * Further properties *)

(** ** The text layout engine, continued *)
Section layout_more.
Import TextBoxUtils.

(** X1: the visual width of a text lies between its number of characters and
    twice that number, and it is the number of characters when no character
    of the text is wide. *)
Theorem measure_text_width_bounds (s : pystr) :
  len s ≤ measure_text_width s ≤ 2 * len s
  ∧ (Forall (λ ch, is_wide_char ch = false) s → measure_text_width s = len s).
Proof.
  unfold len. induction s as [|ch s [IH IHn]]; [by split|].
  cbn [measure_text_width length]. split.
  - destruct (is_wide_char ch); lia.
  - intros Hall. apply Forall_cons_1 in Hall as [Hch Hs].
    rewrite Hch, (IHn Hs). lia.
Qed.

(** *** Words in, words out *)

(** The lines of a list of sub-boxes, and the words of a list of lines. *)
Definition lines_of (boxes : list pystr) : list pystr :=
  flat_map (split_on NEWLINE) boxes.
Definition words_of (lines : list pystr) : list pystr :=
  flat_map (split_on SPACE) lines.

(** A word of the input: a piece between two spaces, without a newline. *)
Definition plain_word (w : pystr) : Prop := (SPACE ∉ w) ∧ (NEWLINE ∉ w).

(** The words placed so far, in the sub-boxes flushed and in the lines of
    the sub-box under construction. *)
Definition placed (st : wrap_state) : list pystr :=
  words_of (lines_of st.1 ++ st.2).

Lemma placed_flush st :
  Forall (λ l, NEWLINE ∉ l) st.2 → placed (_flush st) = placed st.
Proof.
  destruct st as [boxes lines]. unfold placed, _flush. cbn [fst snd].
  intros Hl. destruct lines as [|l lines]; [done|].
  unfold lines_of. rewrite flat_map_app. cbn [flat_map].
  by rewrite split_on_join, !app_nil_r.
Qed.

Lemma words_of_snoc lines word :
  SPACE ∉ word → words_of (lines ++ [word]) = words_of lines ++ [word].
Proof.
  intros Hsp. unfold words_of. rewrite flat_map_app. cbn [flat_map].
  by rewrite app_nil_r, split_on_no_sep.
Qed.

Lemma words_of_join lines cur word :
  SPACE ∉ word →
  words_of (lines ++ [cur ++ [SPACE] ++ word])
  = words_of (lines ++ [cur]) ++ [word].
Proof.
  intros Hsp. unfold words_of. rewrite !flat_map_app. cbn [flat_map].
  rewrite !app_nil_r. cbn [app].
  rewrite split_on_app_sep_any, (split_on_no_sep SPACE word) by done.
  by rewrite app_assoc.
Qed.

Lemma wrap_word_placed max_lines max_chars_per_line st word :
  Forall (λ l, NEWLINE ∉ l) st.2 → plain_word word →
  placed (wrap_word max_lines max_chars_per_line st word) = placed st ++ [word]
  ∧ Forall (λ l, NEWLINE ∉ l)
           (wrap_word max_lines max_chars_per_line st word).2.
Proof.
  intros Hl [Hsp Hnl]. pose proof (placed_flush st Hl) as Hflush.
  destruct st as [boxes lines]. unfold wrap_word. cbn [fst snd] in Hl.
  destruct (last lines) as [cur|] eqn:Hlast.
  - apply last_Some in Hlast as [l' ->].
    rewrite Forall_app, Forall_singleton in Hl. destruct Hl as [Hl' Hcur].
    destruct (_ <=? _).
    + unfold placed. cbn [fst snd]. rewrite length_app. cbn [length].
      replace (pred (length l' + 1)) with (length l' + 0)%nat by lia.
      rewrite insert_app_r. cbn [insert list_insert]. split.
      * by rewrite !(app_assoc (lines_of boxes)), words_of_join.
      * apply Forall_app. split; [done|]. apply Forall_singleton.
        rewrite !not_elem_of_app, not_elem_of_cons.
        split_and!; [done | done | apply not_elem_of_nil | done].
    + destruct (_ <? _).
      * unfold placed. cbn [fst snd]. split.
        -- by rewrite !(app_assoc (lines_of boxes)), words_of_snoc.
        -- rewrite !Forall_app, !Forall_singleton. by split_and!.
      * unfold placed in *. cbn [fst snd]. split.
        -- rewrite words_of_snoc by done.
           destruct (_flush (boxes, l' ++ [cur])) as [boxes' lines'] eqn:Hfl.
           assert (lines' = []) as -> by (unfold _flush in Hfl; by injection Hfl).
           cbn [fst snd] in *. by rewrite app_nil_r in Hflush; rewrite Hflush.
        -- by apply Forall_singleton.
  - apply last_None in Hlast as ->. unfold placed. cbn [fst snd]. split.
    + by rewrite app_nil_r, words_of_snoc.
    + by apply Forall_singleton.
Qed.

Lemma wrap_words_placed max_lines max_chars_per_line words st :
  Forall (λ l, NEWLINE ∉ l) st.2 → Forall plain_word words →
  placed (fold_left (wrap_word max_lines max_chars_per_line) words st)
  = placed st ++ words
  ∧ Forall (λ l, NEWLINE ∉ l)
           (fold_left (wrap_word max_lines max_chars_per_line) words st).2.
Proof.
  revert st. induction words as [|w words IH]; intros st Hl Hw; simpl.
  - by rewrite app_nil_r.
  - apply Forall_cons_1 in Hw as [Hw Hws].
    destruct (wrap_word_placed max_lines max_chars_per_line st w Hl Hw)
      as [Hp Hl'].
    destruct (IH _ Hl' Hws) as [-> Hl'']. split; [|done].
    by rewrite Hp, <- app_assoc.
Qed.

(** X2: wrapping loses no word and keeps the words in order: the words of
    the lines of the sub-boxes, one after the other, are the words of the
    input (for an input without a newline, whatever the two budgets). *)
Theorem correct_en_box_keeps_words (en_box : pystr)
    (max_lines max_chars_per_line : Z) :
  NEWLINE ∉ en_box →
  flat_map (split_on SPACE)
    (flat_map (split_on NEWLINE)
       (correct_en_box en_box max_lines max_chars_per_line))
  = split_on SPACE en_box.
Proof.
  intros Hnl. unfold correct_en_box.
  destruct (wrap_words_placed max_lines max_chars_per_line
              (split_on SPACE en_box) ([], [])) as [Hp Hl].
  - constructor.
  - apply Forall_forall. intros w Hw. split.
    + pose proof (split_on_pieces SPACE en_box) as H.
      rewrite Forall_forall in H. by apply H.
    + pose proof (split_on_avoids SPACE NEWLINE en_box Hnl) as H.
      rewrite Forall_forall in H. by apply H.
  - pose proof (placed_flush _ Hl) as Hf. rewrite Hp in Hf.
    unfold placed in Hf. simpl in Hf.
    destruct (_flush _) as [boxes lines] eqn:Hfl. simpl in *.
    assert (lines = []) as ->.
    { unfold _flush in Hfl. destruct (fold_left _ _ _). by injection Hfl. }
    by rewrite app_nil_r in Hf.
Qed.

Lemma correct_en_box_keeps_words_witness :
  flat_map (split_on SPACE)
    (flat_map (split_on NEWLINE)
       (correct_en_box (py "Hello my baby, hello my honey.") 2 10))
  = split_on SPACE (py "Hello my baby, hello my honey.").
Proof.
  apply (correct_en_box_keeps_words (py "Hello my baby, hello my honey.") 2 10).
  vm_compute. intros H.
  repeat (inversion H as [|? ? ? H']; clear H; rename H' into H; subst).
Defined.

(** *** A text that fits on one line *)

Lemma split_on_flat c s :
  ∃ w ws, split_on c s = w :: ws ∧ s = w ++ flat_map (cons c) ws.
Proof.
  induction s as [|x r (w & ws & Hs & Hr)]; cbn [split_on].
  - by exists [], [].
  - rewrite Hs. destruct (N.eqb_spec x c) as [->|Hne].
    + exists [], (w :: ws). split; [done|]. cbn [flat_map app]. by rewrite <- Hr.
    + exists (x :: w), ws. split; [done|]. cbn [app]. by rewrite <- Hr.
Qed.

Lemma wrap_words_one_line max_lines max_chars_per_line rest cur :
  measure_text_width (cur ++ flat_map (cons SPACE) rest) ≤ max_chars_per_line →
  fold_left (wrap_word max_lines max_chars_per_line) rest ([], [cur])
  = ([], [cur ++ flat_map (cons SPACE) rest]).
Proof.
  revert cur. induction rest as [|w rest IH]; intros cur Hfit;
    cbn [fold_left flat_map].
  - by rewrite app_nil_r.
  - cbn [flat_map] in Hfit.
    replace (cur ++ (SPACE :: w) ++ flat_map (cons SPACE) rest)
      with ((cur ++ [SPACE] ++ w) ++ flat_map (cons SPACE) rest) in *
      by (by rewrite <- !app_assoc).
    unfold wrap_word at 2. cbn [last].
    rewrite measure_text_width_app in Hfit.
    pose proof (measure_text_width_nonneg (flat_map (cons SPACE) rest)).
    destruct (Z.leb_spec (measure_text_width (cur ++ [SPACE] ++ w))
                max_chars_per_line); [|lia].
    cbn [length pred insert list_insert]. apply IH.
    rewrite measure_text_width_app. lia.
Qed.

(** X3: a text whose visual width is within [max_chars_per_line] comes back
    as it is and as the only sub-box, whatever [max_lines] is; the sub-box
    is one line when the text has no newline (a newline of the text stays
    in the sub-box and cuts it into more lines). *)
Theorem correct_en_box_fits_one_line (en_box : pystr)
    (max_lines max_chars_per_line : Z) :
  measure_text_width en_box ≤ max_chars_per_line →
  correct_en_box en_box max_lines max_chars_per_line = [en_box]
  ∧ (NEWLINE ∉ en_box →
     lines_of (correct_en_box en_box max_lines max_chars_per_line) = [en_box]).
Proof.
  intros Hfit.
  assert (correct_en_box en_box max_lines max_chars_per_line = [en_box])
    as Hone.
  { unfold correct_en_box.
    destruct (split_on_flat SPACE en_box) as (w & ws & -> & Hs).
    cbn [fold_left]. unfold wrap_word at 2. cbn [last].
    rewrite wrap_words_one_line by (by rewrite <- Hs).
    by rewrite <- Hs. }
  split; [done|]. intros Hnl. rewrite Hone. unfold lines_of.
  cbn [flat_map]. by rewrite app_nil_r, split_on_no_sep.
Qed.

Lemma correct_en_box_fits_one_line_witness :
  correct_en_box (py "Hello  there") 1 12 = [py "Hello  there"]
  ∧ lines_of (correct_en_box (py "Hello  there") 1 12) = [py "Hello  there"].
Proof.
  destruct (correct_en_box_fits_one_line (py "Hello  there") 1 12)
    as [Hone Hline]; [vm_compute; discriminate|].
  split; [done|]. apply Hline. vm_compute. intros H.
  repeat (inversion H as [|? ? ? H']; clear H; rename H' into H; subst).
Defined.

(** *** One container per line *)

Lemma wrap_word_lines_nonempty max_lines max_chars_per_line st word :
  (wrap_word max_lines max_chars_per_line st word).2 ≠ [].
Proof.
  destruct st as [boxes lines]. unfold wrap_word.
  destruct (last lines) as [cur|] eqn:Hlast; [|done].
  destruct (_ <=? _); cbn [snd].
  - intros Heq. apply (f_equal length) in Heq. rewrite length_insert in Heq.
    apply last_Some in Hlast as [l' ->]. rewrite length_app in Heq.
    simpl in Heq. lia.
  - destruct (_ <? _); cbn [snd]; [|done]. by destruct lines.
Qed.

(** [correct_en_box] returns at least one sub-box, the empty string for the
    empty text. *)
Lemma correct_en_box_nonempty en_box max_lines max_chars_per_line :
  correct_en_box en_box max_lines max_chars_per_line ≠ [].
Proof.
  unfold correct_en_box.
  destruct (split_on SPACE en_box) as [|w ws _] eqn:Hs using rev_ind.
  - by apply split_on_nonempty in Hs.
  - rewrite fold_left_app. cbn [fold_left].
    pose proof (wrap_word_lines_nonempty max_lines max_chars_per_line
                  (fold_left (wrap_word max_lines max_chars_per_line) ws ([], []))
                  w) as Hne.
    destruct (wrap_word _ _ _ w) as [boxes lines]. cbn [snd] in Hne.
    unfold _flush. destruct lines as [|l lines]; [done|]. cbn [fst].
    by destruct boxes.
Qed.

(** [reconcile] on what [create_english_box] gives it: one box or more, one
    container or more, no container empty. *)
Lemma reconcile_returns (jp_boxes : list pystr)
    (en_containers : list (list pystr)) :
  jp_boxes ≠ [] → en_containers ≠ [] →
  Forall (λ c, c ≠ []) en_containers →
  ∃ r, reconcile jp_boxes en_containers = Ok r
    ∧ length r = length jp_boxes
    ∧ Forall (λ c, c ≠ []) r.
Proof.
  intros Hjp Hcs Hall. unfold reconcile.
  assert (length jp_boxes ≠ 0)%nat as Hjp' by (by destruct jp_boxes).
  destruct (Z.ltb_spec (len en_containers) (len jp_boxes)) as [Hlt|Hge].
  - rewrite getitem_last.
    destruct (last en_containers) as [last_c|] eqn:Hl;
      [|by apply last_None in Hl].
    cbn [mbind res_bind].
    destruct (Z.ltb_spec (len jp_boxes - len en_containers) (len last_c))
      as [Hpop|Hflat].
    + destruct (pop_each_spec
                  (Z.to_nat (len jp_boxes - len en_containers)) last_c)
        as (new & rest & -> & Hnew & Hne & Hrest).
      { unfold len in *. lia. }
      cbn [mbind res_bind]. eexists. split; [done|]. split.
      * rewrite length_app, length_insert, length_reverse, Hnew.
        unfold len in *. lia.
      * apply Forall_app. split; [|by apply Forall_reverse].
        apply Forall_insert; [done|]. intros ->. simpl in Hrest.
        unfold len in *. lia.
    + eexists. split; [done|]. split.
      * by rewrite length_map, rechunk_length.
      * apply Forall_map, Forall_forall. intros c _.
        apply pad_empty_nonempty.
  - destruct (Z.ltb_spec (len jp_boxes) (len en_containers)) as [Hgt|Heq].
    + pose proof (len_nonneg jp_boxes).
      rewrite slice_to_nonneg, slice_from_nonneg by done.
      unfold len at 1 2. rewrite !Nat2Z.id.
      destruct (extend_last_all_spec (drop (length jp_boxes) en_containers)
                  (take (length jp_boxes) en_containers))
        as (r & -> & Hlen & Hne).
      { intros Heq. apply (f_equal length) in Heq. rewrite length_take in Heq.
        simpl in Heq. unfold len in *. lia. }
      exists r. split; [done|]. split.
      * rewrite Hlen, length_take. unfold len in Hgt. lia.
      * apply Hne. by apply Forall_take.
    + exists en_containers. split; [done|]. split; [|done].
      unfold len in *. lia.
Qed.

(** X4: [create_english_box] never raises: for every Japanese text, every
    translated text and every budget it returns exactly one container per
    line of the Japanese text, and no container is empty. *)
Theorem create_english_box_one_per_line (jp_text en_text : pystr)
    (text_lines line_width : Z) :
  ∃ en_containers,
    create_english_box jp_text en_text text_lines line_width
    = Ok en_containers
    ∧ length en_containers = length (split_on NEWLINE jp_text)
    ∧ Forall (λ c, c ≠ []) en_containers.
Proof.
  unfold create_english_box. apply reconcile_returns.
  - apply split_on_nonempty.
  - intros Heq. apply (f_equal length) in Heq. rewrite length_map in Heq.
    pose proof (split_on_nonempty NEWLINE en_text).
    by destruct (split_on NEWLINE en_text).
  - apply Forall_map, Forall_forall. intros en_box _.
    apply correct_en_box_nonempty.
Qed.

(** *** Reconciliation keeps the sub-boxes *)

(** [create_english_box] gives [reconcile] what it needs to return. *)
Lemma create_english_box_returns (jp_text en_text : pystr)
    (text_lines line_width : Z) :
  ∃ en_containers,
    reconcile (split_on NEWLINE jp_text)
      (map (λ en_box, correct_en_box en_box text_lines line_width)
           (split_on NEWLINE en_text))
    = Ok en_containers
    ∧ length en_containers = length (split_on NEWLINE jp_text)
    ∧ Forall (λ c, c ≠ []) en_containers.
Proof.
  apply reconcile_returns.
  - apply split_on_nonempty.
  - intros Heq. apply (f_equal length) in Heq. rewrite length_map in Heq.
    pose proof (split_on_nonempty NEWLINE en_text).
    by destruct (split_on NEWLINE en_text).
  - apply Forall_map, Forall_forall. intros en_box _.
    apply correct_en_box_nonempty.
Qed.

Lemma pop_each_content (need : nat) (last_c : list pystr) new rest :
  pop_each need last_c = Ok (new, rest) →
  rest ++ concat (reverse new) = last_c.
Proof.
  revert last_c new rest. induction need as [|n IH]; intros last_c new rest;
    cbn [pop_each].
  - intros [= <- <-]. by rewrite app_nil_r.
  - destruct (last last_c) as [x|] eqn:Hl; [|done].
    apply last_Some in Hl as [l' ->].
    rewrite length_app. cbn [length].
    replace (pred (length l' + 1)) with (length l') by lia.
    rewrite take_app_length.
    destruct (pop_each n l') as [[new' rest']|e] eqn:Hp; [|done].
    cbn [mbind res_bind]. intros [= <- <-].
    rewrite reverse_cons, concat_app. cbn [concat]. rewrite app_nil_r.
    by rewrite app_assoc, (IH l' new' rest').
Qed.

Lemma extend_last_all_content (extras en_containers r : list (list pystr)) :
  extend_last_all en_containers extras = Ok r →
  concat r = concat en_containers ++ concat extras.
Proof.
  revert en_containers. induction extras as [|c extras IH]; intros cs;
    cbn [extend_last_all].
  - intros [= <-]. by rewrite app_nil_r.
  - unfold extend_last. destruct (last cs) as [l|] eqn:Hl; [|done].
    cbn [mbind res_bind]. intros Hr. rewrite (IH _ Hr).
    apply last_Some in Hl as [l' ->].
    rewrite length_app. cbn [length].
    replace (pred (length l' + 1)) with (length l' + 0)%nat by lia.
    rewrite insert_app_r. cbn [insert list_insert concat].
    rewrite !concat_app. cbn [concat]. by rewrite !app_nil_r, <- !app_assoc.
Qed.

(** The sum of the sizes of the [n] chunks from index [i] on. *)
Fixpoint chunk_sizes (div rem : Z) (n : nat) (i : Z) : Z :=
  match n with
  | O => 0
  | S n' => (if i <? rem then div + 1 else div) + chunk_sizes div rem n' (i + 1)
  end.

Lemma chunk_sizes_closed div rem n i :
  0 ≤ i → 0 ≤ rem →
  chunk_sizes div rem n i
  = Z.of_nat n * div + (Z.min rem (i + Z.of_nat n) - Z.min rem i).
Proof.
  revert i. induction n as [|n IH]; intros i Hi Hrem; cbn [chunk_sizes].
  - lia.
  - rewrite IH by lia. destruct (Z.ltb_spec i rem); lia.
Qed.

Lemma chunk_sizes_nonneg div rem n i : 0 ≤ div → 0 ≤ chunk_sizes div rem n i.
Proof.
  intros Hdiv. revert i. induction n as [|n IH]; intros i; cbn [chunk_sizes];
    [done|].
  specialize (IH (i + 1)). destruct (i <? rem); lia.
Qed.

Lemma slice_app {A} (l : list A) (a b c : Z) :
  0 ≤ a ≤ b → b ≤ c → c ≤ len l →
  slice l a b ++ slice l b c = slice l a c.
Proof.
  intros Hab Hbc Hc. rewrite !slice_nonneg by lia. unfold len in Hc.
  rewrite <- (take_drop (Z.to_nat b) (take (Z.to_nat c) l)) at 2.
  rewrite take_take, Nat.min_l by lia.
  rewrite drop_app_le; [done|]. rewrite length_take. lia.
Qed.

Lemma rechunk_concat flat div rem n i idx :
  0 ≤ idx → 0 ≤ div → idx + chunk_sizes div rem n i ≤ len flat →
  concat (rechunk flat div rem n i idx)
  = slice flat idx (idx + chunk_sizes div rem n i).
Proof.
  intros Hidx Hdiv. revert i idx Hidx.
  induction n as [|n IH]; intros i idx Hidx Hle;
    cbn [rechunk chunk_sizes concat] in *.
  - rewrite Z.add_0_r, slice_nonneg by lia. rewrite drop_ge; [done|].
    rewrite length_take. lia.
  - pose proof (chunk_sizes_nonneg div rem n (i + 1) Hdiv).
    set (size := if i <? rem then div + 1 else div) in *.
    assert (0 ≤ size) by (unfold size; destruct (i <? rem); lia).
    rewrite IH by lia.
    rewrite slice_app by lia. f_equal. lia.
Qed.

Lemma filter_concat_pad (cs : list (list pystr)) :
  filter (λ sub, sub ≠ []) (concat (map pad_empty cs))
  = filter (λ sub, sub ≠ []) (concat cs).
Proof.
  induction cs as [|c cs IH]; [done|].
  cbn [map concat]. rewrite !filter_app, IH. by destruct c.
Qed.

(** [reconcile] loses no sub-box and keeps them in order, on containers that
    are distinct list objects: the sub-boxes of the containers returned, one
    after the other and the empty strings apart, are those of the containers
    given; and they are exactly those, empty strings included, when there
    are at least as many containers as boxes. *)
Lemma reconcile_content (jp_boxes : list pystr)
    (en_containers r : list (list pystr)) :
  reconcile jp_boxes en_containers = Ok r →
  filter (λ sub, sub ≠ []) (concat r)
  = filter (λ sub, sub ≠ []) (concat en_containers)
  ∧ (length jp_boxes ≤ length en_containers → concat r = concat en_containers)%nat.
Proof.
  unfold reconcile.
  destruct (Z.ltb_spec (len en_containers) (len jp_boxes)) as [Hlt|Hge].
  - rewrite getitem_last.
    destruct (last en_containers) as [last_c|] eqn:Hl; [|done].
    cbn [mbind res_bind]. apply last_Some in Hl as [cs' ->].
    destruct (Z.ltb_spec (len jp_boxes - len (cs' ++ [last_c])) (len last_c))
      as [Hpop|Hflat].
    + destruct (pop_each _ last_c) as [[new rest]|e] eqn:Hp; [|done].
      cbn [mbind res_bind]. intros [= <-].
      apply pop_each_content in Hp.
      assert (concat (<[pred (length (cs' ++ [last_c])) := rest]>
                        (cs' ++ [last_c]) ++ reverse new)
              = concat (cs' ++ [last_c])) as ->; [|split; done].
      rewrite length_app. cbn [length].
      replace (pred (length cs' + 1)) with (length cs' + 0)%nat by lia.
      rewrite insert_app_r. cbn [insert list_insert].
      rewrite !concat_app. cbn [concat].
      by rewrite !app_nil_r, <- app_assoc, Hp.
    + intros [= <-]. split; [|unfold len in Hlt; lia].
      rewrite filter_concat_pad. f_equal.
      set (flat := concat (cs' ++ [last_c])).
      pose proof (len_nonneg flat) as Hflat0.
      assert (0 < len jp_boxes) as Hjp
        by (pose proof (len_nonneg (cs' ++ [last_c])); lia).
      pose proof (Z.div_mod (len flat) (len jp_boxes) ltac:(lia)) as Hdm.
      pose proof (Z.mod_pos_bound (len flat) (len jp_boxes) Hjp) as Hmod.
      pose proof (Z.div_pos (len flat) (len jp_boxes) Hflat0 Hjp) as Hdiv.
      assert (chunk_sizes (len flat `div` len jp_boxes)
                (len flat `mod` len jp_boxes) (length jp_boxes) 0
              = len flat) as Hsum.
      { rewrite chunk_sizes_closed by lia. fold (len jp_boxes). lia. }
      rewrite rechunk_concat by lia. rewrite Hsum, Z.add_0_l.
      rewrite slice_nonneg by lia. unfold len. rewrite Nat2Z.id.
      change (Z.to_nat 0) with 0%nat. cbn [drop]. by rewrite take_ge by lia.
  - destruct (Z.ltb_spec (len jp_boxes) (len en_containers)) as [Hgt|Heq].
    + intros Hr. apply extend_last_all_content in Hr.
      pose proof (len_nonneg jp_boxes).
      rewrite slice_to_nonneg, slice_from_nonneg in Hr by done.
      rewrite <- concat_app, take_drop in Hr. by rewrite Hr.
    + by intros [= <-].
Qed.

(** X5: [create_english_box] loses no sub-box and keeps them in order. It
    wraps each line of the translation with [correct_en_box], into a list of
    its own, and reconciles these lists with the lines of the Japanese text:
    the sub-boxes of the containers it returns, one after the other and the
    empty strings apart, are the sub-boxes of the lines of the translation,
    in the order of the lines; and they are exactly those, empty strings
    included, when the translation has at least as many lines as the
    Japanese text. *)
Theorem create_english_box_keeps_sub_boxes (jp_text en_text : pystr)
    (text_lines line_width : Z) :
  ∃ en_containers,
    create_english_box jp_text en_text text_lines line_width
    = Ok en_containers
    ∧ filter (λ sub, sub ≠ []) (concat en_containers)
      = filter (λ sub, sub ≠ [])
          (flat_map (λ en_box, correct_en_box en_box text_lines line_width)
                    (split_on NEWLINE en_text))
    ∧ ((length (split_on NEWLINE jp_text)
        ≤ length (split_on NEWLINE en_text))%nat →
       concat en_containers
       = flat_map (λ en_box, correct_en_box en_box text_lines line_width)
                  (split_on NEWLINE en_text)).
Proof.
  unfold create_english_box.
  destruct (create_english_box_returns jp_text en_text text_lines line_width)
    as (r & Hr & _).
  exists r. split; [done|].
  destruct (reconcile_content _ _ _ Hr) as [Hsubs Hall].
  rewrite length_map in Hall.
  by rewrite flat_map_concat_map.
Qed.

End layout_more.

(** ** The label scout and the code generator, continued *)
Section code_more.
Import CodeUtils.

Lemma getitem_in_range {A} (l : list A) (i : Z) :
  - len l ≤ i < len l → ∃ x, getitem l i = Ok x ∧ x ∈ l.
Proof.
  intros Hi. unfold getitem.
  set (j := if i <? 0 then len l + i else i).
  assert (0 ≤ j < len l) as Hj by (unfold j; destruct (Z.ltb_spec i 0); lia).
  destruct (Z.ltb_spec j 0); [lia|].
  destruct (Z.leb_spec (len l) j); [lia|]. cbn [orb].
  destruct (l !! Z.to_nat j) as [x|] eqn:Hl.
  - exists x. split; [done|]. by eapply list_elem_of_lookup_2.
  - apply lookup_ge_None in Hl. unfold len in *. lia.
Qed.

(** With a template of one line or more, [find_label_before] returns. *)
Lemma find_label_before_returns (code label_template : list pystr) :
  label_template ≠ [] →
  ∃ label, find_label_before code label_template = Ok label
    ∧ (label = [] ∨ label ∈ code).
Proof.
  intros Ht. rewrite find_label_before_matches.
  destruct (matches code label_template) as [|m [|m' ms]] eqn:Hm;
    [by exists []; split; [|left] | | by exists []; split; [|left]].
  assert (m ∈ matches code label_template) as Hin
    by (rewrite Hm; apply list_elem_of_here).
  apply elem_of_matches in Hin as (before & after & -> & <-).
  destruct (getitem_in_range (before ++ label_template ++ after)
              (len before - 1)) as (x & -> & Hx).
  - rewrite !len_app. pose proof (len_nonneg before).
    pose proof (len_nonneg after).
    assert (0 < len label_template)
      by (destruct label_template; [done|]; unfold len; simpl; lia).
    lia.
  - exists x. split; [done | by right].
Qed.

(** X6: with a template of one line or more, [find_label_before] never
    raises, and what it returns is the empty string or a line of the
    script; so [init_labels], whose templates have one line and two, never
    raises, and each label it sets is the empty string or a line of the
    script. *)
Theorem find_label_before_total (code : list pystr) :
  (∀ label_template, label_template ≠ [] →
     ∃ label, find_label_before code label_template = Ok label
       ∧ (label = [] ∨ label ∈ code))
  ∧ ∃ lb, init_labels code = Ok lb
      ∧ (current_char_label lb = [] ∨ current_char_label lb ∈ code)
      ∧ (current_narr_label lb = [] ∨ current_narr_label lb ∈ code).
Proof.
  split; [intros t; apply find_label_before_returns|].
  unfold init_labels.
  destruct (find_label_before_returns code new_char_text_box_label_template)
    as (c & -> & Hc); [done|].
  destruct (find_label_before_returns code new_narr_text_box_label_template)
    as (n & -> & Hn); [done|].
  by exists (Labels c n).
Qed.

(** X7: what [find_label_before] returns, by the number of places the
    template occurs at: the empty string when there is none; the empty
    string when there are two or more; and, when there is one and a line
    precedes it, that line. *)
Theorem find_label_before_cases (code label_template : list pystr) :
  ((∀ i, ¬ occurs_at code label_template i) →
   find_label_before code label_template = Ok [])
  ∧ (∀ i j, occurs_at code label_template i → occurs_at code label_template j →
            i ≠ j → find_label_before code label_template = Ok [])
  ∧ (∀ before after label,
       code = before ++ [label] ++ label_template ++ after →
       (∀ j, occurs_at code label_template j → j = len before + 1) →
       find_label_before code label_template = Ok label).
Proof.
  split_and!.
  - apply find_label_before_absent.
  - apply find_label_before_ambiguous.
  - apply find_label_before_unique.
Qed.

(** *** The standard variant *)

(** The two instructions the inner loop of [create_text_box_code] emits for
    the line [l]. *)
Definition text_line_code (l : pystr) : list pystr :=
  [show_text (sanitized l); py "end-text-line 0"].

Lemma text_lines_fold lines fc :
  fold_left (λ fc l, fc ++ [show_text (replace shitter safe_shitter l);
                            py "end-text-line 0"]) lines fc
  = fc ++ flat_map text_line_code lines.
Proof.
  revert fc. induction lines as [|l lines IH]; intros fc; cbn [fold_left flat_map].
  - by rewrite app_nil_r.
  - rewrite IH. by rewrite <- app_assoc.
Qed.

Lemma text_lines_last lines :
  lines ≠ [] →
  ∃ body, flat_map text_line_code lines = body ++ [py "end-text-line 0"].
Proof.
  intros Hne. destruct lines as [|l lines _] using rev_ind; [done|].
  exists (flat_map text_line_code lines ++ [show_text (sanitized l)]).
  rewrite flat_map_app. cbn [flat_map]. unfold text_line_code.
  by rewrite <- app_assoc.
Qed.

(** What one iteration of [create_text_box_code] appends: a blank line, the
    code of the lines with its last [end-text-line 0] taken off, the trailer
    of the sub-box, and the bridge when another sub-box follows. *)
Lemma text_box_step_shape lb speaker n fc b box :
  ∃ body,
    flat_map text_line_code (split_on NEWLINE box)
      = body ++ [py "end-text-line 0"]
    ∧ text_box_step lb speaker n fc (b, box)
      = fc ++ [[]] ++ body
        ++ [py "wait-for-input 0"; py "end-text-line 0"; []]
        ++ (if negb (b =? n - 1) then bridge lb speaker else []).
Proof.
  destruct (text_lines_last (split_on NEWLINE box)) as [body Hbody];
    [apply split_on_nonempty|].
  exists body. split; [done|]. unfold text_box_step.
  rewrite text_lines_fold, Hbody.
  replace ((fc ++ [[]]) ++ body ++ [py "end-text-line 0"])
    with ((fc ++ [[]] ++ body) ++ [py "end-text-line 0"])
    by (by rewrite <- !app_assoc).
  rewrite slice_to_minus_one.
  destruct (negb (b =? n - 1)); rewrite <- ?app_assoc; [done|].
  by rewrite app_nil_r.
Qed.

Lemma text_box_step_extends lb speaker n fc item :
  fc `prefix_of` text_box_step lb speaker n fc item.
Proof.
  destruct item as [b box].
  destruct (text_box_step_shape lb speaker n fc b box) as (body & _ & ->).
  by apply prefix_app_r.
Qed.

Lemma text_box_fold_extends lb speaker n items fc :
  fc `prefix_of` fold_left (text_box_step lb speaker n) items fc.
Proof.
  revert fc. induction items as [|item items IH]; intros fc; simpl; [done|].
  etrans; [apply text_box_step_extends | apply IH].
Qed.

Lemma text_lines_member lines l :
  l ∈ lines →
  ∃ k, flat_map text_line_code lines !! k = Some (show_text (sanitized l))
     ∧ flat_map text_line_code lines !! S k = Some (py "end-text-line 0").
Proof.
  induction lines as [|l' lines IH]; intros Hl; [by apply elem_of_nil in Hl|].
  apply elem_of_cons in Hl as [->|Hl].
  - by exists 0%nat.
  - destruct (IH Hl) as (k & H1 & H2). by exists (S (S k)).
Qed.

Lemma text_box_step_emits lb speaker n fc b box l :
  l ∈ split_on NEWLINE box →
  show_text (sanitized l) ∈ text_box_step lb speaker n fc (b, box).
Proof.
  intros Hl.
  destruct (text_box_step_shape lb speaker n fc b box) as (body & Hbody & ->).
  destruct (text_lines_member _ l Hl) as (k & H1 & H2).
  rewrite Hbody in H1, H2.
  assert (S k < length (body ++ [py "end-text-line 0"]))%nat as Hlt
    by (by apply lookup_lt_Some in H2).
  rewrite length_app in Hlt. cbn [length] in Hlt.
  rewrite lookup_app_l in H1 by lia.
  rewrite !elem_of_app. right. right. left.
  by eapply list_elem_of_lookup_2.
Qed.

Lemma text_box_fold_emits lb speaker n items fc b box l :
  (b, box) ∈ items → l ∈ split_on NEWLINE box →
  show_text (sanitized l) ∈ fold_left (text_box_step lb speaker n) items fc.
Proof.
  revert fc. induction items as [|item items IH]; intros fc Hin Hl;
    [by apply elem_of_nil in Hin|].
  apply elem_of_cons in Hin as [<-|Hin]; cbn [fold_left]; [|by apply IH].
  pose proof (text_box_step_emits lb speaker n fc b box l Hl) as Hstep.
  apply list_elem_of_lookup in Hstep as [k Hk].
  apply list_elem_of_lookup. exists k.
  eapply prefix_lookup_Some; [done | apply text_box_fold_extends].
Qed.

(** X8: the standard variant shows every line of every sub-box: the
    show-text instruction with the line, its double quotes replaced by the
    substitute, is among the instructions of [create_text_box_code], and its
    text has no double quote left. *)
Theorem text_box_code_shows_lines (lb : labels) (en_box : list pystr)
    (speaker box l : pystr) :
  box ∈ en_box → l ∈ split_on NEWLINE box →
  show_text (replace shitter safe_shitter l)
    ∈ create_text_box_code lb en_box speaker
  ∧ (QUOTE ∉ replace shitter safe_shitter l).
Proof.
  intros Hbox Hl. split; [|apply sanitized_no_quote].
  destruct (elem_of_enumerate en_box box Hbox) as [b Hb].
  by apply (text_box_fold_emits _ _ _ _ _ b box).
Qed.

Lemma text_box_code_shows_lines_witness :
  show_text (replace shitter safe_shitter (py "there"))
    ∈ create_text_box_code (Labels [] [])
        [py "Hello" ++ [NEWLINE] ++ py "there"; py "again"] (py "Narrator")
  ∧ (QUOTE ∉ replace shitter safe_shitter (py "there")).
Proof.
  apply (text_box_code_shows_lines (Labels [] [])
           [py "Hello" ++ [NEWLINE] ++ py "there"; py "again"]
           (py "Narrator") (py "Hello" ++ [NEWLINE] ++ py "there") (py "there")).
  - apply list_elem_of_here.
  - vm_compute. apply list_elem_of_further, list_elem_of_here.
Defined.

(** *** Start markers in the generated code *)

(** The lines of [code] the detector takes for a start marker, in a scene
    file named [file_name]. *)
Definition start_markers (file_name : pystr) (code : list pystr) : list pystr :=
  filter (λ x, ExtractDialogue.is_box_start (strip x) file_name = true) code.

Lemma filter_none {A} (P : A → Prop) `{∀ x, Decision (P x)} (l : list A) :
  Forall (λ x, ¬ P x) l → filter P l = [].
Proof.
  induction l as [|x l IH]; intros Hall; [done|].
  apply Forall_cons_1 in Hall as [Hx Hl].
  rewrite filter_cons_False by done. by apply IH.
Qed.

(** No marker starts with an [s]; none starts with a [c] but the call of
    the SG scenes. *)
Lemma head_s_not_start r file_name :
  ExtractDialogue.is_box_start (strip (115%N :: r)) file_name = false.
Proof.
  destruct (strip_cons_nonspace 115%N r) as [r' ->]; [done|].
  unfold ExtractDialogue.is_box_start.
  rewrite !bool_decide_eq_false_2 by discriminate.
  by rewrite andb_false_r.
Qed.

Lemma head_c_not_start r file_name :
  contains file_name (py "SG") = false →
  ExtractDialogue.is_box_start (strip (99%N :: r)) file_name = false.
Proof.
  intros Hfn. destruct (strip_cons_nonspace 99%N r) as [r' ->]; [done|].
  unfold ExtractDialogue.is_box_start.
  rewrite !bool_decide_eq_false_2 by discriminate.
  by rewrite Hfn.
Qed.

Lemma closed_not_start line file_name :
  ExtractDialogue.is_box_start (strip line) (py "X") = false →
  contains file_name (py "SG") = false →
  ExtractDialogue.is_box_start (strip line) file_name = false.
Proof.
  unfold ExtractDialogue.is_box_start. intros H Hfn. rewrite Hfn.
  apply orb_false_elim in H as [H _]. by rewrite H.
Qed.

Lemma text_lines_not_start lines file_name :
  Forall (λ x, ¬ ExtractDialogue.is_box_start (strip x) file_name = true)
         (flat_map text_line_code lines).
Proof.
  induction lines as [|l lines IH]; [constructor|].
  cbn [flat_map]. apply Forall_app. split; [|done].
  unfold text_line_code. apply Forall_cons. split.
  - unfold show_text.
    change (py "show-text 0 " ++ [QUOTE] ++ sanitized l ++ [QUOTE])
      with (115%N :: py "how-text 0 " ++ [QUOTE] ++ sanitized l ++ [QUOTE]).
    by rewrite head_s_not_start.
  - apply Forall_singleton.
    assert (ExtractDialogue.is_box_start (strip (py "end-text-line 0"))
              file_name = false) as ->; [|done].
    unfold ExtractDialogue.is_box_start.
    rewrite !bool_decide_eq_false_2 by (by vm_compute).
    by rewrite andb_false_r.
Qed.

(** The bridge holds one start marker, its last line. *)
Lemma bridge_start_markers lb speaker file_name :
  contains file_name (py "SG") = false →
  start_markers file_name (bridge lb speaker) = [py "u00416120"].
Proof.
  intros Hfn. unfold start_markers.
  assert (∀ line, ExtractDialogue.is_box_start (strip line) (py "X") = false →
                  ¬ ExtractDialogue.is_box_start (strip line) file_name = true)
    as Hclosed.
  { intros line H. by rewrite (closed_not_start line file_name H Hfn). }
  assert (∀ r, ¬ ExtractDialogue.is_box_start (strip (py "call " ++ r))
                   file_name = true) as Hcall.
  { intros r. change (py "call " ++ r) with (99%N :: py "all " ++ r).
    by rewrite head_c_not_start. }
  assert (¬ ExtractDialogue.is_box_start
              (strip (py "comment " ++ [QUOTE] ++ py "Extra Textbox "
                      ++ speaker ++ [QUOTE])) file_name = true) as Hcomment.
  { change (py "comment " ++ [QUOTE] ++ py "Extra Textbox " ++ speaker
            ++ [QUOTE])
      with (99%N :: py "omment " ++ [QUOTE] ++ py "Extra Textbox " ++ speaker
            ++ [QUOTE]).
    by rewrite head_c_not_start. }
  unfold bridge. rewrite !filter_app.
  rewrite (filter_none _ [_; _; _; _]);
    [|repeat (apply Forall_cons; split); try apply Forall_nil;
      (done || (apply Hclosed; by vm_compute))].
  rewrite (filter_cons_False _ (py "308 1")) by (apply Hclosed; by vm_compute).
  rewrite (filter_cons_False _ (py "u004213E0 1"))
    by (apply Hclosed; by vm_compute).
  rewrite (filter_cons_True _ (py "u00416120")) by (by vm_compute).
  rewrite filter_nil. cbn [app].
  rewrite filter_none; [done|].
  destruct (bool_decide _).
  - apply Forall_app. split.
    + destruct (current_narr_label lb); [constructor|].
      by apply Forall_singleton.
    + apply Forall_singleton, Hclosed. by vm_compute.
  - apply Forall_cons. split.
    + apply Hclosed. by vm_compute.
    + destruct (current_char_label lb); [constructor|].
      by apply Forall_singleton.
Qed.

Lemma text_box_step_start_markers lb speaker n fc b box file_name :
  contains file_name (py "SG") = false →
  start_markers file_name (text_box_step lb speaker n fc (b, box))
  = start_markers file_name fc
    ++ (if negb (b =? n - 1) then [py "u00416120"] else []).
Proof.
  intros Hfn.
  destruct (text_box_step_shape lb speaker n fc b box) as (body & Hbody & ->).
  pose proof (text_lines_not_start (split_on NEWLINE box) file_name) as Hns.
  rewrite Hbody, Forall_app in Hns. destruct Hns as [Hns _].
  assert (∀ line, ExtractDialogue.is_box_start (strip line) (py "X") = false →
                  ¬ ExtractDialogue.is_box_start (strip line) file_name = true)
    as Hclosed.
  { intros line H. by rewrite (closed_not_start line file_name H Hfn). }
  unfold start_markers in *. rewrite !filter_app.
  rewrite (filter_none _ [[]]) by (apply Forall_singleton, Hclosed; by vm_compute).
  rewrite (filter_none _ body) by done.
  rewrite (filter_none _ [_; _; _])
    by (repeat (apply Forall_cons; split); try (by constructor);
        apply Hclosed; by vm_compute).
  cbn [app]. f_equal. destruct (negb _); [|done].
  by apply bridge_start_markers.
Qed.

Lemma text_box_fold_start_markers lb speaker file_name boxes :
  contains file_name (py "SG") = false →
  ∀ (i : nat) (n : Z) fc,
    n = Z.of_nat (i + length boxes) →
    length (start_markers file_name
              (fold_left (text_box_step lb speaker n)
                 (zip (map Z.of_nat (seq i (length boxes))) boxes) fc))
    = (length (start_markers file_name fc) + (length boxes - 1))%nat.
Proof.
  intros Hfn. induction boxes as [|box boxes IH]; intros i n fc Hn.
  - cbn [length seq map zip zip_with fold_left]. lia.
  - cbn [length seq map zip zip_with fold_left].
    rewrite (IH (S i) n) by (cbn [length] in Hn; lia).
    rewrite text_box_step_start_markers by done.
    rewrite length_app. cbn [length] in Hn.
    destruct (Z.eqb_spec (Z.of_nat i) (n - 1)) as [Heq|Hne]; cbn [negb length].
    + assert (length boxes = 0)%nat by lia. lia.
    + assert (length boxes ≠ 0)%nat by lia. lia.
Qed.

(** X9: in a scene that is no SG scene, the code [create_text_box_code]
    generates for n sub-boxes holds exactly n - 1 lines that the detector
    takes for a start marker, one for each sub-box after the first (the
    marker of the first is the one the splicer leaves in place). *)
Theorem text_box_code_start_markers (lb : labels) (en_box : list pystr)
    (speaker file_name : pystr) :
  contains file_name (py "SG") = false →
  length (start_markers file_name (create_text_box_code lb en_box speaker))
  = (length en_box - 1)%nat.
Proof.
  intros Hfn. unfold create_text_box_code, enumerate, range, len.
  rewrite Nat2Z.id.
  by rewrite (text_box_fold_start_markers lb speaker file_name en_box Hfn 0).
Qed.

Lemma text_box_code_start_markers_witness :
  length (start_markers (py "SC0001")
            (create_text_box_code (Labels (py "label_1") (py "label_2"))
               [py "one"; py "two"; py "three"] (py "Narrator")))
  = (length [py "one"; py "two"; py "three"] - 1)%nat.
Proof.
  apply (text_box_code_start_markers (Labels (py "label_1") (py "label_2"))
           [py "one"; py "two"; py "three"] (py "Narrator") (py "SC0001")).
  reflexivity.
Defined.

Lemma lstrip_app_nonspace a c b :
  isspace c = false → ∃ a', lstrip (a ++ c :: b) = a' ++ c :: b.
Proof.
  intros Hc. induction a as [|x a [a' IH]]; cbn [app lstrip].
  - rewrite Hc. by exists [].
  - destruct (isspace x); [by exists a'|]. by exists (x :: a).
Qed.

(** Stripping keeps a prefix of two characters that are no white space. *)
Lemma strip_two_nonspace c1 c2 r :
  isspace c1 = false → isspace c2 = false →
  ∃ r', strip (c1 :: c2 :: r) = c1 :: c2 :: r'.
Proof.
  intros H1 H2. unfold strip, rstrip. cbn [lstrip]. rewrite H1.
  rewrite !reverse_cons, <- app_assoc. cbn [app].
  destruct (lstrip_app_nonspace (reverse r) c2 [c1] H2) as [a' ->].
  exists (reverse a'). rewrite reverse_app. by rewrite reverse_cons.
Qed.

Lemma concat_lines_not_start lines file_name :
  Forall (λ x, ¬ ExtractDialogue.is_box_start (strip x) file_name = true)
         (flat_map concat_line_code lines).
Proof.
  induction lines as [|l lines IH]; [constructor|].
  cbn [flat_map]. apply Forall_app. split; [|done].
  unfold concat_line_code. repeat (apply Forall_cons; split);
    try (by constructor).
  - unfold show_text.
    change (py "show-text 0 " ++ [QUOTE] ++ l ++ [QUOTE])
      with (115%N :: py "how-text 0 " ++ [QUOTE] ++ l ++ [QUOTE]).
    by rewrite head_s_not_start.
  - unfold concat_bbb.
    destruct (strip_two_nonspace 99%N 111%N
                (py "ncat (global-string bbb) (global-string bbb) "
                 ++ [QUOTE] ++ sanitized l ++ [QUOTE])) as [r' Hr];
      [done | done |].
    change (py "concat (global-string bbb) (global-string bbb) " ++ [QUOTE]
            ++ sanitized l ++ [QUOTE])
      with (99%N :: 111%N
            :: py "ncat (global-string bbb) (global-string bbb) "
            ++ [QUOTE] ++ sanitized l ++ [QUOTE]).
    rewrite Hr. unfold ExtractDialogue.is_box_start.
    rewrite !bool_decide_eq_false_2 by discriminate.
    by rewrite andb_false_r.
  - assert (ExtractDialogue.is_box_start (strip (py "end-text-line 0"))
              file_name = false) as ->; [|done].
    unfold ExtractDialogue.is_box_start.
    rewrite !bool_decide_eq_false_2 by (by vm_compute).
    by rewrite andb_false_r.
Qed.

Lemma blank_not_start file_name :
  ¬ ExtractDialogue.is_box_start (strip []) file_name = true.
Proof.
  unfold ExtractDialogue.is_box_start.
  rewrite !bool_decide_eq_false_2 by (by vm_compute).
  by rewrite andb_false_r.
Qed.

Lemma end_text_line_not_start file_name :
  ¬ ExtractDialogue.is_box_start (strip (py "end-text-line 0")) file_name = true.
Proof.
  unfold ExtractDialogue.is_box_start.
  rewrite !bool_decide_eq_false_2 by (by vm_compute).
  by rewrite andb_false_r.
Qed.

Lemma concat_step_not_start n fc item file_name :
  Forall (λ x, ¬ ExtractDialogue.is_box_start (strip x) file_name = true) fc →
  Forall (λ x, ¬ ExtractDialogue.is_box_start (strip x) file_name = true)
         (concat_step n fc item).
Proof.
  intros Hfc. destruct item as [b box]. unfold concat_step.
  rewrite concat_lines_fold.
  assert (Forall (λ x, ¬ ExtractDialogue.is_box_start (strip x) file_name = true)
            (slice_to ((fc ++ [[]])
                       ++ flat_map concat_line_code (split_on NEWLINE box))
                      (-1) ++ [[]])) as Hall.
  { apply Forall_app. split; [|apply Forall_singleton, blank_not_start].
    unfold slice_to. apply Forall_take. rewrite !Forall_app.
    split_and!; [done | apply Forall_singleton, blank_not_start |
                 apply concat_lines_not_start]. }
  destruct (negb _); [|done].
  apply Forall_app. split; [|apply Forall_singleton, end_text_line_not_start].
  unfold slice_to at 1. by apply Forall_take.
Qed.

(** X10: the concat variant and the SG variant never emit a line that the
    detector takes for a start marker, whatever the scene file is called:
    the box they fill stays one box. *)
Theorem concat_and_sg_code_no_start_marker (en_box : list pystr)
    (file_name : pystr) :
  start_markers file_name (create_text_box_code_concat en_box) = []
  ∧ start_markers file_name (create_text_box_code_SG en_box) = [].
Proof.
  split; apply filter_none.
  - unfold create_text_box_code_concat.
    generalize (enumerate en_box) (len en_box). intros items n.
    assert (Forall (λ x, ¬ ExtractDialogue.is_box_start (strip x) file_name
                         = true) []) as Hnil by constructor.
    revert Hnil. generalize (@nil pystr).
    induction items as [|item items IH]; intros fc Hfc; cbn [fold_left];
      [done|].
    by apply IH, concat_step_not_start.
  - unfold create_text_box_code_SG. destruct en_box as [|box _]; [constructor|].
    rewrite text_lines_fold. rewrite !Forall_app.
    split_and!; [apply Forall_singleton, blank_not_start |
                 apply text_lines_not_start |
                 apply Forall_singleton, blank_not_start].
Qed.

End code_more.

(** ** The script splicer, continued *)
Section splicer_more.
Import Reinsert.

Lemma text_box_end_loop_runs_out (k : nat) script lookat :
  0 ≤ lookat → Z.to_nat (len script - lookat) = k →
  (∀ i ln, lookat ≤ i → getitem script i = Ok ln → is_text_cmd ln = true) →
  text_box_end_loop script lookat = Raise IndexError.
Proof.
  revert lookat. induction k as [|k IH]; intros lookat H0 Hk Hall;
    rewrite text_box_end_loop_unfold.
  - rewrite getitem_past_end; [done | lia].
  - destruct (getitem script lookat) as [ln|e] eqn:Hg.
    + cbn [mbind res_bind]. rewrite (Hall lookat ln) by (done || lia).
      apply IH; [lia | lia |]. intros i ln' Hi. apply Hall. lia.
    + by rewrite (getitem_raises _ _ _ Hg).
Qed.

Lemma text_box_end_loop_range script :
  ∀ (n : nat) lookat e,
    Z.to_nat (len script - lookat) = n →
    text_box_end_loop script lookat = Ok e → lookat ≤ e < len script.
Proof.
  induction n as [|n IH]; intros lookat e Hn;
    rewrite text_box_end_loop_unfold;
    destruct (getitem script lookat) as [ln|err] eqn:Hg; try done;
    apply getitem_Ok_lt in Hg; [lia|].
  cbn [mbind res_bind]. destruct (is_text_cmd ln).
  - intros He. apply IH in He; lia.
  - intros [= <-]. lia.
Qed.

(** X11: from a start that is a position of the script (or the position
    before the first), the lookahead of the splicer raises [IndexError]
    exactly when every line after the start is a text command; otherwise it
    returns a position after the start. *)
Theorem find_text_box_end_unterminated (script : list pystr)
    (text_box_start : Z) :
  -1 ≤ text_box_start →
  (find_text_box_end script text_box_start = Raise IndexError
   ↔ ∀ i ln, text_box_start < i → getitem script i = Ok ln →
             is_text_cmd ln = true)
  ∧ (∀ e, find_text_box_end script text_box_start = Ok e →
          text_box_start < e < len script).
Proof.
  intros Hs. rewrite find_text_box_end_loop. split; [split|].
  - intros Hraise i ln Hi Hg. destruct (is_text_cmd ln) eqn:Hln; [done|].
    destruct (first_non_text_cmd (Z.to_nat (i - (text_box_start + 1))) script
                (text_box_start + 1)) as (k & _ & Hbody & Hstop); [lia| |].
    { exists ln.
      by replace (text_box_start + 1
                  + Z.of_nat (Z.to_nat (i - (text_box_start + 1))))
        with i by lia. }
    by rewrite (text_box_end_loop_first k script (text_box_start + 1)
                  ltac:(lia) Hbody Hstop) in Hraise.
  - intros Hall.
    apply (text_box_end_loop_runs_out
             (Z.to_nat (len script - (text_box_start + 1)))); [lia | done |].
    intros i ln Hi. apply Hall. lia.
  - intros e He. apply (text_box_end_loop_range _ _ _ _ eq_refl) in He. lia.
Qed.

Lemma find_text_box_end_unterminated_witness :
  (find_text_box_end [py "u00416120"; py "show-text 0 a"] 0 = Raise IndexError
   ↔ ∀ i ln, 0 < i →
       getitem [py "u00416120"; py "show-text 0 a"] i = Ok ln →
       is_text_cmd ln = true)
  ∧ (∀ e, find_text_box_end [py "u00416120"; py "show-text 0 a"] 0 = Ok e →
          0 < e < len [py "u00416120"; py "show-text 0 a"]).
Proof.
  apply (find_text_box_end_unterminated
           [py "u00416120"; py "show-text 0 a"] 0).
  lia.
Defined.

(** *** The whole loop *)

(** What one splice does, when it returns. *)
Lemma splice_box_returns code_map script p i d p' script' :
  0 ≤ p + d → splice_box code_map p script i d = Ok (p', script') →
  ∃ g, code_map !! i = Some g
     ∧ p' = p + d + len g
     ∧ ∃ e, p + d < e < len script
          ∧ script' = take (Z.to_nat (p + d + 1)) script ++ g
                      ++ drop (Z.to_nat e) script.
Proof.
  intros Hs. unfold splice_box, subscript. rewrite find_text_box_end_loop.
  destruct (text_box_end_loop script (p + d + 1)) as [e|err] eqn:He; [|done].
  cbn [mbind res_bind]. destruct (code_map !! i) as [g|]; [|done].
  cbn [mbind res_bind]. intros [= <- <-].
  apply (text_box_end_loop_range _ _ _ _ eq_refl) in He.
  exists g. split; [done|]. split; [lia|]. exists e. split; [lia|].
  by rewrite slice_to_nonneg, slice_from_nonneg by lia.
Qed.

(** The offsets and the lengths of the generated blocks of the boxes still
    to splice, added up. *)
Fixpoint cursor_advance (code_map : gmap Z (list pystr))
    (todo : list (Z * jp_box)) : Z :=
  match todo with
  | [] => 0
  | (i, jp_dict) :: todo' =>
      offset jp_dict + len (default [] (code_map !! i))
      + cursor_advance code_map todo'
  end.

(** X12: when the second loop of [craft_into_script] returns, from a cursor
    that is a position and over boxes whose offsets are not negative, the
    cursor has advanced by the offsets and the lengths of the generated
    blocks, added up, and no line up to the cursor it started from has
    changed: what was spliced before is left alone. *)
Theorem splice_boxes_cursor (code_map : gmap Z (list pystr)) (p : Z)
    (script : list pystr) (todo : list (Z * jp_box)) (p' : Z)
    (script' : list pystr) :
  0 ≤ p → Forall (λ item, 0 ≤ offset item.2) todo →
  splice_boxes code_map p script todo = Ok (p', script') →
  p' = p + cursor_advance code_map todo
  ∧ p ≤ p'
  ∧ (∀ i, 0 ≤ i ≤ p → getitem script' i = getitem script i).
Proof.
  revert p script. induction todo as [|[i jp_dict] todo IH];
    intros p script Hp Hoff; cbn [splice_boxes cursor_advance].
  - intros [= <- <-]. split_and!; [lia | lia | done].
  - apply Forall_cons_1 in Hoff as [Hd Hoff]. cbn [snd] in Hd.
    destruct (splice_box code_map p script i (offset jp_dict))
      as [[p1 script1]|err] eqn:Hstep; [|done].
    cbn [mbind res_bind]. intros Hrest.
    apply splice_box_returns in Hstep as (g & -> & -> & e & He & ->); [|lia].
    change (default [] (Some g)) with g.
    pose proof (len_nonneg g).
    assert (0 ≤ p + offset jp_dict + len g) as Hp1 by lia.
    destruct (IH _ _ Hp1 Hoff Hrest) as (-> & Hle & Hsame).
    split_and!; [lia | lia |].
    intros k Hk. rewrite Hsame by lia. rewrite !getitem_nonneg by lia.
    rewrite lookup_app_l by (rewrite length_take; unfold len in He; lia).
    by rewrite lookup_take_lt by lia.
Qed.

Lemma splice_boxes_cursor_witness :
  let script := [py "u00416120"; py "show-text 0 x"; py "end-text-line 0";
                 py "mov 1"] in
  let script' := [py "u00416120"; py "show-text 0 y"; py "mov 1"] in
  let todo := [(0, mkJpBox (py "x") (py "Narrator") 0)] in
  let code_map : gmap Z (list pystr) := {[ 0 := [py "show-text 0 y"] ]} in
  1 = 0 + cursor_advance code_map todo
  ∧ 0 ≤ 1
  ∧ (∀ i, 0 ≤ i ≤ 0 → getitem script' i = getitem script i).
Proof.
  intros script script' todo code_map.
  apply (splice_boxes_cursor code_map 0 script todo 1 script').
  - lia.
  - apply Forall_singleton. simpl. lia.
  - vm_compute. reflexivity.
Defined.

End splicer_more.

(** ** The chunk collapser, continued *)
Section refine_more.
Import Refine.

(** The chunks are the chunks of the maximal runs of the boxes. *)
Lemma collapse_boxes_runs (boxes : list box) :
  ∃ groups : list (list box),
    concat groups = boxes
    ∧ Forall is_run groups
    ∧ runs_maximal groups
    ∧ _collapse_boxes boxes = chunks_from 1 groups.
Proof.
  destruct boxes as [|b0 rest].
  - exists []. split_and!; [done | constructor | done | done].
  - assert (is_run [b0]) as Hrun.
    { split; [done|]. intros b' Hb'.
      apply list_elem_of_singleton in Hb'. by subst. }
    destruct (collapse_loop rest [] [b0] 1 Hrun)
      as (groups & g0 & Hcat & Hruns & Hmax & _ & Heq).
    exists (g0 :: groups). split_and!; [done | done | done |].
    unfold _collapse_boxes. simpl in Heq.
    change (run_speaker [b0]) with (box_speaker b0) in Heq.
    destruct (fold_left collapse_step rest
                ([], box_speaker b0, [box_text b0], 1))
      as [[[chunks' cs] cl] i']. exact Heq.
Qed.

(** *** The text of a scene *)

Lemma join_app sep (l1 l2 : list pystr) :
  l1 ≠ [] → l2 ≠ [] →
  join sep (l1 ++ l2) = join sep l1 ++ sep ++ join sep l2.
Proof.
  intros H1 H2. induction l1 as [|x [|y l1] IH]; [done| |].
  - destruct l2; [done|]. done.
  - change (join sep ((x :: y :: l1) ++ l2))
      with (x ++ sep ++ join sep ((y :: l1) ++ l2)).
    rewrite IH by done.
    change (join sep (x :: y :: l1)) with (x ++ sep ++ join sep (y :: l1)).
    by rewrite <- !app_assoc.
Qed.

Lemma join_chunks i (groups : list (list box)) :
  Forall is_run groups →
  join [NEWLINE] (map chunk_text (chunks_from i groups))
  = join [NEWLINE] (map box_text (concat groups)).
Proof.
  intros Hruns. revert i.
  induction Hruns as [|g groups [Hne _] Hruns IH]; intros i; [done|].
  cbn [chunks_from map concat]. rewrite map_app.
  destruct groups as [|g' groups].
  - cbn [chunks_from map concat join]. by rewrite app_nil_r.
  - assert (map box_text (concat (g' :: groups)) ≠ []) as Hrest.
    { apply Forall_cons_1 in Hruns as [[Hne' _] _].
      cbn [concat]. rewrite map_app. by destruct g'. }
    rewrite join_app; [|by destruct g | done].
    rewrite <- (IH (i + 1)). by cbn [chunks_from map join chunk_of chunk_text].
Qed.

(** X13: collapsing keeps the text of the scene: the texts of the chunks
    joined by newlines are the texts of the boxes joined by newlines. *)
Theorem collapse_boxes_keeps_text (boxes : list box) :
  join [NEWLINE] (map chunk_text (_collapse_boxes boxes))
  = join [NEWLINE] (map box_text boxes).
Proof.
  destruct (collapse_boxes_runs boxes) as (groups & Hcat & Hruns & _ & ->).
  rewrite <- Hcat. by apply join_chunks.
Qed.

End refine_more.

(** ** The box detector, continued *)
Section detector_more.
Import ExtractDialogue.

Lemma slice_lookup {A} (l : list A) (a b : Z) (k : nat) :
  0 ≤ a → 0 ≤ b → (Z.to_nat a + k < Z.to_nat b)%nat →
  slice l a b !! k = l !! (Z.to_nat a + k)%nat.
Proof.
  intros Ha Hb Hk. rewrite slice_nonneg by done.
  rewrite lookup_drop. by apply lookup_take_lt.
Qed.

Lemma tail_slice {A} (l : list A) (a b : Z) :
  0 ≤ a → 0 ≤ b → tail (slice l a b) = slice l (a + 1) b.
Proof.
  intros Ha Hb. rewrite !slice_nonneg by lia.
  replace (Z.to_nat (a + 1)) with (S (Z.to_nat a)) by lia.
  generalize (take (Z.to_nat b) l). intros l'.
  generalize (Z.to_nat a). intros n. revert l'.
  induction n as [|n IH]; intros [|x l']; try done.
  simpl. apply IH.
Qed.

Lemma slice_from_one {A} (l : list A) : slice_from l 1 = tail l.
Proof.
  rewrite slice_from_nonneg by lia. by destruct l as [|x l].
Qed.

(** *** What the scan keeps of the lines it has read *)
Section scan_shape.
Variable lines : list pystr.
Variable file_name : pystr.
Variable name_map : gmap Z pystr.

(** What the [k]-th box emitted owes to the code of [close]. *)
Definition box_shape (k : nat) (b : TextBox) : Prop :=
  idx b = Z.of_nat k + 1
  ∧ jp_text b = join_text (tail (raw b))
  ∧ (speaker b = py "Narrator" ∨ ∃ id, name_map !! id = Some (speaker b))
  ∧ Forall (λ ln, is_text_cmd (strip ln) = true) (tail (raw b)).

(** The line after the last line of a span, if there is one, is no text
    command. *)
Definition span_closed (sp : Z * Z) : Prop :=
  ∀ ln, lines !! Z.to_nat (sp.2 + 1) = Some ln → is_text_cmd (strip ln) = false.

Record shape (s : scan) : Prop := mkShape {
  shape_boxes : ∀ (k : nat) b, boxes s !! k = Some b → box_shape k b;
  shape_spans : Forall span_closed (spans s);
  shape_buf : Forall (λ ln, is_text_cmd (strip ln) = true) (tail (buf s))
}.

Lemma shape_init : shape scan_init.
Proof. split; [by intros k b | constructor | constructor]. Qed.

Lemma speaker_name_range pending :
  speaker_name name_map pending = py "Narrator"
  ∨ ∃ id, name_map !! id = Some (speaker_name name_map pending).
Proof.
  unfold speaker_name. destruct pending as [id|]; [|by left]. simpl.
  destruct (name_map !! id) as [n|] eqn:Hn; [|by left].
  right. by exists id.
Qed.

Lemma track_speaker_shape s st : shape s → shape (track_speaker s st).
Proof.
  intros [Hb Hs Hbuf]. unfold track_speaker.
  destruct (LOOKUP_6623 st); [done|]. by destruct (waiting_mov s).
Qed.

Lemma close_shape s n :
  shape s → 0 ≤ n →
  (∀ ln, lines !! Z.to_nat n = Some ln → is_text_cmd (strip ln) = false) →
  shape (close name_map s (n - 1)).
Proof.
  intros [Hb Hs Hbuf] Hn Hstop. unfold close.
  destruct (in_box s && match buf s with [] => false | _ :: _ => true end);
    split; cbn [boxes spans buf tail]; try done; try apply Forall_nil_2.
  - intros k b Hk. apply lookup_app_Some in Hk as [Hk|[Hge Hk]]; [by apply Hb|].
    apply list_lookup_singleton_Some in Hk as [Hk <-].
    assert (k = length (boxes s)) as -> by lia.
    split_and!; cbn [idx jp_text speaker raw]; [done | | | done].
    + by rewrite slice_from_one.
    + apply speaker_name_range.
  - rewrite Forall_app, Forall_singleton. split; [done|].
    intros ln. cbn [snd]. replace (n - 1 + 1) with n by lia. apply Hstop.
Qed.

Lemma try_start_shape s idx ln s' :
  shape s → try_start lines s idx ln = Ok s' → shape s'.
Proof.
  intros [Hb Hs Hbuf]. unfold try_start.
  destruct (getitem lines (idx + 1)) as [nxt|e]; [|done]. cbn [mbind res_bind].
  destruct (negb _); intros [= <-]; [done|]. by split.
Qed.

Lemma tail_snoc_text (l : list pystr) ln :
  Forall (λ ln, is_text_cmd (strip ln) = true) (tail l) →
  is_text_cmd (strip ln) = true →
  Forall (λ ln, is_text_cmd (strip ln) = true) (tail (l ++ [ln])).
Proof.
  intros Hl Hln. destruct l as [|x l]; [constructor|].
  cbn [app tail] in *. rewrite Forall_app, Forall_singleton. done.
Qed.

Lemma step_shape s n ln s' :
  shape s → 0 ≤ n → lines !! Z.to_nat n = Some ln →
  step lines file_name name_map s n ln = Ok s' → shape s'.
Proof.
  intros Hshape Hn Hln. unfold step.
  apply (track_speaker_shape _ (strip ln)) in Hshape.
  set (s1 := track_speaker s (strip ln)) in *. clearbody s1.
  destruct (in_box s1); cbn [negb].
  - destruct (is_text_cmd (strip ln)) eqn:Htext.
    + intros [= <-]. destruct Hshape as [Hb Hs Hbuf].
      split; [done | done |]. by apply tail_snoc_text.
    + assert (shape (close name_map s1 (n - 1))) as Hclosed.
      { apply close_shape; [done | done |]. intros ln'. rewrite Hln.
        by intros [= <-]. }
      destruct (is_box_start (strip ln) file_name).
      * by apply try_start_shape.
      * by intros [= <-].
  - destruct (is_box_start (strip ln) file_name).
    + by apply try_start_shape.
    + destruct (after_u s1); [|by intros [= <-]].
      destruct (is_text_cmd (strip ln)) eqn:Htext; intros [= <-];
        destruct Hshape as [Hb Hs Hbuf].
      * split; [done | done |]. by apply tail_snoc_text.
      * split; [done | done | constructor].
Qed.

Lemma run_shape rest :
  ∀ pre s s',
    lines = pre ++ rest → shape s →
    run lines file_name name_map s (len pre) rest = Ok s' → shape s'.
Proof.
  induction rest as [|ln rest IH]; intros pre s s' Hlines Hshape;
    cbn [run].
  - by intros [= <-].
  - destruct (step lines file_name name_map s (len pre) ln) as [s1|e] eqn:Hstep;
      [|done].
    cbn [mbind res_bind].
    replace (len pre + 1) with (len (pre ++ [ln])) by (rewrite len_app; done).
    apply IH; [by rewrite <- app_assoc|].
    apply (step_shape s (len pre) ln); [done | apply len_nonneg | | done].
    rewrite Hlines. unfold len. rewrite Nat2Z.id.
    by rewrite lookup_app_r, Nat.sub_diag.
Qed.

Lemma extract_scan_shape s :
  extract_scan lines file_name name_map = Ok s → shape s.
Proof.
  unfold extract_scan.
  destruct (run lines file_name name_map scan_init 0 lines) as [s1|e] eqn:Hrun;
    [|done].
  cbn [mbind res_bind]. intros [= <-].
  apply close_shape; [|apply len_nonneg|].
  - by apply (run_shape lines [] scan_init).
  - intros ln Hln. apply lookup_lt_Some in Hln. unfold len in Hln. lia.
Qed.

End scan_shape.

(** *** The boxes of a scene *)

(** X14: the [k]-th box of [extract_boxes] (from 0) has the index [k + 1];
    its speaker is [Narrator] or a name of the name map; its raw lines are a
    start marker, then a line that starts with [show-text], then more lines,
    all of them after the marker text commands; and its text is [join_text]
    of the lines after the marker. *)
Theorem extract_boxes_box_shape (lines : list pystr) (file_name : pystr)
    (name_map : gmap Z pystr) (bs : list TextBox) :
  extract_boxes lines file_name name_map = Ok bs →
  ∀ (k : nat) b, bs !! k = Some b →
    idx b = Z.of_nat k + 1
    ∧ (speaker b = py "Narrator" ∨ ∃ id, name_map !! id = Some (speaker b))
    ∧ ∃ marker first_line body,
        raw b = marker :: first_line :: body
        ∧ is_box_start (strip marker) file_name = true
        ∧ startswith first_line (py "show-text") = true
        ∧ Forall (λ ln, is_text_cmd (strip ln) = true) (first_line :: body)
        ∧ jp_text b = join_text (first_line :: body).
Proof.
  intros Hbs k b Hb.
  destruct (extract_boxes_scan _ _ _ _ Hbs) as (s & Hs & <-).
  pose proof (extract_scan_chain _ _ _ _ Hs) as Hc.
  destruct (extract_scan_shape _ _ _ _ Hs) as [Hshape _ _].
  destruct (Hshape k b Hb) as (Hidx & Hjp & Hsp & Htext).
  split; [done|]. split; [done|].
  destruct (lookup_lt_is_Some_2 (spans s) k) as [[first last] Hspan].
  { rewrite (chain_length _ _ _ _ _ Hc). by apply lookup_lt_Some in Hb. }
  destruct (chain_lookup _ _ _ _ _ k b (first, last) Hc Hb Hspan)
    as (q & Hq & _ & Hlt & _ & Hraw & H0 & ln & nxt & Hln & Hstart & Hnxt
        & Hshow).
  cbn [fst snd] in *.
  assert (raw b !! 0%nat = Some ln) as H1.
  { rewrite Hraw, slice_lookup by lia. by rewrite Nat.add_0_r. }
  assert (raw b !! 1%nat = Some nxt) as H2.
  { rewrite Hraw, slice_lookup by lia.
    by replace (Z.to_nat first + 1)%nat with (Z.to_nat (first + 1)) by lia. }
  destruct (raw b) as [|marker [|first_line body]]; [done | done |].
  injection H1 as ->. injection H2 as ->.
  by exists ln, nxt, body.
Qed.

Lemma extract_boxes_box_shape_witness :
  ∃ bs, extract_boxes two_boxes (py "SC0001") ∅ = Ok bs
    ∧ ∀ (k : nat) b, bs !! k = Some b →
        idx b = Z.of_nat k + 1
        ∧ (speaker b = py "Narrator"
           ∨ ∃ id, (∅ : gmap Z pystr) !! id = Some (speaker b))
        ∧ ∃ marker first_line body,
            raw b = marker :: first_line :: body
            ∧ is_box_start (strip marker) (py "SC0001") = true
            ∧ startswith first_line (py "show-text") = true
            ∧ Forall (λ ln, is_text_cmd (strip ln) = true) (first_line :: body)
            ∧ jp_text b = join_text (first_line :: body).
Proof.
  eexists. split; [vm_compute; reflexivity|].
  apply (extract_boxes_box_shape two_boxes (py "SC0001") ∅).
  vm_compute. reflexivity.
Defined.

(** *** The detector and the splicer *)

(** The extent of the [k]-th box on the script: its lines after the marker
    are text commands, and the line after its last line, if there is one,
    is none. *)
Lemma box_extent lines file_name name_map s (k : nat) first last :
  extract_scan lines file_name name_map = Ok s →
  spans s !! k = Some (first, last) →
  0 ≤ first < last ∧ last < len lines
  ∧ (∃ q b, 0 ≤ q ∧ boxes s !! k = Some b
            ∧ box_ok lines file_name q b (first, last))
  ∧ (∀ i ln, first < i ≤ last → lines !! Z.to_nat i = Some ln →
             Reinsert.is_text_cmd ln = true)
  ∧ (∀ ln, lines !! Z.to_nat (last + 1) = Some ln →
           Reinsert.is_text_cmd ln = false).
Proof.
  intros Hs Hspan.
  pose proof (extract_scan_chain _ _ _ _ Hs) as Hc.
  destruct (extract_scan_shape _ _ _ _ Hs) as [Hshape Hclosed _].
  destruct (lookup_lt_is_Some_2 (boxes s) k) as [b Hb].
  { rewrite <- (chain_length _ _ _ _ _ Hc). by apply lookup_lt_Some in Hspan. }
  destruct (chain_lookup _ _ _ _ _ k b (first, last) Hc Hb Hspan)
    as (q & Hq & Hbox).
  pose proof Hbox as (Hq' & Hlt & _ & Hraw & H0 & _).
  destruct (Hshape k b Hb) as (_ & _ & _ & Htext).
  cbn [fst snd] in *.
  split_and!; [lia | lia | lia | by exists q, b | |].
  - intros i ln Hi Hln.
    rewrite Hraw, tail_slice in Htext by lia.
    rewrite Forall_lookup in Htext.
    apply (Htext (Z.to_nat (i - (first + 1)))).
    rewrite slice_lookup by lia.
    by replace (Z.to_nat (first + 1) + Z.to_nat (i - (first + 1)))%nat
      with (Z.to_nat i) by lia.
  - rewrite Forall_lookup in Hclosed. apply (Hclosed k _ Hspan).
Qed.

(** The lookahead of the splicer over lines [first + 1 .. last] that are text
    commands, followed by a line that is none. *)
Lemma find_text_box_end_extent lines first last :
  0 ≤ first < last → last + 1 < len lines →
  (∀ i ln, first < i ≤ last → lines !! Z.to_nat i = Some ln →
           Reinsert.is_text_cmd ln = true) →
  (∀ ln, lines !! Z.to_nat (last + 1) = Some ln →
         Reinsert.is_text_cmd ln = false) →
  Reinsert.find_text_box_end lines first = Ok (last + 1).
Proof.
  intros Hfirst Hlt Hbody Hstop. rewrite find_text_box_end_loop.
  destruct (lookup_lt_is_Some_2 lines (Z.to_nat (last + 1))) as [ln Hln].
  { unfold len in Hlt. lia. }
  replace (last + 1) with (first + 1 + Z.of_nat (Z.to_nat (last - first)))
    by lia.
  apply text_box_end_loop_first; [lia | |].
  - intros i ln' Hi Hg. apply getitem_Ok_nonneg in Hg; [|lia].
    apply (Hbody i); [lia | done].
  - exists ln.
    replace (first + 1 + Z.of_nat (Z.to_nat (last - first))) with (last + 1)
      by lia.
    split; [by apply getitem_Ok_nonneg; [lia|] | by apply Hstop].
Qed.

(** X15: on the script the boxes were detected in, the lookahead of the
    splicer from the first line of a box stops at the line after the last
    line of that box; when the box ends with the script, it raises
    [IndexError]. The detector accepts a box that runs to the end of the
    script, the splicer does not. *)
Theorem find_text_box_end_of_box (lines : list pystr) (file_name : pystr)
    (name_map : gmap Z pystr) (s : scan) (k : nat) (first last : Z) :
  extract_scan lines file_name name_map = Ok s →
  spans s !! k = Some (first, last) →
  Reinsert.find_text_box_end lines first
  = if last + 1 <? len lines then Ok (last + 1) else Raise IndexError.
Proof.
  intros Hs Hspan.
  destruct (box_extent _ _ _ _ _ _ _ Hs Hspan)
    as (Hfirst & Hlast & _ & Hbody & Hstop).
  destruct (Z.ltb_spec (last + 1) (len lines)) as [Hlt|Hge].
  - by apply find_text_box_end_extent.
  - rewrite find_text_box_end_loop.
    apply (text_box_end_loop_runs_out
             (Z.to_nat (len lines - (first + 1)))); [lia | done |].
    intros i ln Hi Hg. pose proof (getitem_Ok_lt _ _ _ Hg) as Hi'.
    apply getitem_Ok_nonneg in Hg; [|lia]. apply (Hbody i); [lia | done].
Qed.

(** A scene whose only box runs to the end of the script. *)
Definition box_at_end : list pystr :=
  [py "mov (local-int 0) 1"; py "u00416120"; py "show-text 0 a";
   py "end-text-line 0"].

Lemma find_text_box_end_of_box_witness :
  Reinsert.find_text_box_end two_boxes 4
  = (if 6 + 1 <? len two_boxes then Ok (6 + 1) else Raise IndexError)
  ∧ Reinsert.find_text_box_end box_at_end 1
    = (if 3 + 1 <? len box_at_end then Ok (3 + 1) else Raise IndexError).
Proof.
  split.
  - eapply (find_text_box_end_of_box two_boxes (py "SC0001") ∅ _ 1%nat 4 6).
    + vm_compute. reflexivity.
    + reflexivity.
  - eapply (find_text_box_end_of_box box_at_end (py "SC0001") ∅ _ 0%nat 1 3).
    + vm_compute. reflexivity.
    + reflexivity.
Defined.

(** *** Splicing the boxes of a scene back *)

(** The dict [run_extract_dialogue] writes for a box, as the splicer reads
    it back: the keys [text], [speaker] and [offset]. *)
Definition box_dict (b : TextBox) : Reinsert.jp_box :=
  Reinsert.mkJpBox (jp_text b) (speaker b) (offset b).

(** The position of the last line of the last of the boxes [bs], counted
    from the cursor [p] as the splicer counts. *)
Definition end_of_boxes (p : Z) (bs : list TextBox) : Z :=
  foldl (λ p b, p + offset b + len (raw b) - 1) p bs.

Lemma range_lookup n (k : nat) key :
  CodeUtils.range n !! k = Some key → key = Z.of_nat k.
Proof.
  unfold CodeUtils.range. rewrite list_lookup_fmap.
  destruct (seq 0 (Z.to_nat n) !! k) as [j|] eqn:Hj; [|done].
  apply lookup_seq in Hj as [-> _]. by intros [= <-].
Qed.

Lemma range_length n : length (CodeUtils.range n) = Z.to_nat n.
Proof. unfold CodeUtils.range. by rewrite length_map, length_seq. Qed.

Lemma slice_middle {A} (l : list A) (a b : Z) :
  0 ≤ a ≤ b →
  slice_to l a ++ slice l a b ++ slice_from l b = l.
Proof.
  intros Hab. rewrite slice_to_nonneg, slice_nonneg, slice_from_nonneg by lia.
  rewrite app_assoc.
  replace (take (Z.to_nat a) l)
    with (take (Z.to_nat a) (take (Z.to_nat b) l))
    by (rewrite take_take; f_equal; lia).
  by rewrite !take_drop.
Qed.

Lemma splice_chain lines file_name (code_map : gmap Z (list pystr)) :
  ∀ bs sps prev_end keys,
    0 ≤ prev_end →
    chain lines file_name prev_end bs sps →
    Forall (λ b, Forall (λ ln, Reinsert.is_text_cmd ln = true) (tail (raw b)))
           bs →
    Forall (λ sp : Z * Z,
              sp.2 + 1 < len lines
              ∧ ∀ ln, lines !! Z.to_nat (sp.2 + 1) = Some ln →
                      Reinsert.is_text_cmd ln = false) sps →
    Forall2 (λ key b, code_map !! key = Some (tail (raw b))) keys bs →
    Reinsert.splice_boxes code_map prev_end lines (zip keys (map box_dict bs))
    = Ok (end_of_boxes prev_end bs, lines).
Proof.
  induction bs as [|b bs IH]; intros [|[first last] sps] prev_end keys Hp;
    cbn [chain]; try done.
  - intros _ _ _ Hkeys. by inversion Hkeys.
  - intros [Hbox Hc] Htext Hclosed Hkeys.
    inversion Hkeys as [|key b' keys' bs' Hkey Hkeys' Ek Eb]; subst.
    apply Forall_cons_1 in Htext as [Hbody Htext].
    apply Forall_cons_1 in Hclosed as [[Hlt Hstop] Hclosed].
    destruct Hbox as (Hq & Hfl & Hoff & Hraw & H0 & _).
    cbn [fst snd] in *.
    cbn [map zip zip_with Reinsert.splice_boxes].
    unfold Reinsert.splice_box, Reinsert.subscript.
    change (Reinsert.offset (box_dict b)) with (offset b).
    rewrite Hoff. replace (prev_end + (first - prev_end)) with first by lia.
    rewrite (find_text_box_end_extent lines first last); [|lia|lia| |done].
    + rewrite Hkey. cbn [mbind res_bind].
      assert (tail (raw b) = slice lines (first + 1) (last + 1)) as Htail
        by (rewrite Hraw; apply tail_slice; lia).
      rewrite Htail, slice_middle by lia.
      rewrite slice_length by lia.
      change (zip_with pair keys' (map box_dict bs))
        with (zip keys' (map box_dict bs)).
      replace (last + 1 - (first + 1) + first) with last by lia.
      rewrite (IH sps last keys'); [|lia|done|done|done|done].
      cbn [end_of_boxes foldl]. rewrite Hoff, Hraw, slice_length by lia.
      do 3 f_equal. lia.
    + intros i ln Hi Hln.
      rewrite Hraw, tail_slice in Hbody by lia.
      rewrite Forall_lookup in Hbody.
      apply (Hbody (Z.to_nat (i - (first + 1)))).
      rewrite slice_lookup by lia.
      by replace (Z.to_nat (first + 1) + Z.to_nat (i - (first + 1)))%nat
        with (Z.to_nat i) by lia.
Qed.

(** X16: the boxes of [extract_boxes] lead the splicer back over the script
    they come from. When the last line of the script is no text command and
    the code of every box is its own lines after the marker, the second
    loop of [craft_into_script], from the cursor 0 and over the dicts of the
    boxes, returns the script unchanged, with the cursor on the last line
    of the last box: each offset takes the cursor from the last line of one
    box to the marker of the next. *)
Theorem splice_own_boxes (lines : list pystr) (file_name : pystr)
    (name_map : gmap Z pystr) (bs : list TextBox)
    (code_map : gmap Z (list pystr)) :
  extract_boxes lines file_name name_map = Ok bs →
  (∀ ln, last lines = Some ln → Reinsert.is_text_cmd ln = false) →
  (∀ (k : nat) b, bs !! k = Some b →
                  code_map !! Z.of_nat k = Some (tail (raw b))) →
  Reinsert.splice_boxes code_map 0 lines
    (CodeUtils.enumerate (map box_dict bs))
  = Ok (end_of_boxes 0 bs, lines).
Proof.
  intros Hbs Hlast Hcode.
  destruct (extract_boxes_scan _ _ _ _ Hbs) as (s & Hs & <-).
  pose proof (extract_scan_chain _ _ _ _ Hs) as Hc.
  destruct (extract_scan_shape _ _ _ _ Hs) as [Hshape _ _].
  apply (splice_chain lines file_name code_map (boxes s) (spans s));
    [done | done | | |].
  - apply Forall_lookup. intros k b Hb.
    by destruct (Hshape k b Hb) as (_ & _ & _ & Htext).
  - apply Forall_lookup. intros k [first final] Hspan.
    destruct (box_extent _ _ _ _ _ _ _ Hs Hspan)
      as (Hfirst & Hlt & _ & Hbody & Hstop).
    cbn [snd]. split; [|done].
    destruct (decide (final + 1 < len lines)) as [|Hend]; [done|].
    exfalso.
    destruct (lookup_lt_is_Some_2 lines (Z.to_nat final)) as [ln Hln].
    { unfold len in Hlt. lia. }
    assert (last lines = Some ln) as Hl.
    { rewrite last_lookup. rewrite <- Hln. f_equal. unfold len in *. lia. }
    specialize (Hlast ln Hl).
    rewrite (Hbody final ln) in Hlast; [done|lia|done].
  - apply Forall2_same_length_lookup. split.
    + rewrite range_length. unfold len. rewrite length_map. lia.
    + intros k key b Hkey Hb. apply range_lookup in Hkey as ->.
      by apply Hcode.
Qed.

Lemma splice_own_boxes_witness :
  Reinsert.splice_boxes
    {[ 0 := [py "show-text 0 a"; py "end-text-line 0"];
       1 := [py "show-text 0 b"; py "wait-for-input 0"] ]}
    0 two_boxes
    (CodeUtils.enumerate
       (map box_dict
          [mkTextBox 1 (py "Narrator") 1 [] (slice two_boxes 1 4);
           mkTextBox 2 (py "Narrator") 1 [] (slice two_boxes 4 7)]))
  = Ok (end_of_boxes 0
          [mkTextBox 1 (py "Narrator") 1 [] (slice two_boxes 1 4);
           mkTextBox 2 (py "Narrator") 1 [] (slice two_boxes 4 7)],
        two_boxes).
Proof.
  apply (splice_own_boxes two_boxes (py "SC0001") ∅).
  - vm_compute. reflexivity.
  - intros ln [= <-]. vm_compute. reflexivity.
  - intros [|[|k]] b; cbn [lookup list_lookup]; try done; by intros [= <-].
Defined.

End detector_more.

(** ** Reading the generated code back *)
Section read_back.
Import CodeUtils ExtractDialogue.

Lemma join_text_app l1 l2 : join_text (l1 ++ l2) = join_text l1 ++ join_text l2.
Proof. unfold join_text. by rewrite flat_map_app, concat_app. Qed.

Lemma startswith_app p r : startswith (p ++ r) p = true.
Proof.
  induction p as [|a p IH]; [by destruct r|]. cbn [app startswith].
  by rewrite N.eqb_refl, IH.
Qed.

Lemma lstrip_cons c r : isspace c = false → lstrip (c :: r) = c :: r.
Proof. intros Hc. simpl. by rewrite Hc. Qed.

Lemma lit_app p r : lit p (p ++ r) = Some r.
Proof. unfold lit. by rewrite startswith_app, drop_app_length. Qed.

Lemma search_head {A} (m : pystr → option A) s x :
  m s = Some x → search m s = Some x.
Proof. intros H. destruct s; simpl; by rewrite H. Qed.

Lemma span_of_all f s : Forall (λ c, f c = true) s → span_of f s = s.
Proof.
  induction 1 as [|c s Hc _ IH]; [done|]. simpl. by rewrite Hc, IH.
Qed.

(** The greedy group of [SHOW_RE] on a text without newline that a quote
    closes is the text, whatever quotes it holds. *)
Lemma dot_star_quote_closed t :
  NEWLINE ∉ t → dot_star_quote (t ++ [QUOTE]) = Some t.
Proof.
  intros Ht. unfold dot_star_quote. rewrite span_of_all.
  - rewrite reverse_app. cbn [reverse app after_quote].
    change (reverse [QUOTE]) with [QUOTE]. cbn [app after_quote].
    rewrite N.eqb_refl. cbn [fmap option_fmap option_map].
    by rewrite reverse_involutive.
  - apply Forall_app. split; [|by apply Forall_singleton].
    apply Forall_forall. intros c Hc.
    destruct (N.eqb_spec c NEWLINE) as [->|]; [done | done].
Qed.

Lemma bind_some {A B} (f : A → option B) (x : A) : Some x ≫= f = f x.
Proof. done. Qed.

Lemma show_re_show_text t : NEWLINE ∉ t → SHOW_RE (show_text t) = Some t.
Proof.
  intros Ht. unfold SHOW_RE, show_text, pieces. cbn [fold_left].
  change (py "show-text 0 " ++ [QUOTE] ++ t ++ [QUOTE])
    with (py "show-text 0" ++ SPACE :: QUOTE :: t ++ [QUOTE]).
  rewrite bind_some, lit_app, bind_some. cbn [spaces].
  change (isspace SPACE) with true. cbn iota.
  rewrite lstrip_cons by done. rewrite bind_some.
  change (QUOTE :: t ++ [QUOTE]) with ([QUOTE] ++ t ++ [QUOTE]).
  rewrite lit_app, bind_some. by apply dot_star_quote_closed.
Qed.

(** [join_text] reads the text of a [show-text 0] instruction back. *)
Lemma join_text_show_text t : NEWLINE ∉ t → join_text [show_text t] = unesc t.
Proof.
  intros Ht. unfold join_text. cbn [flat_map].
  rewrite (search_head _ _ t) by (by apply show_re_show_text).
  unfold show_text.
  change (py "show-text 0 " ++ [QUOTE] ++ t ++ [QUOTE])
    with (115%N :: py "how-text 0" ++ SPACE :: QUOTE :: t ++ [QUOTE]).
  rewrite lstrip_cons by done.
  change (115%N :: py "how-text 0" ++ SPACE :: QUOTE :: t ++ [QUOTE])
    with (py "show-text 0" ++ SPACE :: QUOTE :: t ++ [QUOTE]).
  rewrite startswith_app. cbn [app concat]. by rewrite app_nil_r.
Qed.

(** A line whose first character is no white space, no [s] and no [d] has
    no text. *)
Lemma join_text_other c r :
  isspace c = false → c ≠ 115%N → c ≠ 100%N → join_text [c :: r] = [].
Proof.
  intros Hc Hs Hd. unfold join_text. cbn [flat_map].
  rewrite lstrip_cons by done.
  change (py "show-text 0") with (115%N :: py "how-text 0").
  change (py "display-furigana 0") with (100%N :: py "isplay-furigana 0").
  cbn [startswith].
  destruct (N.eqb_spec 115 c) as [<-|_]; [done|].
  destruct (N.eqb_spec 100 c) as [<-|_]; [done|]. done.
Qed.

Lemma join_text_cons ln l : join_text (ln :: l) = join_text [ln] ++ join_text l.
Proof. apply (join_text_app [ln] l). Qed.

Lemma sanitized_no_newline l : NEWLINE ∉ l → NEWLINE ∉ sanitized l.
Proof.
  rewrite sanitized_map. intros Hl Hin.
  apply list_elem_of_fmap in Hin as (c & Hc & Hin).
  destruct (N.eqb_spec QUOTE c); [done|]. by subst.
Qed.

Lemma join_text_text_lines lines :
  Forall (λ l, NEWLINE ∉ l) lines →
  join_text (flat_map text_line_code lines)
  = concat (map (λ l, unesc (sanitized l)) lines).
Proof.
  induction 1 as [|l lines Hl _ IH]; [done|].
  cbn [flat_map map concat]. rewrite join_text_app, IH. f_equal.
  unfold text_line_code. rewrite join_text_cons.
  rewrite join_text_show_text by (by apply sanitized_no_newline).
  change (join_text [py "end-text-line 0"]) with (@nil N).
  by rewrite app_nil_r.
Qed.

Lemma join_text_concat_lines lines :
  Forall (λ l, NEWLINE ∉ l) lines →
  join_text (flat_map concat_line_code lines) = concat (map unesc lines).
Proof.
  induction 1 as [|l lines Hl _ IH]; [done|].
  cbn [flat_map map concat]. rewrite join_text_app, IH. f_equal.
  unfold concat_line_code.
  rewrite join_text_cons, join_text_show_text, join_text_cons by done.
  change (join_text [py "end-text-line 0"]) with (@nil N).
  unfold concat_bbb.
  change (py "concat (global-string bbb) (global-string bbb) " ++ [QUOTE]
          ++ sanitized l ++ [QUOTE])
    with (99%N :: py "oncat (global-string bbb) (global-string bbb) "
          ++ [QUOTE] ++ sanitized l ++ [QUOTE]).
  rewrite join_text_other by done. by rewrite !app_nil_r.
Qed.

(** The bridge between two sub-boxes shows no text. *)
Lemma join_text_bridge lb speaker : join_text (bridge lb speaker) = [].
Proof.
  assert (∀ r, join_text [py "call " ++ r] = []) as Hcall.
  { intros r. change (py "call " ++ r) with (99%N :: py "all " ++ r).
    by apply join_text_other. }
  unfold bridge. rewrite !join_text_app, join_text_cons.
  change (py "comment " ++ [QUOTE] ++ py "Extra Textbox " ++ speaker
          ++ [QUOTE])
    with (99%N :: py "omment " ++ [QUOTE] ++ py "Extra Textbox " ++ speaker
          ++ [QUOTE]).
  rewrite join_text_other by done.
  change (join_text [py "u004213E0 0"; py "u0041A7B0 2"; py "u0041A7B0 1"])
    with (@nil N).
  change (join_text [py "308 1"; py "u004213E0 1"; py "u00416120"])
    with (@nil N).
  change (join_text [py "u004160D0"]) with (@nil N).
  destruct (bool_decide (speaker = py "Narrator")).
  - destruct (current_narr_label lb); rewrite ?join_text_app, ?Hcall; done.
  - destruct (current_char_label lb); rewrite ?join_text_app, ?Hcall; done.
Qed.

Lemma text_box_fold_reads_back lb speaker n items fc :
  join_text (fold_left (text_box_step lb speaker n) items fc)
  = join_text fc
    ++ concat (map (λ l, unesc (sanitized l))
                   (flat_map (split_on NEWLINE) items.*2)).
Proof.
  revert fc. induction items as [|[b box] items IH]; intros fc;
    cbn [fold_left fmap list_fmap flat_map snd].
  - by rewrite app_nil_r.
  - rewrite IH, map_app, concat_app, app_assoc. f_equal.
    destruct (text_box_step_shape lb speaker n fc b box) as (body & Hbody & ->).
    pose proof (join_text_text_lines (split_on NEWLINE box)
                  (split_on_pieces NEWLINE box)) as Hread.
    rewrite Hbody, join_text_app in Hread.
    change (join_text [py "end-text-line 0"]) with (@nil N) in Hread.
    rewrite app_nil_r in Hread.
    rewrite !join_text_app, Hread.
    change (join_text [[]]) with (@nil N).
    change (join_text [py "wait-for-input 0"; py "end-text-line 0"; []])
      with (@nil N).
    destruct (negb _); [rewrite join_text_bridge|]; by rewrite !app_nil_r.
Qed.

Lemma concat_fold_reads_back n items fc :
  join_text (fold_left (concat_step n) items fc)
  = join_text fc
    ++ concat (map unesc (flat_map (split_on NEWLINE) items.*2)).
Proof.
  revert fc. induction items as [|[b box] items IH]; intros fc;
    cbn [fold_left fmap list_fmap flat_map snd].
  - by rewrite app_nil_r.
  - rewrite IH, map_app, concat_app, app_assoc. f_equal.
    destruct (concat_lines_last (split_on NEWLINE box)) as [body Hbody];
      [apply split_on_nonempty|].
    pose proof (join_text_concat_lines (split_on NEWLINE box)
                  (split_on_pieces NEWLINE box)) as Hread.
    rewrite Hbody, join_text_app in Hread.
    change (join_text [py "end-text-line 0"]) with (@nil N) in Hread.
    rewrite app_nil_r in Hread.
    unfold concat_step. rewrite concat_lines_fold, Hbody.
    replace ((fc ++ [[]]) ++ body ++ [py "end-text-line 0"])
      with ((fc ++ [[]] ++ body) ++ [py "end-text-line 0"])
      by (by rewrite <- !app_assoc).
    rewrite slice_to_minus_one.
    destruct (negb _); rewrite ?slice_to_minus_one, !join_text_app, Hread;
      [change (join_text [py "end-text-line 0"]) with (@nil N)|];
      change (join_text [[]]) with (@nil N); by rewrite !app_nil_r.
Qed.

Lemma enumerate_snd {A} (l : list A) : (enumerate l).*2 = l.
Proof.
  unfold enumerate. apply snd_zip.
  rewrite range_length. unfold len. lia.
Qed.

(** X17: [join_text], which reads the text of a box off its lines, reads
    back what the three generators wrote. From the code of the standard
    variant it returns the lines of all the sub-boxes, one after the other,
    each with its double quotes replaced and then unescaped; from the code
    of the concat variant, the lines as they are, unescaped; from the code
    of the SG variant, the lines of the first sub-box only. *)
Theorem generated_code_reads_back (lb : labels) (en_box : list pystr)
    (speaker : pystr) :
  join_text (create_text_box_code lb en_box speaker)
  = concat (map (λ l, unesc (replace shitter safe_shitter l))
                (flat_map (split_on NEWLINE) en_box))
  ∧ join_text (create_text_box_code_concat en_box)
    = concat (map unesc (flat_map (split_on NEWLINE) en_box))
  ∧ join_text (create_text_box_code_SG en_box)
    = concat (map (λ l, unesc (replace shitter safe_shitter l))
                  (flat_map (split_on NEWLINE) (take 1 en_box))).
Proof.
  split_and!.
  - unfold create_text_box_code. rewrite text_box_fold_reads_back.
    by rewrite enumerate_snd.
  - unfold create_text_box_code_concat. rewrite concat_fold_reads_back.
    by rewrite enumerate_snd.
  - destruct en_box as [|box rest]; [done|].
    cbn [create_text_box_code_SG take flat_map]. rewrite app_nil_r.
    rewrite text_lines_fold, !join_text_app.
    rewrite join_text_text_lines by apply split_on_pieces.
    change (join_text [[]]) with (@nil N). by rewrite app_nil_r.
Qed.

End read_back.

(** ** The speaker of a box *)
Section speaker_tracking.
Import ExtractDialogue.

Lemma pieces_none ps : fold_left (λ o p, o ≫= p) ps (None : option pystr) = None.
Proof. by induction ps. Qed.

(** A pattern that matches starts with its first literal. *)
Lemma pieces_lit p ps st r :
  pieces (lit p :: ps) st = Some r → startswith st p = true.
Proof.
  unfold pieces. cbn [fold_left]. rewrite bind_some. unfold lit.
  destruct (startswith st p); [done|]. by rewrite pieces_none.
Qed.

Lemma startswith_cons st c p :
  startswith st (c :: p) = true → ∃ r, st = c :: r.
Proof.
  destruct st as [|x r]; [done|]. cbn [startswith]. intros H.
  apply andb_prop in H as [Hc _]. apply N.eqb_eq in Hc. subst. by exists r.
Qed.

(** The first character of a text command is one of [s d w e c]; the first
    character of a start marker is one of [u 3 c]. *)
Lemma text_cmd_head c r :
  is_text_cmd (c :: r) = true →
  c = 115%N ∨ c = 100%N ∨ c = 119%N ∨ c = 101%N ∨ c = 99%N.
Proof.
  unfold is_text_cmd, TEXT_CMDS. cbn [existsb]. rewrite !orb_true_iff.
  intros [H|[H|[H|[H|[H|H]]]]]; [| | | | |done];
    apply startswith_cons in H as [r' [= ->]]; tauto.
Qed.

Lemma box_start_head c r file_name :
  is_box_start (c :: r) file_name = true → c = 117%N ∨ c = 51%N ∨ c = 99%N.
Proof.
  unfold is_box_start. rewrite !orb_true_iff, andb_true_iff.
  intros [[H|H]|[_ H]]; apply bool_decide_eq_true in H;
    injection H as -> _; tauto.
Qed.

Lemma lookup_head st : LOOKUP_6623 st = true → ∃ r, st = 108%N :: r.
Proof.
  unfold LOOKUP_6623.
  destruct (pieces _ st) as [r|] eqn:Hp; [|done]. intros _.
  apply pieces_lit in Hp. by apply startswith_cons in Hp.
Qed.

Lemma mov_head st v : MOV_LOCAL_PTR st = Some v → ∃ r, st = 109%N :: r.
Proof.
  unfold MOV_LOCAL_PTR.
  destruct (pieces _ st) as [r|] eqn:Hp; [|done]. intros _.
  apply pieces_lit in Hp. by apply startswith_cons in Hp.
Qed.

(** A line that is neither a text command nor a start marker. *)
Definition plain (file_name st : pystr) : Prop :=
  is_text_cmd st = false ∧ is_box_start st file_name = false.

Lemma lookup_plain file_name st : LOOKUP_6623 st = true → plain file_name st.
Proof.
  intros H. apply lookup_head in H as [r ->]. split.
  - destruct (is_text_cmd _) eqn:Ht; [|done].
    apply text_cmd_head in Ht. intuition discriminate.
  - destruct (is_box_start _ _) eqn:Hb; [|done].
    apply box_start_head in Hb. intuition discriminate.
Qed.

Lemma mov_plain file_name st v :
  MOV_LOCAL_PTR st = Some v → plain file_name st ∧ LOOKUP_6623 st = false.
Proof.
  intros H. apply mov_head in H as [r ->]. split; [split|].
  - destruct (is_text_cmd _) eqn:Ht; [|done].
    apply text_cmd_head in Ht. intuition discriminate.
  - destruct (is_box_start _ _) eqn:Hb; [|done].
    apply box_start_head in Hb. intuition discriminate.
  - destruct (LOOKUP_6623 _) eqn:Hl; [|done].
    by apply lookup_head in Hl as [r' [=]].
Qed.

Lemma text_cmd_no_lookup st : is_text_cmd st = true → LOOKUP_6623 st = false.
Proof.
  intros Ht. destruct (LOOKUP_6623 st) eqn:Hl; [|done].
  apply lookup_head in Hl as [r ->]. apply text_cmd_head in Ht. intuition discriminate.
Qed.

Lemma box_start_no_lookup st file_name :
  is_box_start st file_name = true → LOOKUP_6623 st = false.
Proof.
  intros Hb. destruct (LOOKUP_6623 st) eqn:Hl; [|done].
  apply lookup_head in Hl as [r ->]. apply box_start_head in Hb. intuition discriminate.
Qed.

Section one_box.
Variable lines : list pystr.
Variable file_name : pystr.
Variable name_map : gmap Z pystr.

Abbreviation step := (step lines file_name name_map).
Abbreviation run := (run lines file_name name_map).

(** The line of the table lookup: whatever the scan was doing, no box is
    open after it, and the next line is read for a speaker id. *)
Lemma step_lookup s idx lk :
  LOOKUP_6623 (strip lk) = true →
  ∃ s', step s idx lk = Ok s'
      ∧ in_box s' = false ∧ after_u s' = false ∧ waiting_mov s' = true.
Proof.
  intros Hl. destruct (lookup_plain file_name _ Hl) as [Ht Hb].
  unfold ExtractDialogue.step, track_speaker. rewrite Hl, Ht, Hb.
  cbn [in_box after_u]. destruct (in_box s); cbn [negb].
  - by eexists.
  - destruct (after_u s); by eexists.
Qed.

(** The line that moves a hex constant into the pointer, read after the
    lookup: its value is the pending speaker. *)
Lemma step_mov s idx mv v :
  MOV_LOCAL_PTR (strip mv) = Some v →
  in_box s = false → after_u s = false → waiting_mov s = true →
  ∃ s', step s idx mv = Ok s'
      ∧ in_box s' = false ∧ after_u s' = false ∧ waiting_mov s' = false
      ∧ pending_speaker s' = Some v.
Proof.
  intros Hm Hin Hau Hw. destruct (mov_plain file_name _ _ Hm) as [[Ht Hb] Hl].
  unfold ExtractDialogue.step, track_speaker. rewrite Hl, Hw, Hm, Hb.
  cbn [in_box after_u]. rewrite Hin, Hau. cbn [negb]. by eexists.
Qed.

(** A confirmed start marker, read outside a box with no speaker id
    awaited: the buffer opens on it. *)
Lemma step_marker s idx marker nxt :
  is_box_start (strip marker) file_name = true →
  getitem lines (idx + 1) = Ok nxt → startswith nxt (py "show-text") = true →
  in_box s = false → waiting_mov s = false →
  ∃ s', step s idx marker = Ok s'
      ∧ in_box s' = false ∧ after_u s' = true ∧ waiting_mov s' = false
      ∧ pending_speaker s' = pending_speaker s ∧ buf s' = [marker].
Proof.
  intros Hb Hnxt Hshow Hin Hw.
  unfold ExtractDialogue.step, track_speaker.
  rewrite (box_start_no_lookup _ _ Hb), Hw, Hin, Hb. cbn [negb].
  unfold try_start. rewrite Hnxt. cbn [mbind res_bind]. rewrite Hshow.
  cbn [negb]. by eexists.
Qed.

(** A text command, read after the marker or inside the box, joins the
    buffer. *)
Lemma step_text s idx ln :
  is_text_cmd (strip ln) = true →
  waiting_mov s = false → in_box s = true ∨ after_u s = true →
  ∃ s', step s idx ln = Ok s'
      ∧ in_box s' = true ∧ waiting_mov s' = false
      ∧ pending_speaker s' = pending_speaker s ∧ buf s' = buf s ++ [ln].
Proof.
  intros Ht Hw Hopen.
  assert (is_box_start (strip ln) file_name = false) as Hb.
  { destruct (is_box_start _ _) eqn:Hb; [|done].
    apply box_start_not_text_cmd in Hb. congruence. }
  unfold ExtractDialogue.step, track_speaker.
  rewrite (text_cmd_no_lookup _ Ht), Hw, Ht, Hb.
  destruct (in_box s) eqn:Hin; cbn [negb]; [by eexists|].
  destruct Hopen as [?|Hau]; [done|]. rewrite Hau. by eexists.
Qed.

Lemma run_text body :
  ∀ s idx,
    Forall (λ ln, is_text_cmd (strip ln) = true) body →
    waiting_mov s = false → in_box s = true ∨ after_u s = true →
    ∃ s', run s idx body = Ok s'
        ∧ (in_box s' = true ∨ after_u s' = true) ∧ waiting_mov s' = false
        ∧ (body ≠ [] → in_box s' = true)
        ∧ pending_speaker s' = pending_speaker s ∧ buf s' = buf s ++ body.
Proof.
  induction body as [|ln body IH]; intros s idx Hbody Hw Hopen.
  - exists s. by rewrite app_nil_r.
  - apply Forall_cons_1 in Hbody as [Hln Hbody].
    destruct (step_text s idx ln Hln Hw Hopen)
      as (s1 & Hs1 & Hin1 & Hw1 & Hp1 & Hb1).
    destruct (IH s1 (idx + 1) Hbody Hw1 (or_introl Hin1))
      as (s2 & Hs2 & Hopen2 & Hw2 & Hin2 & Hp2 & Hb2).
    exists s2. cbn [ExtractDialogue.run]. rewrite Hs1. cbn [mbind res_bind].
    split_and!; [done | done | done | | congruence |].
    + intros _. destruct body as [|ln' body]; [|by apply Hin2].
      cbn [ExtractDialogue.run] in Hs2. by injection Hs2 as <-.
    + by rewrite Hb2, Hb1, <- app_assoc.
Qed.

(** The box [close] emits. *)
Definition closed_box (s : scan) : TextBox :=
  mkTextBox (len (boxes s) + 1) (speaker_name name_map (pending_speaker s))
            (if 0 <=? last_end s then start_idx s - last_end s else 0)
            (join_text (slice_from (buf s) 1)) (buf s).

Lemma close_open s end_before :
  in_box s = true → buf s ≠ [] →
  boxes (close name_map s end_before) = boxes s ++ [closed_box s].
Proof.
  intros Hin Hbuf. unfold close, closed_box. rewrite Hin.
  by destruct (buf s).
Qed.

Lemma close_prefix s end_before :
  boxes s `prefix_of` boxes (close name_map s end_before).
Proof.
  unfold close.
  destruct (in_box s && _); cbn [boxes]; [by apply prefix_app_r | done].
Qed.

Lemma track_speaker_boxes s st : boxes (track_speaker s st) = boxes s.
Proof.
  unfold track_speaker. destruct (LOOKUP_6623 st); [done|].
  by destruct (waiting_mov s).
Qed.

Lemma try_start_boxes s idx ln s' :
  try_start lines s idx ln = Ok s' → boxes s' = boxes s.
Proof.
  unfold try_start. destruct (getitem lines (idx + 1)); [|done].
  cbn [mbind res_bind]. by destruct (negb _); intros [= <-].
Qed.

(** The scan never takes a box back. *)
Lemma step_prefix s idx ln s' :
  step s idx ln = Ok s' → boxes s `prefix_of` boxes s'.
Proof.
  unfold ExtractDialogue.step.
  pose proof (track_speaker_boxes s (strip ln)) as Hb.
  set (s1 := track_speaker s (strip ln)) in *. clearbody s1. rewrite <- Hb.
  destruct (in_box s1); cbn [negb].
  - destruct (is_text_cmd (strip ln)); [by intros [= <-]|].
    destruct (is_box_start (strip ln) file_name).
    + intros Hs. apply try_start_boxes in Hs. rewrite Hs.
      apply close_prefix.
    + intros [= <-]. apply close_prefix.
  - destruct (is_box_start (strip ln) file_name).
    + intros Hs. apply try_start_boxes in Hs. by rewrite Hs.
    + destruct (after_u s1); [|by intros [= <-]].
      by destruct (is_text_cmd (strip ln)); intros [= <-].
Qed.

Lemma run_prefix rest :
  ∀ s idx s', run s idx rest = Ok s' → boxes s `prefix_of` boxes s'.
Proof.
  induction rest as [|ln rest IH]; intros s idx s'; cbn [ExtractDialogue.run].
  - by intros [= <-].
  - destruct (step s idx ln) as [s1|e] eqn:Hs1; [|done]. cbn [mbind res_bind].
    intros Hrest. etrans; [by eapply step_prefix | by eapply IH].
Qed.

(** The line that ends an open box: the box is emitted with the pending
    speaker. *)
Lemma step_closes s idx ln s' :
  is_text_cmd (strip ln) = false →
  in_box s = true → buf s ≠ [] → waiting_mov s = false →
  step s idx ln = Ok s' → boxes s' = boxes s ++ [closed_box s].
Proof.
  intros Ht Hin Hbuf Hw. unfold ExtractDialogue.step.
  assert (∃ s1, track_speaker s (strip ln) = s1
                ∧ in_box s1 = true ∧ closed_box s1 = closed_box s
                ∧ boxes s1 = boxes s ∧ buf s1 = buf s)
    as (s1 & -> & Hin1 & Hc1 & Hb1 & Hbuf1).
  { unfold track_speaker. rewrite Hw.
    destruct (LOOKUP_6623 (strip ln)); by eexists. }
  rewrite Hin1, Ht. cbn [negb].
  assert (boxes (close name_map s1 (idx - 1)) = boxes s ++ [closed_box s])
    as Hclosed by (rewrite close_open, Hc1, Hb1; [done | done | congruence]).
  destruct (is_box_start (strip ln) file_name).
  - intros Hs. apply try_start_boxes in Hs. congruence.
  - intros [= <-]. done.
Qed.

End one_box.

Lemma elem_of_prefix {A} (l1 l2 : list A) x :
  l1 `prefix_of` l2 → x ∈ l1 → x ∈ l2.
Proof. intros [k ->] Hx. apply elem_of_app. by left. Qed.

(** X18: the speaker of a box is the one the script names before it. When
    the scan returns and the script holds, one after the other, the lookup
    of the speaker table, the move of a hex constant into the pointer, a
    start marker, and text commands of which the first starts with
    [show-text], up to the end of the script or to a line that is no text
    command, then these lines are a box of the scene, and its speaker is
    the name the name map has for the constant, [Narrator] when it has
    none. *)
Theorem box_speaker_from_lookup (lines : list pystr) (file_name : pystr)
    (name_map : gmap Z pystr) (pre post body : list pystr)
    (lk mv marker : pystr) (v : Z) (bs : list TextBox) :
  lines = pre ++ [lk; mv; marker] ++ body ++ post →
  LOOKUP_6623 (strip lk) = true →
  MOV_LOCAL_PTR (strip mv) = Some v →
  is_box_start (strip marker) file_name = true →
  (∃ ln, head body = Some ln ∧ startswith ln (py "show-text") = true) →
  Forall (λ ln, is_text_cmd (strip ln) = true) body →
  (∀ ln, head post = Some ln → is_text_cmd (strip ln) = false) →
  extract_boxes lines file_name name_map = Ok bs →
  ∃ b, b ∈ bs ∧ raw b = marker :: body
     ∧ speaker b = default (py "Narrator") (name_map !! v).
Proof.
  intros Hlines Hlk Hmv Hmk (nxt & Hhead & Hshow) Hbody Hpost Hbs.
  destruct (extract_boxes_scan _ _ _ _ Hbs) as (sf & Hscan & <-).
  unfold extract_scan in Hscan.
  destruct (run lines file_name name_map scan_init 0 lines) as [s_end|e]
    eqn:Hrun; [|done].
  cbn [mbind res_bind] in Hscan. injection Hscan as <-.
  rewrite Hlines in Hrun at 2. rewrite run_app in Hrun.
  destruct (run lines file_name name_map scan_init 0 pre) as [s0|e] eqn:H0;
    [|done].
  cbn [mbind res_bind app ExtractDialogue.run] in Hrun.
  destruct (step_lookup lines file_name name_map s0 (0 + len pre) lk Hlk)
    as (s1 & Hs1 & Hin1 & Hau1 & Hw1).
  rewrite Hs1 in Hrun. cbn [mbind res_bind] in Hrun.
  destruct (step_mov lines file_name name_map s1 (0 + len pre + 1) mv v
              Hmv Hin1 Hau1 Hw1) as (s2 & Hs2 & Hin2 & Hau2 & Hw2 & Hp2).
  rewrite Hs2 in Hrun. cbn [mbind res_bind] in Hrun.
  destruct body as [|ln body]; [done|]. injection Hhead as ->.
  destruct (step_marker lines file_name name_map s2 (0 + len pre + 1 + 1)
              marker nxt Hmk) as (s3 & Hs3 & Hin3 & Hau3 & Hw3 & Hp3 & Hb3);
    [|done|done|done|].
  { pose proof (len_nonneg pre). apply getitem_Ok_nonneg; [lia|].
    rewrite Hlines.
    replace (Z.to_nat (0 + len pre + 1 + 1 + 1)) with (length pre + 3)%nat
      by (unfold len; lia).
    by rewrite lookup_app_r, Nat.add_comm, Nat.add_sub by lia. }
  rewrite Hs3 in Hrun. cbn [mbind res_bind] in Hrun.
  rewrite run_app in Hrun.
  destruct (run_text lines file_name name_map (nxt :: body) s3
              (0 + len pre + 1 + 1 + 1) Hbody Hw3 (or_intror Hau3))
    as (s4 & Hs4 & _ & Hw4 & Hin4 & Hp4 & Hb4).
  rewrite Hs4 in Hrun. cbn [mbind res_bind] in Hrun.
  specialize (Hin4 ltac:(done)). rewrite Hb3 in Hb4. cbn [app] in Hb4.
  assert (buf s4 ≠ []) as Hne by (by rewrite Hb4).
  exists (closed_box name_map s4). split_and!.
  - destruct post as [|x post].
    + cbn [ExtractDialogue.run] in Hrun. injection Hrun as <-.
      rewrite close_open by done. apply elem_of_app. right.
      apply list_elem_of_here.
    + cbn [ExtractDialogue.run] in Hrun.
      destruct (ExtractDialogue.step lines file_name name_map s4 _ x)
        as [s5|e] eqn:Hs5; [|done].
      cbn [mbind res_bind] in Hrun.
      apply step_closes in Hs5; [|by apply Hpost|done|done|done].
      eapply elem_of_prefix; [apply close_prefix|].
      eapply elem_of_prefix; [by eapply run_prefix|].
      rewrite Hs5. apply elem_of_app. right. apply list_elem_of_here.
  - done.
  - cbn [closed_box speaker]. by rewrite Hp4, Hp3, Hp2.
Qed.

(** A scene in which the script names the speaker 0x1a before its box. *)
Definition named_box : list pystr :=
  [py "lookup-array (local-ptr 0) (global-int 6623) (local-int 3)";
   py "mov (local-ptr 0) 1a"; py "u00416120"; py "show-text 0 a";
   py "wait-for-input 0"; py "ret"].

Lemma box_speaker_from_lookup_witness :
  ∃ bs, extract_boxes named_box (py "SC0001") {[ 26 := py "Bob" ]} = Ok bs
    ∧ ∃ b, b ∈ bs
        ∧ raw b = py "u00416120" :: [py "show-text 0 a"; py "wait-for-input 0"]
        ∧ speaker b
          = default (py "Narrator")
                    (({[ 26 := py "Bob" ]} : gmap Z pystr) !! 26).
Proof.
  eexists. split; [vm_compute; reflexivity|].
  apply (box_speaker_from_lookup named_box (py "SC0001") {[ 26 := py "Bob" ]}
           [] [py "ret"] [py "show-text 0 a"; py "wait-for-input 0"]
           (py "lookup-array (local-ptr 0) (global-int 6623) (local-int 3)")
           (py "mov (local-ptr 0) 1a") (py "u00416120") 26).
  - reflexivity.
  - vm_compute. reflexivity.
  - vm_compute. reflexivity.
  - vm_compute. reflexivity.
  - eexists. split; [reflexivity | vm_compute; reflexivity].
  - repeat constructor.
  - intros ln [= <-]. vm_compute. reflexivity.
  - vm_compute. reflexivity.
Defined.

End speaker_tracking.

(** ** What [craft_into_script] raises *)
Section craft_raises.
Import TextBoxUtils CodeUtils Reinsert.

Lemma split_join_length c (l : list pystr) :
  (length l ≤ length (split_on c (join [c] l)))%nat.
Proof.
  induction l as [|x [|y l] IH]; [cbn; lia| |].
  - pose proof (split_on_nonempty c x). cbn [join length].
    destruct (split_on c x); [done|]. cbn [length]. lia.
  - change (join [c] (x :: y :: l)) with (x ++ c :: join [c] (y :: l)).
    rewrite split_on_app_sep_any, length_app.
    pose proof (split_on_nonempty c x).
    destruct (split_on c x); [done|]. cbn [length] in *. lia.
Qed.

Lemma enumerate_fst {A} (l : list A) : (enumerate l).*1 = range (len l).
Proof.
  unfold enumerate. apply fst_zip. rewrite range_length. unfold len. lia.
Qed.

Lemma codegen_step_raises lb script scene_id st item e :
  codegen_step lb script scene_id st item = Raise e → e = IndexError.
Proof.
  destruct st as [[code_map concat_offset] concat_container].
  destruct item as [bid [jp_box en_container]]. cbn [codegen_step].
  destruct (contains scene_id (py "SG")); [done|].
  destruct concat_container; [done|].
  destruct (getitem script _) as [ln|e'] eqn:Hg; cbn [mbind res_bind].
  - by destruct (startswith ln (py "concat")).
  - intros [= <-]. by apply getitem_raises in Hg.
Qed.

Lemma codegen_step_keys lb script scene_id st item st' k :
  codegen_step lb script scene_id st item = Ok st' →
  k = item.1 ∨ is_Some (st.1.1 !! k) → is_Some (st'.1.1 !! k).
Proof.
  destruct st as [[code_map concat_offset] concat_container].
  destruct item as [bid [jp_box en_container]]. cbn [codegen_step fst].
  assert (∀ v, k = bid ∨ is_Some (code_map !! k) →
               is_Some (<[bid := v]> code_map !! k)) as Hins.
  { intros v [->|Hk]; [by rewrite lookup_insert_eq|].
    destruct (decide (bid = k)) as [->|Hne];
      [by rewrite lookup_insert_eq | by rewrite lookup_insert_ne]. }
  destruct (contains scene_id (py "SG")); [intros [= <-]; apply Hins|].
  destruct concat_container; [intros [= <-]; apply Hins|].
  destruct (getitem script _) as [ln|e']; cbn [mbind res_bind]; [|done].
  destruct (startswith ln (py "concat")); intros [= <-]; apply Hins.
Qed.

Lemma codegen_raises lb script scene_id items :
  ∀ st e, codegen lb script scene_id st items = Raise e → e = IndexError.
Proof.
  induction items as [|item items IH]; intros st e; cbn [codegen]; [done|].
  destruct (codegen_step lb script scene_id st item) as [st'|e'] eqn:Hstep;
    cbn [mbind res_bind].
  - apply IH.
  - intros [= <-]. by apply codegen_step_raises in Hstep.
Qed.

Lemma codegen_keys lb script scene_id items :
  ∀ st st' k,
    codegen lb script scene_id st items = Ok st' →
    k ∈ items.*1 ∨ is_Some (st.1.1 !! k) → is_Some (st'.1.1 !! k).
Proof.
  induction items as [|item items IH]; intros st st' k; cbn [codegen].
  - intros [= <-] [Hk|Hk]; [by apply elem_of_nil in Hk | done].
  - destruct (codegen_step lb script scene_id st item) as [st1|e'] eqn:Hstep;
      cbn [mbind res_bind]; [|done].
    intros Hrest Hk. apply (IH st1 st' k Hrest).
    cbn [fmap list_fmap] in Hk. rewrite elem_of_cons in Hk.
    destruct Hk as [[Hk|Hk]|Hk]; [right | by left | right].
    + apply (codegen_step_keys _ _ _ _ _ _ _ Hstep). by left.
    + apply (codegen_step_keys _ _ _ _ _ _ _ Hstep). by right.
Qed.

Lemma text_box_end_from_raises script n lookat e :
  text_box_end_from script n lookat = Raise e → e = IndexError.
Proof.
  revert lookat. induction n as [|n IH]; intros lookat; cbn [text_box_end_from];
    destruct (getitem script lookat) as [ln|e'] eqn:Hg; cbn [mbind res_bind];
    try (intros [= <-]; by apply getitem_raises in Hg);
    destruct (is_text_cmd ln); try done.
  - by intros [= <-].
  - apply IH.
Qed.

Lemma splice_boxes_raises code_map todo :
  ∀ p script e,
    Forall (λ item, is_Some (code_map !! item.1)) todo →
    splice_boxes code_map p script todo = Raise e → e = IndexError.
Proof.
  induction todo as [|[i jp_dict] todo IH]; intros p script e Hkeys;
    cbn [splice_boxes]; [done|].
  apply Forall_cons_1 in Hkeys as [[g Hg] Hkeys]. cbn [fst] in Hg.
  unfold splice_box, subscript, find_text_box_end.
  destruct (text_box_end_from _ _ _) as [text_box_end|e'] eqn:Hend;
    cbn [mbind res_bind].
  - rewrite Hg. cbn [mbind res_bind]. by apply IH.
  - intros [= <-]. by apply text_box_end_from_raises in Hend.
Qed.

(** On dicts that hold their keys, the only exception [craft_into_script]
    raises is [IndexError], of a position past the end of the script: the
    layout of the translation never fails, and every box finds its code in
    the code map. *)
Lemma craft_into_script_index_error (lb : labels) (en_boxes : pystr)
    (jp_box_dicts : list jp_box) (final_en_script : list pystr)
    (text_lines line_length starting_offset : Z) (scene_id : pystr) e :
  craft_into_script lb en_boxes jp_box_dicts final_en_script text_lines
    line_length starting_offset scene_id = Raise e →
  e = IndexError.
Proof.
  unfold craft_into_script, create_english_box.
  destruct (create_english_box_returns
              (join [NEWLINE] (map text jp_box_dicts)) en_boxes
              text_lines line_length)
    as (containers & -> & Hlen & _).
  cbn [mbind res_bind].
  destruct (codegen _ _ _ _ _) as [[[code_map off] cc]|e'] eqn:Hgen;
    cbn [mbind res_bind]; [|intros [= <-]; by apply codegen_raises in Hgen].
  apply splice_boxes_raises. apply Forall_forall. intros item Hitem.
  apply (codegen_keys _ _ _ _ _ _ item.1 Hgen). left.
  rewrite enumerate_fst.
  assert (len (zip jp_box_dicts containers) = len jp_box_dicts) as ->.
  { unfold len. rewrite length_zip, Hlen.
    pose proof (split_join_length NEWLINE (map text jp_box_dicts)) as Hge.
    rewrite length_map in Hge. lia. }
  rewrite <- enumerate_fst. by apply list_elem_of_fmap_2.
Qed.

(** *** Dicts whose keys may be missing *)

(** The dict of a box that holds its three keys. *)
Definition as_dict (b : jp_box) : ReinsertDicts.box_dict :=
  ReinsertDicts.mkBoxDict (Some (text b)) (Some (speaker b)) (Some (offset b)).

(** A box dict that lacks one of its keys. *)
Definition missing_key (b : ReinsertDicts.box_dict) : Prop :=
  ReinsertDicts.text b = None ∨ ReinsertDicts.speaker b = None
  ∨ ReinsertDicts.offset b = None.

Lemma as_dict_or_missing (jp_box_dicts : list ReinsertDicts.box_dict) :
  (∃ boxes, jp_box_dicts = map as_dict boxes) ∨ Exists missing_key jp_box_dicts.
Proof.
  induction jp_box_dicts as [|[[t|] [s|] [o|]] ds [[boxes ->]|IH]];
    try (right; apply Exists_cons_hd; unfold missing_key; cbn; tauto);
    try (right; by apply Exists_cons_tl).
  - left. by exists [].
  - left. by exists (mkJpBox t s o :: boxes).
Qed.

Lemma texts_as_dict boxes :
  ReinsertDicts.texts (map as_dict boxes) = Ok (map text boxes).
Proof.
  induction boxes as [|b boxes IH]; [done|].
  cbn [map ReinsertDicts.texts]. by rewrite IH.
Qed.

Lemma texts_present jp_box_dicts :
  Forall (λ b, is_Some (ReinsertDicts.text b)) jp_box_dicts →
  ∃ ts, ReinsertDicts.texts jp_box_dicts = Ok ts.
Proof.
  induction jp_box_dicts as [|b ds IH]; intros Hall; [by eexists|].
  apply Forall_cons_1 in Hall as [[t Ht] Hall].
  destruct (IH Hall) as [ts Hts]. exists (t :: ts).
  cbn [ReinsertDicts.texts]. by rewrite Ht, Hts.
Qed.

Lemma texts_raises jp_box_dicts e :
  ReinsertDicts.texts jp_box_dicts = Raise e → e = KeyError.
Proof.
  induction jp_box_dicts as [|b ds IH]; [done|]. cbn [ReinsertDicts.texts].
  destruct (ReinsertDicts.text b); cbn [ReinsertDicts.field mbind res_bind];
    [|congruence].
  destruct (ReinsertDicts.texts ds); cbn [mbind res_bind]; [done|].
  intros [= <-]. by apply IH.
Qed.

Lemma zip_as_dict_items {C} (r : list Z) boxes (cs : list C) :
  zip r (zip (map as_dict boxes) cs)
  = map (λ item, (item.1, (as_dict item.2.1, item.2.2))) (zip r (zip boxes cs)).
Proof.
  revert boxes cs. induction r as [|k r IH]; intros [|b boxes] [|c cs];
    try done.
  cbn [map zip zip_with fst snd]. f_equal. apply IH.
Qed.

Lemma zip_as_dict (r : list Z) boxes :
  zip r (map as_dict boxes) = map (λ item, (item.1, as_dict item.2)) (zip r boxes).
Proof.
  revert boxes. induction r as [|k r IH]; intros [|b boxes]; try done.
  cbn [map zip zip_with fst snd]. f_equal. apply IH.
Qed.

Lemma codegen_step_as_dict lb script scene_id st item :
  ReinsertDicts.codegen_step lb script scene_id st
    (item.1, (as_dict item.2.1, item.2.2))
  = codegen_step lb script scene_id st item.
Proof.
  destruct st as [[code_map concat_offset] concat_container].
  destruct item as [bid [jp_box en_container]].
  cbn [ReinsertDicts.codegen_step codegen_step fst snd as_dict
       ReinsertDicts.offset ReinsertDicts.speaker ReinsertDicts.field
       mbind res_bind].
  destruct (contains scene_id (py "SG")); [done|].
  destruct concat_container; [done|].
  destruct (getitem script _) as [ln|e]; cbn [mbind res_bind]; [|done].
  by destruct (startswith ln (py "concat")).
Qed.

Lemma codegen_as_dict lb script scene_id items :
  ∀ st,
    ReinsertDicts.codegen lb script scene_id st
      (map (λ item, (item.1, (as_dict item.2.1, item.2.2))) items)
    = codegen lb script scene_id st items.
Proof.
  induction items as [|item items IH]; intros st; [done|].
  cbn [map ReinsertDicts.codegen codegen].
  rewrite codegen_step_as_dict.
  destruct (codegen_step lb script scene_id st item); cbn [mbind res_bind];
    [apply IH | done].
Qed.

Lemma splice_boxes_as_dict code_map todo :
  ∀ p script,
    ReinsertDicts.splice_boxes code_map p script
      (map (λ item, (item.1, as_dict item.2)) todo)
    = splice_boxes code_map p script todo.
Proof.
  induction todo as [|[i jp_dict] todo IH]; intros p script; [done|].
  cbn [map ReinsertDicts.splice_boxes splice_boxes fst snd as_dict
       ReinsertDicts.offset ReinsertDicts.field mbind res_bind].
  destruct (splice_box code_map p script i (offset jp_dict)) as [[p' s']|e];
    cbn [mbind res_bind]; [apply IH | done].
Qed.

(** On dicts that hold their keys, the function on dicts is
    [Reinsert.craft_into_script]. *)
Lemma craft_into_script_as_dict lb en_boxes boxes script
    (config : gmap string Z) text_lines line_length starting_offset scene_id :
  config !! "text_lines" = Some text_lines →
  config !! "line_length" = Some line_length →
  ReinsertDicts.craft_into_script lb en_boxes (map as_dict boxes) script
    config starting_offset scene_id
  = craft_into_script lb en_boxes boxes script text_lines line_length
      starting_offset scene_id.
Proof.
  intros Hlines Hlength.
  unfold ReinsertDicts.craft_into_script, craft_into_script, subscript.
  rewrite texts_as_dict, Hlines, Hlength. cbn [mbind res_bind].
  destruct (create_english_box _ _ _ _) as [containers|e];
    cbn [mbind res_bind]; [|done].
  unfold enumerate, len.
  rewrite !length_zip, !length_map, zip_as_dict_items, zip_as_dict.
  rewrite codegen_as_dict.
  destruct (codegen _ _ _ _ _) as [[[code_map off] cc]|e];
    cbn [mbind res_bind]; [|done].
  apply splice_boxes_as_dict.
Qed.

Lemma codegen_dicts_raises lb script scene_id items :
  ∀ st e,
    ReinsertDicts.codegen lb script scene_id st items = Raise e →
    e ≠ ValueError.
Proof.
  induction items as [|item items IH]; intros st e;
    cbn [ReinsertDicts.codegen]; [done|].
  destruct (ReinsertDicts.codegen_step lb script scene_id st item)
    as [st'|e'] eqn:Hstep; cbn [mbind res_bind]; [apply IH|].
  intros [= <-]. revert Hstep.
  destruct st as [[code_map concat_offset] concat_container].
  destruct item as [bid [jp_box en_container]].
  cbn [ReinsertDicts.codegen_step].
  destruct (ReinsertDicts.offset jp_box);
    cbn [ReinsertDicts.field mbind res_bind]; [|congruence].
  destruct (contains scene_id (py "SG")); [done|].
  destruct concat_container; cbn [mbind res_bind].
  - done.
  - destruct (getitem script _) as [ln|e] eqn:Hg; cbn [mbind res_bind].
    + destruct (startswith ln (py "concat")); [done|].
      destruct (ReinsertDicts.speaker jp_box);
        cbn [ReinsertDicts.field mbind res_bind]; [done | congruence].
    + intros [= <-]. apply getitem_raises in Hg. congruence.
Qed.

Lemma splice_boxes_dicts_raises code_map todo :
  ∀ p script e,
    ReinsertDicts.splice_boxes code_map p script todo = Raise e →
    e ≠ ValueError.
Proof.
  induction todo as [|[i jp_dict] todo IH]; intros p script e;
    cbn [ReinsertDicts.splice_boxes]; [done|].
  destruct (ReinsertDicts.offset jp_dict) as [d|];
    cbn [ReinsertDicts.field mbind res_bind]; [|congruence].
  unfold splice_box, subscript, find_text_box_end.
  destruct (text_box_end_from _ _ _) as [text_box_end|e'] eqn:Hend;
    cbn [mbind res_bind].
  - destruct (code_map !! i); cbn [mbind res_bind]; [apply IH | congruence].
  - intros [= <-]. apply text_box_end_from_raises in Hend. congruence.
Qed.

(** X19: [craft_into_script], with [config] and the box dicts as dicts whose
    keys may be missing, never raises a [ValueError]; it raises a [KeyError]
    only when [config] lacks [text_lines] or [line_length] or a box dict lacks
    one of [text], [speaker] and [offset]: the layout of the translation
    never fails and every box finds its code in the code map; and it does
    raise a [KeyError] when every box dict holds its text and [config] lacks
    one of its two keys. *)
Theorem craft_into_script_raises (lb : labels) (en_boxes : pystr)
    (jp_box_dicts : list ReinsertDicts.box_dict)
    (final_en_script : list pystr) (config : gmap string Z)
    (starting_offset : Z) (scene_id : pystr) :
  ReinsertDicts.craft_into_script lb en_boxes jp_box_dicts final_en_script
    config starting_offset scene_id ≠ Raise ValueError
  ∧ (ReinsertDicts.craft_into_script lb en_boxes jp_box_dicts final_en_script
       config starting_offset scene_id = Raise KeyError →
     config !! "text_lines" = None ∨ config !! "line_length" = None
     ∨ Exists missing_key jp_box_dicts)
  ∧ (Forall (λ b, is_Some (ReinsertDicts.text b)) jp_box_dicts →
     config !! "text_lines" = None ∨ config !! "line_length" = None →
     ReinsertDicts.craft_into_script lb en_boxes jp_box_dicts final_en_script
       config starting_offset scene_id = Raise KeyError).
Proof.
  split_and!.
  - unfold ReinsertDicts.craft_into_script, subscript.
    destruct (ReinsertDicts.texts jp_box_dicts) as [ts|e] eqn:Hts;
      cbn [mbind res_bind]; [|apply texts_raises in Hts; congruence].
    destruct (config !! "text_lines") as [text_lines|];
      cbn [mbind res_bind]; [|done].
    destruct (config !! "line_length") as [line_length|];
      cbn [mbind res_bind]; [|done].
    unfold create_english_box.
    destruct (create_english_box_returns (join [NEWLINE] ts) en_boxes
                text_lines line_length)
      as (containers & -> & _).
    cbn [mbind res_bind].
    destruct (ReinsertDicts.codegen _ _ _ _ _) as [[[code_map off] cc]|e]
      eqn:Hgen; cbn [mbind res_bind].
    + intros H. by apply splice_boxes_dicts_raises in H.
    + apply codegen_dicts_raises in Hgen. congruence.
  - intros Hraise.
    destruct (config !! "text_lines") as [text_lines|] eqn:Hlines;
      [|by left].
    destruct (config !! "line_length") as [line_length|] eqn:Hlength;
      [|by right; left].
    right; right.
    destruct (as_dict_or_missing jp_box_dicts) as [[boxes ->]|]; [|done].
    rewrite (craft_into_script_as_dict _ _ _ _ _ _ _ _ _ Hlines Hlength)
      in Hraise.
    by apply craft_into_script_index_error in Hraise.
  - intros Htexts Hconfig.
    unfold ReinsertDicts.craft_into_script, subscript.
    destruct (texts_present _ Htexts) as [ts ->]. cbn [mbind res_bind].
    destruct Hconfig as [->| ->]; [done|].
    by destruct (config !! "text_lines").
Qed.

End craft_raises.

(** ** The clean-up of a translation *)
Section llm_output.
Import LlmOutput ManualReplacements.

(** Two newlines in a row leave an empty piece after the first. *)
Lemma contains_blank_line t :
  contains t [NEWLINE; NEWLINE] = true → [] ∈ tail (split_on NEWLINE t).
Proof.
  induction t as [|x r IH]; [done|]. cbn [contains].
  intros H. apply orb_prop in H as [H|H].
  - cbn [startswith] in H. destruct r as [|y r]; [by rewrite andb_false_r in H|].
    apply andb_prop in H as [Hx H]. apply andb_prop in H as [Hy _].
    apply N.eqb_eq in Hx, Hy. subst x y. cbn [split_on].
    rewrite !N.eqb_refl. cbn [tail]. apply list_elem_of_here.
  - specialize (IH H). cbn [split_on].
    destruct (x =? NEWLINE)%N; cbn [tail].
    + destruct (split_on NEWLINE r) as [|w ws]; [done|].
      by apply list_elem_of_further.
    + by destruct (split_on NEWLINE r).
Qed.

Lemma lstrip_length s : (length (lstrip s) ≤ length s)%nat.
Proof.
  induction s as [|c r IH]; [done|]. cbn [lstrip].
  destruct (isspace c); cbn [length]; lia.
Qed.

(** A string that [lstrip] leaves alone starts with no white space. *)
Lemma lstrip_fixed s :
  lstrip s = s → s ≠ [] → ∃ c r, s = c :: r ∧ isspace c = false.
Proof.
  destruct s as [|c r]; [done|]. cbn [lstrip]. intros Hs _.
  destruct (isspace c) eqn:Hc; [|by exists c, r].
  pose proof (lstrip_length r) as Hlen. rewrite Hs in Hlen.
  cbn [length] in Hlen. lia.
Qed.

(** A string that [strip] leaves alone starts and ends with no white
    space. *)
Lemma strip_fixed s :
  strip s = s → s ≠ [] →
  (∃ c r, s = c :: r ∧ isspace c = false)
  ∧ (∃ r c, s = r ++ [c] ∧ isspace c = false).
Proof.
  intros Hs Hne.
  assert (lstrip s = s) as Hl.
  { apply (f_equal length) in Hs. unfold strip, rstrip in Hs.
    rewrite length_reverse in Hs.
    pose proof (lstrip_length (reverse (lstrip s))) as H1.
    rewrite length_reverse in H1. pose proof (lstrip_length s) as H2.
    destruct s as [|c r]; [done|]. cbn [lstrip] in *.
    destruct (isspace c); [|done]. cbn [length] in *.
    pose proof (lstrip_length r). lia. }
  split; [by apply lstrip_fixed|].
  unfold strip in Hs. rewrite Hl in Hs. unfold rstrip in Hs.
  apply (f_equal reverse) in Hs. rewrite reverse_involutive in Hs.
  destruct (lstrip_fixed (reverse s) Hs) as (c & r & Hrev & Hc).
  { intros Hnil. apply (f_equal reverse) in Hnil.
    by rewrite reverse_involutive in Hnil. }
  exists (reverse r), c. split; [|done].
  apply (f_equal reverse) in Hrev.
  by rewrite reverse_involutive, reverse_cons in Hrev.
Qed.

Lemma unquote_fold (f : pystr → pystr) ls acc :
  fold_left (λ without_quotation l, (without_quotation ++ f l) ++ [NEWLINE])
            ls acc
  = acc ++ concat (map (λ l, f l ++ [NEWLINE]) ls).
Proof.
  revert acc. induction ls as [|l ls IH]; intros acc; cbn [fold_left map concat].
  - by rewrite app_nil_r.
  - by rewrite IH, <- !app_assoc.
Qed.

Lemma lines_with_newlines ls :
  ls ≠ [] → concat (map (λ l, l ++ [NEWLINE]) ls) = join [NEWLINE] ls ++ [NEWLINE].
Proof.
  induction ls as [|l [|l' ls] IH]; intros Hne; [done| |].
  - cbn [map concat join]. by rewrite app_nil_r.
  - change (concat (map (λ l, l ++ [NEWLINE]) (l :: l' :: ls)))
      with ((l ++ [NEWLINE]) ++ concat (map (λ l, l ++ [NEWLINE]) (l' :: ls))).
    rewrite IH by done.
    change (join [NEWLINE] (l :: l' :: ls))
      with (l ++ [NEWLINE] ++ join [NEWLINE] (l' :: ls)).
    by rewrite <- !app_assoc.
Qed.

(** [strip] takes the final newline off a text that starts and ends with
    no white space. *)
Lemma strip_final_newline t :
  strip t = t → t ≠ [] → strip (t ++ [NEWLINE]) = t.
Proof.
  intros Hs Hne.
  destruct (strip_fixed t Hs Hne) as [(c & r & Ht & Hc) (r' & c' & Ht' & Hc')].
  assert (lstrip (t ++ [NEWLINE]) = t ++ [NEWLINE]) as Hl
    by (rewrite Ht; by apply (lstrip_cons c (r ++ [NEWLINE]))).
  assert (reverse t = c' :: reverse r') as Hrev
    by (rewrite Ht' at 1; by rewrite reverse_app).
  assert (lstrip (reverse (t ++ [NEWLINE])) = reverse t) as Hr.
  { rewrite reverse_app. change (reverse [NEWLINE] ++ reverse t)
      with (NEWLINE :: reverse t).
    cbn [lstrip]. change (isspace NEWLINE) with true. cbn iota.
    rewrite Hrev. by apply lstrip_cons. }
  unfold strip, rstrip. by rewrite Hl, Hr, reverse_involutive.
Qed.

(** A stripped line that none of the pairs of [quot] encloses. *)
Definition enclosed (clean_line : pystr) : bool :=
  existsb (λ '(lq, rq), startswith clean_line lq && endswith clean_line rq)
          quot.

Lemma unquoted_plain l : enclosed l = false → unquoted l = l.
Proof.
  unfold enclosed, unquoted. generalize quot. intros q.
  induction q as [|[lq rq] q IH]; [done|]. cbn [existsb List.find].
  destruct (startswith l lq && endswith l rq); [done|]. apply IH.
Qed.

Lemma join_head sep (w : pystr) ws : ∃ r, join sep (w :: ws) = w ++ r.
Proof.
  destruct ws as [|w' ws]; [exists []; by rewrite app_nil_r|].
  by exists (sep ++ join sep (w' :: ws)).
Qed.

Lemma join_last sep ws (w : pystr) : ∃ r, join sep (ws ++ [w]) = r ++ w.
Proof.
  induction ws as [|x ws [r IH]]; [by exists []|].
  exists (x ++ sep ++ r). cbn [app].
  destruct (ws ++ [w]) as [|y l] eqn:Hl; [by destruct ws|].
  change (join sep (x :: y :: l)) with (x ++ sep ++ join sep (y :: l)).
  by rewrite IH, <- !app_assoc.
Qed.

(** A text whose first and last lines are stripped and not empty is
    stripped. *)
Lemma strip_lines t :
  Forall (λ l, l ≠ [] ∧ strip l = l) (split_on NEWLINE t) → strip t = t.
Proof.
  intros Hlines. pose proof (join_split_on NEWLINE t) as Hjoin.
  pose proof (split_on_nonempty NEWLINE t) as Hne.
  assert (lstrip t = t) as Hl.
  { destruct (split_on NEWLINE t) as [|w ws]; [done|].
    apply Forall_cons_1 in Hlines as [[Hw Hs] _].
    destruct (strip_fixed w Hs Hw) as [(c & r & -> & Hc) _].
    destruct (join_head [NEWLINE] (c :: r) ws) as [r' Hr'].
    rewrite <- Hjoin, Hr'. by apply lstrip_cons. }
  assert (lstrip (reverse t) = reverse t) as Hr.
  { destruct (split_on NEWLINE t) as [|w ws _] using rev_ind; [done|].
    rewrite Forall_app, Forall_singleton in Hlines.
    destruct Hlines as [_ [Hw Hs]].
    destruct (strip_fixed w Hs Hw) as [_ (r & c & -> & Hc)].
    destruct (join_last [NEWLINE] ws (r ++ [c])) as [r' Hr'].
    rewrite <- Hjoin, Hr', !reverse_app. by apply lstrip_cons. }
  unfold strip, rstrip. by rewrite Hl, Hr, reverse_involutive.
Qed.

(** The loop over the lines and the final [strip] give a stripped text
    back when each of its lines is stripped and not enclosed. *)
Lemma lines_kept text :
  Forall (λ l, strip l = l ∧ enclosed l = false) (split_on NEWLINE text) →
  strip text = text → text ≠ [] →
  strip (fold_left (λ without_quotation l,
                      (without_quotation ++ unquoted (strip l)) ++ [NEWLINE])
                   (split_on NEWLINE text) [])
  = text.
Proof.
  intros Hlines Hstrip Hne. rewrite unquote_fold. cbn [app].
  assert (map (λ l, unquoted (strip l) ++ [NEWLINE]) (split_on NEWLINE text)
          = map (λ l, l ++ [NEWLINE]) (split_on NEWLINE text)) as ->.
  { apply map_ext_Forall. eapply Forall_impl; [exact Hlines|].
    intros l (-> & Hq). by rewrite unquoted_plain. }
  rewrite lines_with_newlines by apply split_on_nonempty.
  rewrite join_split_on. by apply strip_final_newline.
Qed.

(** X20: a translation whose lines are all stripped, not empty and not
    enclosed in a pair of [quot] passes through [refine_llm_output]
    unchanged but for the manual replacements. *)
Theorem refine_llm_output_clean (rep_dict : list (pystr * pystr))
    (llm_text : pystr) :
  Forall (λ l, l ≠ [] ∧ strip l = l ∧ enclosed l = false)
         (split_on NEWLINE llm_text) →
  refine_llm_output rep_dict llm_text = replace_str rep_dict llm_text.
Proof.
  intros Hlines. unfold refine_llm_output.
  destruct (contains llm_text [NEWLINE; NEWLINE]) eqn:Hblank.
  { apply contains_blank_line in Hblank.
    assert ([] ∈ split_on NEWLINE llm_text) as Hin
      by (destruct (split_on NEWLINE llm_text);
          [done | by apply list_elem_of_further]).
    rewrite Forall_forall in Hlines. by destruct (Hlines [] Hin). }
  f_equal. apply lines_kept.
  - eapply Forall_impl; [exact Hlines|]. by intros l (_ & ? & ?).
  - apply strip_lines. eapply Forall_impl; [exact Hlines|].
    by intros l (? & ? & _).
  - intros ->. cbn [split_on] in Hlines. rewrite Forall_singleton in Hlines.
    by destruct Hlines.
Qed.

Lemma refine_llm_output_clean_witness :
  refine_llm_output [(py "...", py "--")]
    (py "Good morning..." ++ [NEWLINE] ++ py "Nice weather today.")
  = replace_str [(py "...", py "--")]
      (py "Good morning..." ++ [NEWLINE] ++ py "Nice weather today.").
Proof.
  apply (refine_llm_output_clean [(py "...", py "--")]
           (py "Good morning..." ++ [NEWLINE] ++ py "Nice weather today.")).
  vm_compute. repeat constructor; discriminate.
Defined.

End llm_output.

(** *** Quotes and blank lines *)
Section llm_output_more.
Import LlmOutput ManualReplacements.

Lemma contains_no_newline t :
  NEWLINE ∉ t → contains t [NEWLINE; NEWLINE] = false.
Proof.
  induction t as [|x r IH]; [done|]. intros Hx.
  apply not_elem_of_cons in Hx as [Hx Hr]. cbn [contains startswith].
  destruct (N.eqb_spec NEWLINE x) as [Heq|_]; [congruence|].
  cbn [andb orb]. by apply IH.
Qed.

(** A text between two characters that are no white space is stripped. *)
Lemma strip_enclosed l r body :
  isspace l = false → isspace r = false →
  strip (l :: body ++ [r]) = l :: body ++ [r].
Proof.
  intros Hl Hr. unfold strip. rewrite lstrip_cons by done. unfold rstrip.
  change (l :: body ++ [r]) with ((l :: body) ++ [r]).
  rewrite reverse_app. change (reverse [r] ++ reverse (l :: body))
    with (r :: reverse (l :: body)).
  rewrite lstrip_cons by done.
  by rewrite reverse_cons, reverse_involutive.
Qed.

Lemma slice_inner {A} (l r : A) (body : list A) :
  slice (l :: body ++ [r]) 1 (-1) = body.
Proof.
  unfold slice, slice_bound, len. cbn [length Z.ltb Z.compare].
  rewrite length_app. cbn [length].
  replace (Z.to_nat (Z.max 0 (Z.of_nat (S (length body + 1)) + -1)))
    with (S (length body)) by lia.
  replace (Z.to_nat (Z.min 1 (Z.of_nat (S (length body + 1))))) with 1%nat
    by lia.
  cbn [take drop]. by rewrite take_app_length.
Qed.

Lemma lstrip_app_newline s :
  lstrip (s ++ [NEWLINE]) = lstrip s
  ∨ lstrip (s ++ [NEWLINE]) = lstrip s ++ [NEWLINE] ∧ lstrip s ≠ [].
Proof.
  induction s as [|c s IH]; [by left|]. cbn [app lstrip].
  destruct (isspace c); [done|]. right. by split.
Qed.

(** [strip] does not see a final newline. *)
Lemma strip_newline s : strip (s ++ [NEWLINE]) = strip s.
Proof.
  unfold strip. destruct (lstrip_app_newline s) as [->|[-> Hne]]; [done|].
  unfold rstrip. rewrite reverse_app.
  change (reverse [NEWLINE] ++ reverse (lstrip s))
    with (NEWLINE :: reverse (lstrip s)).
  by cbn [lstrip].
Qed.

(** The result on a text of one line. *)
Lemma refine_one_line rep_dict t :
  NEWLINE ∉ t →
  refine_llm_output rep_dict t = replace_str rep_dict (strip (unquoted (strip t))).
Proof.
  intros Ht. unfold refine_llm_output.
  rewrite contains_no_newline, split_on_no_sep by done.
  cbn [fold_left app]. by rewrite strip_newline.
Qed.

Lemma startswith_nil s : startswith s [] = true.
Proof. by destruct s. Qed.

(** X21: [refine_llm_output] takes one layer of quotes off a line: a line
    between two double quotes, or between square brackets, comes back as
    what is between them, stripped, whatever quotes that holds. A line
    between the corner brackets U+300C and U+300D comes back as it is: the
    third pair of [quot], as the source file holds it, is not these two
    characters. *)
Theorem refine_llm_output_unquotes (rep_dict : list (pystr * pystr))
    (body : pystr) :
  NEWLINE ∉ body →
  refine_llm_output rep_dict ([QUOTE] ++ body ++ [QUOTE])
  = replace_str rep_dict (strip body)
  ∧ refine_llm_output rep_dict (py "[" ++ body ++ py "]")
    = replace_str rep_dict (strip body)
  ∧ refine_llm_output rep_dict ([0x300C%N] ++ body ++ [0x300D%N])
    = replace_str rep_dict ([0x300C%N] ++ body ++ [0x300D%N]).
Proof.
  intros Hbody.
  assert (∀ l r, l ≠ NEWLINE → r ≠ NEWLINE → NEWLINE ∉ l :: body ++ [r])
    as Hline.
  { intros l r Hl Hr. rewrite not_elem_of_cons, not_elem_of_app.
    split; [done|]. split; [done|].
    rewrite not_elem_of_cons. split; [done | apply not_elem_of_nil]. }
  assert (∀ l r, reverse (l :: body ++ [r]) = r :: reverse (l :: body))
    as Hrev.
  { intros l r. change (l :: body ++ [r]) with ((l :: body) ++ [r]).
    by rewrite reverse_app. }
  split_and!.
  - change ([QUOTE] ++ body ++ [QUOTE]) with (QUOTE :: body ++ [QUOTE]).
    rewrite refine_one_line by (by apply Hline).
    rewrite strip_enclosed by done. unfold unquoted, quot, endswith.
    cbn [List.find startswith]. rewrite Hrev.
    change (reverse [QUOTE]) with [QUOTE]. cbn [startswith].
    rewrite !N.eqb_refl, !startswith_nil. cbn [andb].
    by rewrite slice_inner.
  - change (py "[" ++ body ++ py "]") with (91%N :: body ++ [93%N]).
    rewrite refine_one_line by (by apply Hline).
    rewrite strip_enclosed by done. unfold unquoted, quot, endswith.
    cbn [List.find startswith]. rewrite Hrev.
    change (reverse [QUOTE]) with [QUOTE].
    change (reverse (py "]")) with [93%N]. change (py "[") with [91%N].
    cbn [startswith]. change (QUOTE =? 91)%N with false.
    rewrite !N.eqb_refl, !startswith_nil. cbn [andb].
    by rewrite slice_inner.
  - change ([0x300C%N] ++ body ++ [0x300D%N])
      with (0x300C%N :: body ++ [0x300D%N]).
    rewrite refine_one_line by (by apply Hline).
    rewrite strip_enclosed by done. unfold unquoted, quot, endswith.
    cbn [List.find startswith].
    change (QUOTE =? 0x300C)%N with false. cbn [andb List.find startswith].
    change (py "[") with [91%N]. cbn [startswith].
    change (91 =? 0x300C)%N with false. cbn [andb List.find startswith].
    change (0x201E =? 0x300C)%N with false. cbn [andb List.find].
    by rewrite strip_enclosed.
Qed.

Lemma refine_llm_output_unquotes_witness :
  refine_llm_output [] ([QUOTE] ++ py " Hello [there] " ++ [QUOTE])
  = replace_str [] (strip (py " Hello [there] "))
  ∧ refine_llm_output [] (py "[" ++ py " Hello [there] " ++ py "]")
    = replace_str [] (strip (py " Hello [there] "))
  ∧ refine_llm_output [] ([0x300C%N] ++ py " Hello [there] " ++ [0x300D%N])
    = replace_str [] ([0x300C%N] ++ py " Hello [there] " ++ [0x300D%N]).
Proof.
  apply (refine_llm_output_unquotes [] (py " Hello [there] ")).
  vm_compute. intros H. repeat (apply elem_of_cons in H as [H|H]; [done|]).
  by apply elem_of_nil in H.
Defined.

(** A line of a translation that the clean-up leaves alone. *)
Definition clean_line (l : pystr) : Prop :=
  l ≠ [] ∧ strip l = l ∧ enclosed l = false ∧ NEWLINE ∉ l.

Lemma contains_two_newlines a r :
  contains (a ++ NEWLINE :: NEWLINE :: r) [NEWLINE; NEWLINE] = true.
Proof.
  induction a as [|x a IH]; cbn [app contains].
  - cbn [startswith]. by rewrite !N.eqb_refl, startswith_nil.
  - rewrite IH. apply orb_true_r.
Qed.

Lemma replace_from_plain a r :
  NEWLINE ∉ a →
  replace_from [NEWLINE; NEWLINE] [NEWLINE] 0 (a ++ r)
  = a ++ replace_from [NEWLINE; NEWLINE] [NEWLINE] 0 r.
Proof.
  induction a as [|x a IH]; intros Ha; [done|].
  apply not_elem_of_cons in Ha as [Hx Ha]. cbn [app replace_from startswith].
  destruct (N.eqb_spec NEWLINE x) as [Heq|_]; [congruence|].
  cbn [andb]. by rewrite IH.
Qed.

Lemma replace_from_no_newline b :
  NEWLINE ∉ b → replace_from [NEWLINE; NEWLINE] [NEWLINE] 0 b = b.
Proof.
  intros Hb. pose proof (replace_from_plain b [] Hb) as H.
  by rewrite !app_nil_r in H.
Qed.

(** Two newlines become one; of three, two are left. *)
Lemma replace_two_newlines a b :
  NEWLINE ∉ a → NEWLINE ∉ b →
  replace [NEWLINE; NEWLINE] [NEWLINE] (a ++ [NEWLINE; NEWLINE] ++ b)
  = a ++ [NEWLINE] ++ b.
Proof.
  intros Ha Hb. unfold replace. rewrite replace_from_plain by done.
  cbn [app replace_from startswith length Nat.sub].
  rewrite !N.eqb_refl, startswith_nil. cbn [andb app].
  by rewrite replace_from_no_newline.
Qed.

Lemma replace_three_newlines a b :
  NEWLINE ∉ a → NEWLINE ∉ b →
  replace [NEWLINE; NEWLINE] [NEWLINE] (a ++ [NEWLINE; NEWLINE; NEWLINE] ++ b)
  = a ++ [NEWLINE; NEWLINE] ++ b.
Proof.
  intros Ha Hb. unfold replace. rewrite replace_from_plain by done.
  cbn [app replace_from startswith length Nat.sub].
  rewrite !N.eqb_refl, startswith_nil. cbn [andb app].
  assert (startswith b [NEWLINE] = false) as ->.
  { destruct b as [|y b]; [done|]. apply not_elem_of_cons in Hb as [Hy _].
    cbn [startswith]. by destruct (N.eqb_spec NEWLINE y). }
  by rewrite replace_from_no_newline.
Qed.

Lemma strip_between a mid b :
  clean_line a → clean_line b → strip (a ++ mid ++ b) = a ++ mid ++ b.
Proof.
  intros (Ha & Hsa & _) (Hb & Hsb & _).
  destruct (strip_fixed a Hsa Ha) as [(c & ra & -> & Hc) _].
  destruct (strip_fixed b Hsb Hb) as [_ (rb & d & -> & Hd)].
  replace ((c :: ra) ++ mid ++ rb ++ [d]) with (c :: (ra ++ mid ++ rb) ++ [d])
    by (by rewrite <- !app_assoc).
  by apply strip_enclosed.
Qed.

(** X22: between two clean lines, [refine_llm_output] turns two newlines
    into one and three newlines into two: the replacement of two newlines
    by one is made once, from the left, so that of three newlines a blank
    line is left between the two lines. *)
Theorem refine_llm_output_blank_lines (rep_dict : list (pystr * pystr))
    (a b : pystr) :
  clean_line a → clean_line b →
  refine_llm_output rep_dict (a ++ [NEWLINE; NEWLINE] ++ b)
  = replace_str rep_dict (a ++ [NEWLINE] ++ b)
  ∧ refine_llm_output rep_dict (a ++ [NEWLINE; NEWLINE; NEWLINE] ++ b)
    = replace_str rep_dict (a ++ [NEWLINE; NEWLINE] ++ b).
Proof.
  intros Ha Hb.
  pose proof Ha as (Hane & Hsa & Hqa & Hna).
  pose proof Hb as (Hbne & Hsb & Hqb & Hnb).
  split; unfold refine_llm_output.
  - change (a ++ [NEWLINE; NEWLINE] ++ b)
      with (a ++ NEWLINE :: NEWLINE :: b) at 1.
    rewrite contains_two_newlines, replace_two_newlines by done.
    f_equal. apply lines_kept.
    + cbn [app]. rewrite split_on_app_sep, split_on_no_sep by done.
      by repeat constructor.
    + by apply strip_between.
    + by destruct a.
  - change (a ++ [NEWLINE; NEWLINE; NEWLINE] ++ b)
      with (a ++ NEWLINE :: NEWLINE :: NEWLINE :: b) at 1.
    rewrite contains_two_newlines, replace_three_newlines by done.
    f_equal. apply lines_kept.
    + cbn [app]. rewrite split_on_app_sep by done.
      change (NEWLINE :: b) with ([] ++ NEWLINE :: b).
      rewrite (split_on_app_sep NEWLINE [] b) by apply not_elem_of_nil.
      rewrite split_on_no_sep by done.
      by repeat constructor.
    + by apply strip_between.
    + by destruct a.
Qed.

Lemma refine_llm_output_blank_lines_witness :
  refine_llm_output [] (py "Good morning." ++ [NEWLINE; NEWLINE] ++ py "Bye.")
  = replace_str [] (py "Good morning." ++ [NEWLINE] ++ py "Bye.")
  ∧ refine_llm_output []
      (py "Good morning." ++ [NEWLINE; NEWLINE; NEWLINE] ++ py "Bye.")
    = replace_str [] (py "Good morning." ++ [NEWLINE; NEWLINE] ++ py "Bye.").
Proof.
  assert (∀ l : pystr,
            negb (bool_decide (l = [])) && bool_decide (strip l = l)
            && negb (enclosed l) && forallb (λ c, negb (c =? NEWLINE)%N) l
            = true → clean_line l) as Hclean.
  { intros l H. repeat (apply andb_prop in H as [H ?]).
    split_and!.
    - apply negb_true_iff, bool_decide_eq_false in H. done.
    - by apply bool_decide_eq_true in H2.
    - by apply negb_true_iff.
    - intros Hin. rewrite forallb_forall in H0.
      apply list_elem_of_In, H0 in Hin. by rewrite N.eqb_refl in Hin. }
  apply (refine_llm_output_blank_lines [] (py "Good morning.") (py "Bye."));
    apply Hclean; vm_compute; reflexivity.
Defined.

End llm_output_more.

(** ** The scene loop *)
Section scene_checks.
Import Refine Reinsert CodeUtils ReinsertTranslations.

(** The dict of a box, as the collapser reads it from the scene file. *)
Definition as_box (d : jp_box) : box := mkBox (text d) (speaker d) (offset d).

(** What the scene loop checks of a full box: its speaker and its text. *)
Definition key (c : chunk) : pystr * pystr := (chunk_speaker c, chunk_text c).

(** The end of [_collapse_boxes]: the last chunk is appended. *)
Definition finish (st : collapse_state) : list chunk :=
  let '(chunks, cur_speaker, cur_lines, i) := st in
  chunks ++ [mkChunk cur_speaker (join [NEWLINE] cur_lines) i].

(** The loop of [_collapse_boxes] from the state [st], and its end. *)
Definition collapse_from (st : collapse_state) (rest : list box) : list chunk :=
  finish (fold_left collapse_step rest st).

Lemma collapse_boxes_from b0 rest :
  _collapse_boxes (b0 :: rest)
  = collapse_from ([], box_speaker b0, [box_text b0], 1) rest.
Proof.
  unfold _collapse_boxes, collapse_from, finish.
  by destruct (fold_left collapse_step rest _) as [[[? ?] ?] ?].
Qed.

Lemma collapse_from_same chunks cur lines i b rest :
  box_speaker b = cur →
  collapse_from (chunks, cur, lines, i) (b :: rest)
  = collapse_from (chunks, cur, lines ++ [box_text b], i) rest.
Proof.
  intros Hb. unfold collapse_from. cbn [fold_left collapse_step].
  by rewrite bool_decide_eq_true_2.
Qed.

Lemma collapse_from_other chunks cur lines i b rest :
  box_speaker b ≠ cur →
  collapse_from (chunks, cur, lines, i) (b :: rest)
  = collapse_from (chunks ++ [mkChunk cur (join [NEWLINE] lines) i],
                   box_speaker b, [box_text b], i + 1) rest.
Proof.
  intros Hb. unfold collapse_from. cbn [fold_left collapse_step].
  by rewrite bool_decide_eq_false_2.
Qed.

(** The chunks already made stay, and the ids do not matter to the keys. *)
Lemma collapse_from_keys rest :
  ∀ chunks cur lines i j,
    map key (collapse_from (chunks, cur, lines, i) rest)
    = map key chunks ++ map key (collapse_from ([], cur, lines, j) rest).
Proof.
  induction rest as [|b rest IH]; intros chunks cur lines i j.
  - unfold collapse_from. cbn [fold_left finish]. by rewrite map_app.
  - destruct (decide (box_speaker b = cur)) as [Hb|Hb].
    + rewrite !collapse_from_same by done. apply IH.
    + rewrite !collapse_from_other by done.
      rewrite (IH (chunks ++ _) _ _ _ 1), (IH ([] ++ _) _ _ _ 1).
      rewrite !map_app. by rewrite <- !app_assoc.
Qed.

Lemma lstrip_idemp s : lstrip (lstrip s) = lstrip s.
Proof.
  induction s as [|c r IH]; [done|]. cbn [lstrip].
  destruct (isspace c) eqn:Hc; [done|]. by apply lstrip_cons.
Qed.

Lemma lstrip_head s c r : lstrip s = c :: r → isspace c = false.
Proof.
  induction s as [|x s IH]; [done|]. cbn [lstrip].
  destruct (isspace x) eqn:Hx; [done|]. by intros [= <- <-].
Qed.

Lemma strip_idemp s : strip (strip s) = strip s.
Proof.
  unfold strip at 2 3. destruct (lstrip s) as [|c r] eqn:Hl; [done|].
  pose proof (lstrip_head _ _ _ Hl) as Hc.
  destruct (strip_cons_nonspace c r Hc) as [r' Hr].
  assert (rstrip (c :: r) = c :: r') as Hrs
    by (rewrite <- Hr; unfold strip; by rewrite lstrip_cons).
  unfold strip. rewrite Hrs at 1. rewrite lstrip_cons by done.
  rewrite <- Hrs. unfold rstrip.
  by rewrite reverse_involutive, lstrip_idemp.
Qed.

Section checks.
Variable rep_dict : list (pystr * pystr).
Variables text_lines line_length : Z.
Variable scene_name : pystr.
Variable lb : labels.

Abbreviation flush := (flush rep_dict text_lines line_length scene_name lb).
Abbreviation scene_step :=
  (scene_step rep_dict text_lines line_length scene_name lb).
Abbreviation scene_loop :=
  (scene_loop rep_dict text_lines line_length scene_name lb).

(** The next full box is the one of the run accumulated, and a translation
    is left for it. *)
Definition ready (st : scene) : Prop :=
  ∃ jp_full fi en_full ei,
    full_iter st = jp_full :: fi ∧ en_iter st = en_full :: ei
    ∧ current_speaker st = Some (chunk_speaker jp_full)
    ∧ chunk_text jp_full = join [NEWLINE] (jp_texts_acc st).

Lemma flush_ready in_loop st :
  ready st →
  match flush in_loop st with
  | Fail e => ∃ e', e = Inner e'
  | Done st' =>
      jp_texts_acc st' = jp_texts_acc st
      ∧ current_speaker st' = current_speaker st
      ∧ last_pass st' = last_pass st
      ∧ full_iter st' = tail (full_iter st)
      ∧ en_iter st' = tail (en_iter st)
  end.
Proof.
  intros (jp_full & fi & en_full & ei & Hfi & Hei & Hcur & Htext).
  unfold ReinsertTranslations.flush. rewrite Hfi, Hei, Hcur, Htext.
  rewrite bool_decide_eq_true_2 by done. cbn [negb].
  rewrite bool_decide_eq_true_2
    by (destruct in_loop; by rewrite ?strip_idemp).
  cbn [negb].
  destruct (craft_into_script _ _ _ _ _ _ _ _) as [[p script]|e];
    cbn [lift mbind outcome_bind].
  - done.
  - by exists e.
Qed.

(** Between two iterations: the full boxes not drawn yet are, speaker and
    text, the chunks the collapser makes of the run accumulated and the
    boxes to come, and there are translations enough for them. *)
Definition aligned (st : scene) (rest : list jp_box) : Prop :=
  ∃ cur, current_speaker st = Some cur ∧ last_pass st = false
    ∧ map key (full_iter st)
      = map key (collapse_from ([], cur, jp_texts_acc st, 1)
                               (map as_box rest))
    ∧ (length (full_iter st) ≤ length (en_iter st))%nat.

Lemma keys_cons (l : list chunk) k ks :
  map key l = k :: ks → ∃ c l', l = c :: l' ∧ key c = k ∧ map key l' = ks.
Proof.
  destruct l as [|c l']; [done|]. cbn [map]. intros [= <- <-]. by exists c, l'.
Qed.

Lemma longer_cons {A B} (c : A) (l : list A) (l' : list B) :
  (length (c :: l) ≤ length l')%nat →
  ∃ x r, l' = x :: r ∧ (length l ≤ length r)%nat.
Proof.
  destruct l' as [|x r]; cbn [length]; [lia|]. intros H. exists x, r.
  split; [done | lia].
Qed.

Lemma scene_loop_checks rest :
  ∀ (k : nat) st,
    aligned st rest →
    match scene_loop (Z.of_nat (k + length rest)) st
            (zip (Z.of_nat <$> seq k (length rest)) rest) with
    | Fail e => ∃ e', e = Inner e'
    | Done st' => last_pass st' = true → ready st'
    end.
Proof.
  induction rest as [|box rest IH];
    intros k st (cur & Hcur & Hlast & Hkeys & Hlen).
  - cbn. congruence.
  - cbn [length seq fmap list_fmap zip zip_with
         ReinsertTranslations.scene_loop].
    unfold ReinsertTranslations.scene_step at 1. rewrite Hcur. cbn [default].
    cbn [map] in Hkeys.
    destruct (decide (speaker box = cur)) as [Hsame|Hdiff].
    + rewrite bool_decide_eq_true_2 by done.
      rewrite collapse_from_same in Hkeys by done.
      destruct (Z.eqb_spec (Z.of_nat k) (Z.of_nat (k + S (length rest)) - 1))
        as [Hend|Hmore]; cbn [negb].
      * (* the last box goes with the run: the run is flushed *)
        destruct rest as [|box' rest]; [|cbn [length] in Hend; lia].
        unfold collapse_from in Hkeys. cbn [map fold_left finish app] in Hkeys.
        apply keys_cons in Hkeys as (c & l' & Hfi & Hc & _).
        rewrite Hfi in Hlen. apply longer_cons in Hlen as (x & r & Hei & _).
        injection Hc as Hsp Htext.
        match goal with
        | |- context [flush true ?s] =>
            pose proof (flush_ready true s) as Hflush;
            destruct (flush true s) as [st2|e]
        end; cbn [mbind outcome_bind ReinsertTranslations.scene_loop zip_with].
        -- destruct Hflush as (_ & _ & Hlp & _).
           { exists c, l', x, r. cbn. rewrite Hsp. by split_and!. }
           cbn in Hlp |- *. congruence.
        -- apply Hflush. exists c, l', x, r. cbn. rewrite Hsp. by split_and!.
      * (* the run goes on *)
        cbn [mbind outcome_bind].
        replace (k + S (length rest))%nat with (S k + length rest)%nat by lia.
        apply IH. exists cur. by split_and!.
    + rewrite bool_decide_eq_false_2 by done.
      rewrite collapse_from_other in Hkeys by done.
      rewrite (collapse_from_keys _ _ _ _ _ 1) in Hkeys.
      cbn [app map key chunk_speaker chunk_text] in Hkeys.
      apply keys_cons in Hkeys as (c & l' & Hfi & Hc & Hkeys).
      pose proof Hlen as Hlen'. rewrite Hfi in Hlen'.
      apply longer_cons in Hlen' as (x & r & Hei & Hlen').
      injection Hc as Hsp Htext.
      match goal with
      | |- context [flush true ?s] =>
          pose proof (flush_ready true s) as Hflush;
          destruct (flush true s) as [st2|e]
      end; cbn [mbind outcome_bind].
      * destruct Hflush as (_ & _ & Hlp & Hfi2 & Hei2).
        { exists c, l', x, r. cbn. rewrite Hsp. by split_and!. }
        cbn in Hlp, Hfi2, Hei2. rewrite Hfi in Hfi2. rewrite Hei in Hei2.
        cbn [tail] in Hfi2, Hei2.
        destruct rest as [|box' rest].
        -- (* the last box starts a run of its own: it is left for the
              flush after the loop *)
           cbn [length seq fmap list_fmap zip_with
                ReinsertTranslations.scene_loop].
           intros _. unfold collapse_from in Hkeys.
           cbn [map fold_left finish app key chunk_speaker chunk_text]
             in Hkeys.
           rewrite <- Hfi2 in Hkeys.
           apply keys_cons in Hkeys as (c' & l'' & Hfi3 & Hc' & _).
           rewrite <- Hfi2, Hfi3, <- Hei2 in Hlen'.
           apply longer_cons in Hlen' as (x' & r' & Hei3 & _).
           injection Hc' as Hsp' Htext'.
           exists c', l'', x', r'. cbn. rewrite Hsp'. by split_and!.
        -- replace (k + S (length (box' :: rest)))%nat
             with (S k + length (box' :: rest))%nat by lia.
           apply IH. exists (speaker box). cbn.
           split_and!; [done | | by rewrite Hfi2 | by rewrite Hfi2, Hei2].
           rewrite Hlp.
           destruct (Z.eqb_spec (Z.of_nat k)
                       (Z.of_nat (k + S (length (box' :: rest))) - 1));
             [cbn [length] in *; lia | done].
      * apply Hflush. exists c, l', x, r. cbn. rewrite Hsp. by split_and!.
Qed.

End checks.

Lemma enumerate_cons {A} (x : A) (l : list A) :
  enumerate (x :: l) = (0, x) :: zip (Z.of_nat <$> seq 1 (length l)) l.
Proof.
  unfold enumerate, range, len. rewrite Nat2Z.id. by cbn [length seq map zip].
Qed.


(** A scene of two boxes of two speakers. *)
Definition scene_boxes : list jp_box :=
  [mkJpBox (py "a") (py "Narrator") 1; mkJpBox (py "b") (py "Bob") 1].

Definition scene_translations : list translation :=
  [mkTranslation [] (py "Hello there") 1; mkTranslation [] (py "World") 2].


End scene_checks.
